(** * Natural-language web tester: command translation and execution engine

    A shallow embedding of the server side of the repository:
    - [server/services/nlpService.js]   (validateAction, getFallbackAction,
      extractQuotedText, extractUrl, translateCommand),
    - [server/services/testExecutor.js] (executeTest, executeStep and the
      per-kind executors, takeScreenshot),
    - the [/create] and [/execute/:sessionId] route handlers,
    - the two tables of [server/database/init.js].

    JavaScript values are modelled by the inductive type [Js.JsValue]; strings
    are [string]s of 8-bit characters (the commands and selectors handled here
    are ASCII text: [toLowerCase], [trim] and the regular expressions are
    modelled on the ASCII range); numbers are the doubles whose value is an
    integer (timeouts, counts and durations in milliseconds), the two
    infinities and [NaN]; fractions are left out.  What the logger writes is
    not modelled; the template literals handed to it are evaluated, since
    the conversion of a value to text can throw.  The statements of the
    database are taken to succeed, but for the violations of a key. *)

From Stdlib Require Import ZArith String Ascii List Bool Lia DecimalString.
From Stdlib Require DecimalPos.
Import ListNotations.
Open Scope list_scope.
Open Scope string_scope.

(** ** Results of fallible code *)

(** A JavaScript computation either returns a value or throws an [Error];
    the code only ever reads [error.message], so an exception is its message. *)
Inductive Result (A : Type) : Type :=
| Ok (a : A)
| Throw (message : string).
Arguments Ok {A} a.
Arguments Throw {A} message.

(** Sequencing: the second computation runs when the first returned. *)
Definition and_then {A B : Type} (r : Result A) (k : A -> Result B) : Result B :=
  match r with
  | Ok a => k a
  | Throw message => Throw message
  end.

(** ** String built-ins *)
Module Str.

(** The three characters of the quote class of [extractQuotedText]:
    double quote, single quote and backtick. *)
Definition dquote : ascii := "034"%char.
Definition squote : ascii := "039"%char.
Definition bquote : ascii := "096"%char.

Definition is_quote (c : ascii) : bool :=
  Ascii.eqb c dquote || Ascii.eqb c squote || Ascii.eqb c bquote.

(** [\s] and the white space of [trim], on the ASCII range:
    TAB, LF, VT, FF, CR and SPACE. *)
Definition is_space (c : ascii) : bool :=
  let n := nat_of_ascii c in
  ((9 <=? n) && (n <=? 13) || (n =? 32))%nat.

Definition lower_char (c : ascii) : ascii :=
  let n := nat_of_ascii c in
  if ((65 <=? n) && (n <=? 90))%nat then ascii_of_nat (n + 32) else c.

(** [s.toLowerCase()] *)
Fixpoint toLowerCase (s : string) : string :=
  match s with
  | EmptyString => EmptyString
  | String c s' => String (lower_char c) (toLowerCase s')
  end.

(** [s.includes(sub)]: [sub] occurs in [s] at some position. *)
Fixpoint includes (s sub : string) : bool :=
  if prefix sub s then true
  else match s with
       | EmptyString => false
       | String _ s' => includes s' sub
       end.

Fixpoint trimStart (s : string) : string :=
  match s with
  | EmptyString => EmptyString
  | String c s' => if is_space c then trimStart s' else s
  end.

Fixpoint trimEnd (s : string) : string :=
  match s with
  | EmptyString => EmptyString
  | String c s' =>
      let t := trimEnd s' in
      if is_space c && (t =? "") then "" else String c t
  end.

(** [s.trim()] *)
Definition trim (s : string) : string := trimEnd (trimStart s).

(** [s.split(sep)] for a one-character separator: never the empty list,
    [''.split(',')] is [['']]. *)
Fixpoint split (sep : ascii) (s : string) : list string :=
  match s with
  | EmptyString => [EmptyString]
  | String c s' =>
      if Ascii.eqb c sep then EmptyString :: split sep s'
      else match split sep s' with
           | h :: t => String c h :: t
           | [] => [String c EmptyString]
           end
  end.

(** [s.replace(/[:.]/g, '-')] *)
Fixpoint replace_colon_dot (s : string) : string :=
  match s with
  | EmptyString => EmptyString
  | String c s' =>
      String (if Ascii.eqb c ":"%char || Ascii.eqb c "."%char then "-"%char else c)
             (replace_colon_dot s')
  end.

(** The longest prefix of characters satisfying [p], and the rest. *)
Fixpoint span (p : ascii -> bool) (s : string) : string * string :=
  match s with
  | EmptyString => (EmptyString, EmptyString)
  | String c s' =>
      if p c then let (run, rest) := span p s' in (String c run, rest)
      else (EmptyString, s)
  end.

(** The decimal writing of an integer. *)
Definition of_Z (n : Z) : string := NilZero.string_of_int (Z.to_int n).

(** *** parseInt *)

Definition digit_value (radix : Z) (c : ascii) : option Z :=
  let n := Z.of_nat (nat_of_ascii c) in
  let v := (if (48 <=? n) && (n <=? 57) then Some (n - 48)
            else if (97 <=? n) && (n <=? 122) then Some (n - 87)
            else if (65 <=? n) && (n <=? 90) then Some (n - 55)
            else None)%Z in
  match v with
  | Some d => if (d <? radix)%Z then Some d else None
  | None => None
  end.

(** Reads digits left to right; [acc] is [None] until a digit was read. *)
Fixpoint read_digits (radix : Z) (acc : option Z) (s : string) : option Z :=
  match s with
  | EmptyString => acc
  | String c s' =>
      match digit_value radix c with
      | Some d =>
          read_digits radix
            (Some (match acc with Some a => a * radix + d | None => d end)%Z) s'
      | None => acc
      end
  end.

(** The integer that [parseInt(s)], without a radix argument, reads at the
    start of [s], before it is rounded to a number; [None] when there is
    none ([NaN]). *)
Definition integer_prefix (s : string) : option Z :=
  let s := trimStart s in
  let '(neg, s) :=
    match s with
    | String "-" s' => (true, s')
    | String "+" s' => (false, s')
    | _ => (false, s)
    end in
  let '(radix, s) :=
    match s with
    | String "0" (String "x" s') => (16%Z, s')
    | String "0" (String "X" s') => (16%Z, s')
    | _ => (10%Z, s)
    end in
  match read_digits radix None s with
  | Some n => Some (if neg then (- n)%Z else n)
  | None => None
  end.

(** [s] without the zeros at its end. *)
Fixpoint strip_zeros (s : string) : string :=
  match s with
  | EmptyString => EmptyString
  | String c s' =>
      let t := strip_zeros s' in
      if Ascii.eqb c "0"%char && (t =? "") then "" else String c t
  end.

End Str.

(** ** Numbers

    A number is a double.  Every integer up to [2 ^ 53] in magnitude is a
    double; beyond, the doubles are the multiples of a power of two that
    have a significand of 53 bits. *)
Module Num.

(** The doubles next to [a > 0] are the multiples of [2 ^ ulp_exponent a]. *)
Definition ulp_exponent (a : Z) : Z := Z.max 0 (Z.log2 a - 52).

(** The double nearest to the integer [a >= 0], a tie going to the even
    significand; [None] beyond the largest double, where the number is
    [Infinity]. *)
Definition round (a : Z) : option Z :=
  let unit := (2 ^ ulp_exponent a)%Z in
  let q := (a / unit)%Z in
  let r := (a mod unit)%Z in
  let up := ((unit <? 2 * r) || ((unit =? 2 * r) && Z.odd q))%Z in
  let m := ((if up then q + 1 else q) * unit)%Z in
  if (2 ^ 1024 <=? m)%Z then None else Some m.

Definition rounds_to (m c : Z) : bool :=
  match round c with
  | Some m' => (m' =? m)%Z
  | None => false
  end.

(** Among the positive multiples of [10 ^ j] that round to the double [m],
    the one nearest to [m]; of two equally near, the even multiple. *)
Definition candidate (m : Z) (j : nat) : option Z :=
  let p := (10 ^ Z.of_nat j)%Z in
  let lo := (m / p * p)%Z in
  let hi := (lo + p)%Z in
  let below := (0 <? lo)%Z && rounds_to m lo in
  let above := rounds_to m hi in
  if below && above then
    Some (if (m - lo <? hi - m)%Z then lo
          else if (hi - m <? m - lo)%Z then hi
          else if Z.even (lo / p) then lo else hi)
  else if below then Some lo
  else if above then Some hi
  else None.

(** The integer with the fewest significant digits that rounds to the
    double [m > 0]: the candidate for the largest power of ten that has
    one, from [10 ^ j] down. *)
Fixpoint shortest (m : Z) (j : nat) : Z :=
  match candidate m j with
  | Some c => c
  | None =>
      match j with
      | O => m
      | S j' => shortest m j'
      end
  end.

(** [Number.prototype.toString] on an integer: up to [2 ^ 53] it is written
    out in full; beyond, the digits are those of the shortest integer that
    rounds to it, followed by zeros when there are at most 21 digits in
    all, and in exponent form otherwise. *)
Definition to_string (n : Z) : string :=
  if (Z.abs n <=? 2 ^ 53)%Z then Str.of_Z n
  else
    let a := Z.abs n in
    let text := Str.of_Z (shortest a (String.length (Str.of_Z a))) in
    let exponent := Str.of_Z (Z.of_nat (String.length text) - 1) in
    let body :=
      if (String.length text <=? 21)%nat then text
      else match Str.strip_zeros text with
           | String d EmptyString => String d ("e+" ++ exponent)
           | String d more => String d ("." ++ more ++ "e+" ++ exponent)
           | EmptyString => text
           end in
    if (n <? 0)%Z then "-" ++ body else body.

End Num.

(** ** JavaScript values *)
Module Js.

#[local] Set Warnings "-register-all".

(** [JNum n] is the number whose value is the integer [n]; beyond [2 ^ 53]
    only the integers that are doubles stand for a number.  [JInf] is one of
    the two infinities. *)
Inductive JsValue : Type :=
| JUndefined
| JNull
| JBool (b : bool)
| JNum (n : Z)
| JStr (s : string)
| JArr (items : list JsValue)
| JObj (props : list (string * JsValue))
| JInf (negative : bool)
| JNaN.

(** ToBoolean *)
Definition truthy (v : JsValue) : bool :=
  match v with
  | JUndefined | JNull | JNaN => false
  | JBool b => b
  | JNum n => negb (n =? 0)%Z
  | JStr s => negb (s =? "")
  | JArr _ | JObj _ | JInf _ => true
  end.

(** [a || b] *)
Definition or (a b : JsValue) : JsValue := if truthy a then a else b.

(** [typeof v] *)
Definition typeof (v : JsValue) : string :=
  match v with
  | JUndefined => "undefined"
  | JNull => "object"
  | JBool _ => "boolean"
  | JNum _ | JInf _ | JNaN => "number"
  | JStr _ => "string"
  | JArr _ | JObj _ => "object"
  end.

Fixpoint lookup (k : string) (props : list (string * JsValue)) : JsValue :=
  match props with
  | [] => JUndefined
  | (k', v) :: rest => if k' =? k then v else lookup k rest
  end.

(** [v.k] for the own data properties read in this code base, on a value
    that is neither [null] nor [undefined]: a missing property, and any
    property of a primitive or an array, reads as [undefined]. *)
Definition prop (v : JsValue) (k : string) : JsValue :=
  match v with
  | JObj props => lookup k props
  | _ => JUndefined
  end.

(** [v.k] in general: reading a property of [null] or [undefined] throws. *)
Definition read (v : JsValue) (k : string) : Result JsValue :=
  match v with
  | JUndefined =>
      Throw ("Cannot read properties of undefined (reading '" ++ k ++ "')")
  | JNull =>
      Throw ("Cannot read properties of null (reading '" ++ k ++ "')")
  | _ => Ok (prop v k)
  end.

(** [o.k = v] on an object: overwrites the property or adds it last. *)
Fixpoint assign (k : string) (v : JsValue) (props : list (string * JsValue))
  : list (string * JsValue) :=
  match props with
  | [] => [(k, v)]
  | (k', v') :: rest =>
      if k' =? k then (k, v) :: rest else (k', v') :: assign k v rest
  end.

Definition set (o : JsValue) (k : string) (v : JsValue) : JsValue :=
  match o with
  | JObj props => JObj (assign k v props)
  | _ => o
  end.


(** [v === s] for a string literal [s] *)
Definition is_str (v : JsValue) (s : string) : bool :=
  match v with
  | JStr t => t =? s
  | _ => false
  end.


(** SameValueZero between a value and one that comes from elsewhere: two
    primitives are compared by value, and an object or an array is never
    the same as another one. *)
Definition same_value_zero (a b : JsValue) : bool :=
  match a, b with
  | JUndefined, JUndefined | JNull, JNull | JNaN, JNaN => true
  | JBool x, JBool y => Bool.eqb x y
  | JNum x, JNum y => (x =? y)%Z
  | JInf x, JInf y => Bool.eqb x y
  | JStr x, JStr y => x =? y
  | _, _ => false
  end.


(** The number whose value is the integer [n], rounded as a double. *)
Definition number (n : Z) : JsValue :=
  match Num.round (Z.abs n) with
  | Some m => JNum (if (n <? 0)%Z then - m else m)
  | None => JInf (n <? 0)%Z
  end.

(** [parseInt(s)] on a string, without a radix argument. *)
Definition parseInt (s : string) : JsValue :=
  match Str.integer_prefix s with
  | Some n => number n
  | None => JNaN
  end.

(** The message of the [TypeError] of a conversion to a primitive. *)
Definition primitive_error : string :=
  "Cannot convert object to primitive value".

(** The object has an own property [k]. *)
Definition has_own (k : string) (props : list (string * JsValue)) : bool :=
  existsb (fun p => fst p =? k) props.

(** [items.join(',')], with [text] the conversion of an item: the items
    are converted from the first to the last. *)
Fixpoint join_with {A : Type} (text : A -> Result string) (items : list A)
  : Result string :=
  match items with
  | [] => Ok ""
  | e :: rest =>
      and_then (text e)
        (fun s =>
           match rest with
           | [] => Ok s
           | _ :: _ => and_then (join_with text rest) (fun t => Ok (s ++ "," ++ t))
           end)
  end.

(** ToString, as applied by template literals and by string methods to
    their arguments.  An array is joined with commas, [null] and [undefined]
    items being empty.  An object is [[object Object]], unless it has an own
    property [toString]: a value read from JSON is never callable, the
    inherited [valueOf] returns the object itself, and the conversion throws
    a [TypeError]. *)
Fixpoint to_string (v : JsValue) : Result string :=
  match v with
  | JUndefined => Ok "undefined"
  | JNull => Ok "null"
  | JBool true => Ok "true"
  | JBool false => Ok "false"
  | JNum n => Ok (Num.to_string n)
  | JInf negative => Ok (if negative then "-Infinity" else "Infinity")
  | JNaN => Ok "NaN"
  | JStr s => Ok s
  | JArr items =>
      join_with (fun e => match e with
                          | JUndefined | JNull => Ok ""
                          | _ => to_string e
                          end) items
  | JObj props =>
      if has_own "toString" props then Throw primitive_error
      else Ok "[object Object]"
  end.

(** [JSON.stringify] drops the properties whose value is [undefined],
    writes [undefined] array items as [null], and writes the infinities and
    [NaN] as [null]; [json_clean v] is the value that the text
    [JSON.stringify(v)] parses back to. *)
Fixpoint json_clean (v : JsValue) : JsValue :=
  match v with
  | JInf _ | JNaN => JNull
  | JArr items =>
      JArr (map (fun e => match e with
                          | JUndefined => JNull
                          | _ => json_clean e
                          end) items)
  | JObj props =>
      JObj ((fix clean (ps : list (string * JsValue)) :=
               match ps with
               | [] => []
               | (k, JUndefined) :: rest => clean rest
               | (k, x) :: rest => (k, json_clean x) :: clean rest
               end) props)
  | _ => v
  end.

End Js.
Import Js.

(** A text that is meant to hold JSON (the reply of the language model, the
    [translated_action] column) is modelled by what [JSON.parse] makes of it:
    [Some v] when it parses to [v], [None] when [JSON.parse] throws. *)
Definition JsonText : Type := option JsValue.

Definition JSON_stringify (v : JsValue) : JsonText := Some (json_clean v).

Definition JSON_parse (t : JsonText) : Result JsValue :=
  match t with
  | Some v => Ok v
  | None => Throw "Unexpected token in JSON"
  end.

(** ** nlpService.js: the pure part *)
Module NlpService.

(** Action types that the system supports *)
Definition NAVIGATE := "navigate".
Definition CLICK := "click".
Definition TYPE := "type".
Definition WAIT := "wait".
Definition VERIFY := "verify".
Definition SCROLL := "scroll".
Definition HOVER := "hover".
Definition SELECT := "select".
Definition UPLOAD := "upload".
Definition SCREENSHOT := "screenshot".

Definition SUPPORTED_ACTIONS : list (string * string) :=
  [ ("NAVIGATE", NAVIGATE); ("CLICK", CLICK); ("TYPE", TYPE); ("WAIT", WAIT);
    ("VERIFY", VERIFY); ("SCROLL", SCROLL); ("HOVER", HOVER);
    ("SELECT", SELECT); ("UPLOAD", UPLOAD); ("SCREENSHOT", SCREENSHOT) ].

(** [Object.values(SUPPORTED_ACTIONS).includes(v)] *)
Definition supported (v : JsValue) : bool :=
  existsb (is_str v) (map snd SUPPORTED_ACTIONS).

Definition validateAction (action : JsValue) : Result JsValue :=
  if negb (truthy action) || negb (typeof action =? "object") then
    Throw "Action must be an object"
  else if negb (truthy (prop action "type"))
          || negb (supported (prop action "type")) then
    and_then (to_string (prop action "type"))
      (fun type => Throw ("Invalid action type: " ++ type))
  else
    (* Set defaults *)
    and_then
      (if truthy (prop action "description") then Ok (prop action "description")
       else and_then (to_string (prop action "type"))
              (fun type => Ok (JStr ("Execute " ++ type ++ " action"))))
      (fun description =>
    let validatedAction :=
      JObj [ ("type", prop action "type");
             ("target", Js.or (prop action "target") (JStr ""));
             ("value", Js.or (prop action "value") (JStr ""));
             ("description", description);
             ("waitFor", Js.or (prop action "waitFor") JNull);
             ("timeout", Js.or (prop action "timeout") (JNum 30000)) ] in
    (* Type-specific validation *)
    if is_str (prop action "type") NAVIGATE then
      if negb (truthy (prop validatedAction "value"))
         && negb (truthy (prop validatedAction "target")) then
        Throw "Navigate action requires a URL in value or target field"
      else Ok validatedAction
    else if is_str (prop action "type") TYPE then
      if negb (truthy (prop validatedAction "value")) then
        Throw "Type action requires a value to type"
      else Ok validatedAction
    else if is_str (prop action "type") VERIFY then
      if negb (truthy (prop validatedAction "value"))
         && negb (truthy (prop validatedAction "target")) then
        Throw "Verify action requires something to verify"
      else Ok validatedAction
    else Ok validatedAction).

(** The text after an opening quote, up to the next quote character:
    [None] when no quote character follows. *)
Fixpoint until_quote (s : string) : option string :=
  match s with
  | EmptyString => None
  | String c s' =>
      if Str.is_quote c then Some EmptyString
      else match until_quote s' with
           | Some run => Some (String c run)
           | None => None
           end
  end.

(** The regular expression of [extractQuotedText], [/Q([^Q]+)Q/] with [Q]
    the class of the three quote characters, anchored at the start of [s];
    the result is the first group.  The group is greedy and cannot contain
    a quote, so it is the whole run up to the next quote character. *)
Definition quoted_at (s : string) : option string :=
  match s with
  | EmptyString => None
  | String c s' =>
      if Str.is_quote c then
        match until_quote s' with
        | Some run => if run =? "" then None else Some run
        | None => None
        end
      else None
  end.

(** [command.match(...)] returns the leftmost match;
    [matches ? matches[1] : null]. *)
Fixpoint extractQuotedText (command : string) : option string :=
  match quoted_at command with
  | Some text => Some text
  | None =>
      match command with
      | EmptyString => None
      | String _ rest => extractQuotedText rest
      end
  end.

(** The regular expression [/(https?:\/\/[^\s]+)/] anchored at the start
    of [s]. *)
Definition url_at (s : string) : option string :=
  let scheme :=
    if prefix "https://" s then Some "https://"
    else if prefix "http://" s then Some "http://"
    else None in
  match scheme with
  | Some sch =>
      let rest := substring (String.length sch) (String.length s) s in
      let (run, _) := Str.span (fun c => negb (Str.is_space c)) rest in
      if run =? "" then None else Some (sch ++ run)
  | None => None
  end.

Fixpoint extractUrl (command : string) : option string :=
  match url_at command with
  | Some url => Some url
  | None =>
      match command with
      | EmptyString => None
      | String _ rest => extractUrl rest
      end
  end.

(** [x || d] and [if (x)] for [x] a string or [null] *)
Definition or_else (x : option string) (d : string) : string :=
  match x with
  | Some s => if s =? "" then d else s
  | None => d
  end.

Definition nonempty (x : option string) : option string :=
  match x with
  | Some s => if s =? "" then None else Some s
  | None => None
  end.

(** Fallback actions by simple pattern matching; [None] is [null]. *)
Definition getFallbackAction (command : string) : option JsValue :=
  let lowerCommand := Str.toLowerCase command in
  if Str.includes lowerCommand "click" then
    let buttonText := or_else (extractQuotedText command) "button" in
    Some (JObj [ ("type", JStr CLICK);
                 ("target",
                   JStr ("button:has-text('" ++ buttonText
                         ++ "'), [data-testid*='"
                         ++ Str.toLowerCase buttonText ++ "']"));
                 ("description", JStr ("Click " ++ buttonText));
                 ("timeout", JNum 30000) ])
  else
    let typed :=
      if Str.includes lowerCommand "type" || Str.includes lowerCommand "enter"
      then nonempty (extractQuotedText command) else None in
    match typed with
    | Some text =>
        Some (JObj [ ("type", JStr TYPE);
                     ("target", JStr "input, textarea");
                     ("value", JStr text);
                     ("description",
                       JStr ("Type " ++ String Str.dquote text
                             ++ String Str.dquote ""));
                     ("timeout", JNum 30000) ])
    | None =>
        let url :=
          if Str.includes lowerCommand "navigate"
             || Str.includes lowerCommand "go to"
          then nonempty (extractUrl command) else None in
        match url with
        | Some url =>
            Some (JObj [ ("type", JStr NAVIGATE);
                         ("target", JStr url);
                         ("value", JStr url);
                         ("description", JStr ("Navigate to " ++ url));
                         ("timeout", JNum 30000) ])
        | None => None
        end
    end.

End NlpService.

(** ** The outside world: browser, language model, clock, id generator *)

Inductive BrowserKind : Type := Chromium | Firefox | Webkit.

(** The calls made on the Playwright objects.  A [timeout] is the value of
    the [timeout] option; a selector is the value handed to Playwright. *)
Inductive Call : Type :=
| Launch (browserType : BrowserKind) (headless : bool)
| NewContext
| NewPage
| PageClose
| ContextClose
| BrowserClose
| Goto (url timeout : JsValue)
| WaitForSelector (selector timeout : JsValue)
| Click (selector : string) (timeout : JsValue)
| Fill (selector : string) (value : JsValue)
| WaitForTimeout (ms : JsValue)
| Title
| IsVisible (target : JsValue)
| TextContent (target : JsValue)
| ScrollToTop
| ScrollToBottom
| ScrollIntoView (target : JsValue)
| Hover (target timeout : JsValue)
| SelectOption (target value timeout : JsValue)
| Screenshot (path : string).

(** A promise settles: it resolves with a value or rejects with an error. *)
Inductive Outcome : Type :=
| Resolved (v : JsValue)
| Rejected (message : string).

(** What [openai.chat.completions.create] and the reading of
    [response.choices[0].message.content] give: an error (of the API, or of
    reading a malformed response), or the content text. *)
Inductive Completion : Type :=
| ApiError (message : string)
| Content (text : JsonText).

(** The capabilities the server consumes.  [Ext] is the state of everything
    outside the server process; every call may change it. *)
Class External : Type := {
  Ext : Type;
  perform : Call -> Ext -> Outcome * Ext;
  complete : string -> string -> Ext -> Completion * Ext;
  uuidv4 : Ext -> string * Ext;
  Date_now : Ext -> Z;
  Date_toISOString : Ext -> string;
  BROWSER_TYPE : option string;
  HEADLESS : option string
}.

(** ** database/init.js: the tables *)

Module TestSessions.
(** [status TEXT DEFAULT 'pending'], the three counters [DEFAULT 0];
    the two time stamp columns are left out. *)
Record row : Type := {
  id : string;
  name : string;
  description : JsValue;
  status : string;
  total_steps : Z;
  passed_steps : Z;
  failed_steps : Z
}.
End TestSessions.

Module TestSteps.
(** [status TEXT DEFAULT 'pending']; [expected_result] (never written)
    and [created_at] are left out. *)
Record row : Type := {
  id : string;
  session_id : string;
  step_number : Z;
  original_command : string;
  translated_action : JsonText;
  action_type : JsValue;
  target_element : JsValue;
  actual_result : JsValue;
  status : JsValue;
  screenshot_path : JsValue;
  error_message : JsValue;
  execution_time : JsValue
}.
End TestSteps.

Record Store : Type := {
  test_sessions : list TestSessions.row;
  test_steps : list TestSteps.row
}.

(** [ORDER BY step_number]: a stable insertion sort. *)
Fixpoint insert_by_number (r : TestSteps.row) (l : list TestSteps.row)
  : list TestSteps.row :=
  match l with
  | [] => [r]
  | x :: rest =>
      if (TestSteps.step_number r <? TestSteps.step_number x)%Z
      then r :: x :: rest
      else x :: insert_by_number r rest
  end.

Definition order_by_step_number (l : list TestSteps.row) : list TestSteps.row :=
  fold_right insert_by_number [] l.

(** [SELECT * FROM test_sessions WHERE id = ?] through [db.get]: the row,
    or [undefined]. *)
Definition select_session (sessionId : string) (s : Store)
  : option TestSessions.row :=
  find (fun r => TestSessions.id r =? sessionId) (test_sessions s).

(** [SELECT * FROM test_steps WHERE session_id = ? ORDER BY step_number] *)
Definition select_steps (sessionId : string) (s : Store) : list TestSteps.row :=
  order_by_step_number
    (filter (fun r => TestSteps.session_id r =? sessionId) (test_steps s)).

(** [INSERT INTO test_sessions (id, name, description, total_steps)];
    [id] is the primary key. *)
Definition insert_session (sessionId name : string) (description : JsValue)
    (total : Z) (s : Store) : Result Store :=
  if existsb (fun r => TestSessions.id r =? sessionId) (test_sessions s) then
    Throw "SQLITE_CONSTRAINT: UNIQUE constraint failed: test_sessions.id"
  else
    Ok {| test_sessions :=
            test_sessions s ++
            [ {| TestSessions.id := sessionId;
                 TestSessions.name := name;
                 TestSessions.description := description;
                 TestSessions.status := "pending";
                 TestSessions.total_steps := total;
                 TestSessions.passed_steps := 0;
                 TestSessions.failed_steps := 0 |} ];
          test_steps := test_steps s |}.

(** [INSERT INTO test_steps (id, session_id, step_number, original_command,
    translated_action, action_type, target_element)] *)
Definition insert_step (stepId sessionId : string) (number : Z)
    (command : string) (translated : JsonText) (type target : JsValue)
    (s : Store) : Result Store :=
  if existsb (fun r => TestSteps.id r =? stepId) (test_steps s) then
    Throw "SQLITE_CONSTRAINT: UNIQUE constraint failed: test_steps.id"
  else
    Ok {| test_sessions := test_sessions s;
          test_steps :=
            test_steps s ++
            [ {| TestSteps.id := stepId;
                 TestSteps.session_id := sessionId;
                 TestSteps.step_number := number;
                 TestSteps.original_command := command;
                 TestSteps.translated_action := translated;
                 TestSteps.action_type := type;
                 TestSteps.target_element := target;
                 TestSteps.actual_result := JNull;
                 TestSteps.status := JStr "pending";
                 TestSteps.screenshot_path := JNull;
                 TestSteps.error_message := JNull;
                 TestSteps.execution_time := JNull |} ] |}.

(** [UPDATE test_steps SET status = ? WHERE id = ?] *)
Definition set_step_status (stepId : string) (st : JsValue) (s : Store) : Store :=
  {| test_sessions := test_sessions s;
     test_steps :=
       map (fun r =>
              if TestSteps.id r =? stepId then
                {| TestSteps.id := TestSteps.id r;
                   TestSteps.session_id := TestSteps.session_id r;
                   TestSteps.step_number := TestSteps.step_number r;
                   TestSteps.original_command := TestSteps.original_command r;
                   TestSteps.translated_action := TestSteps.translated_action r;
                   TestSteps.action_type := TestSteps.action_type r;
                   TestSteps.target_element := TestSteps.target_element r;
                   TestSteps.actual_result := TestSteps.actual_result r;
                   TestSteps.status := st;
                   TestSteps.screenshot_path := TestSteps.screenshot_path r;
                   TestSteps.error_message := TestSteps.error_message r;
                   TestSteps.execution_time := TestSteps.execution_time r |}
              else r)
           (test_steps s) |}.

(** [UPDATE test_steps SET status = ?, actual_result = ?, error_message = ?,
    execution_time = ?, screenshot_path = ? WHERE id = ?] *)
Definition set_step_result (stepId : string)
    (st actual error time shot : JsValue) (s : Store) : Store :=
  {| test_sessions := test_sessions s;
     test_steps :=
       map (fun r =>
              if TestSteps.id r =? stepId then
                {| TestSteps.id := TestSteps.id r;
                   TestSteps.session_id := TestSteps.session_id r;
                   TestSteps.step_number := TestSteps.step_number r;
                   TestSteps.original_command := TestSteps.original_command r;
                   TestSteps.translated_action := TestSteps.translated_action r;
                   TestSteps.action_type := TestSteps.action_type r;
                   TestSteps.target_element := TestSteps.target_element r;
                   TestSteps.actual_result := actual;
                   TestSteps.status := st;
                   TestSteps.screenshot_path := shot;
                   TestSteps.error_message := error;
                   TestSteps.execution_time := time |}
              else r)
           (test_steps s) |}.

Definition update_session (sessionId : string)
    (f : TestSessions.row -> TestSessions.row) (s : Store) : Store :=
  {| test_sessions :=
       map (fun r => if TestSessions.id r =? sessionId then f r else r)
           (test_sessions s);
     test_steps := test_steps s |}.

(** [UPDATE test_sessions SET status = ? ... WHERE id = ?] *)
Definition set_session_status (sessionId st : string) : Store -> Store :=
  update_session sessionId
    (fun r => {| TestSessions.id := TestSessions.id r;
                 TestSessions.name := TestSessions.name r;
                 TestSessions.description := TestSessions.description r;
                 TestSessions.status := st;
                 TestSessions.total_steps := TestSessions.total_steps r;
                 TestSessions.passed_steps := TestSessions.passed_steps r;
                 TestSessions.failed_steps := TestSessions.failed_steps r |}).

(** [UPDATE test_sessions SET status = ?, passed_steps = ?, failed_steps = ?
    ... WHERE id = ?] *)
Definition set_session_result (sessionId st : string) (passed failed : Z)
  : Store -> Store :=
  update_session sessionId
    (fun r => {| TestSessions.id := TestSessions.id r;
                 TestSessions.name := TestSessions.name r;
                 TestSessions.description := TestSessions.description r;
                 TestSessions.status := st;
                 TestSessions.total_steps := TestSessions.total_steps r;
                 TestSessions.passed_steps := passed;
                 TestSessions.failed_steps := failed |}).

(** [DELETE FROM test_steps WHERE session_id = ?] *)
Definition delete_steps (sessionId : string) (s : Store) : Store :=
  {| test_sessions := test_sessions s;
     test_steps :=
       filter (fun r => negb (TestSteps.session_id r =? sessionId))
         (test_steps s) |}.

(** [DELETE FROM test_sessions WHERE id = ?]; the callback rejects with
    [new Error('Session not found')] when [this.changes === 0]. *)
Definition delete_session (sessionId : string) (s : Store) : Result Store :=
  if existsb (fun r => TestSessions.id r =? sessionId) (test_sessions s) then
    Ok {| test_sessions :=
            filter (fun r => negb (TestSessions.id r =? sessionId))
              (test_sessions s);
          test_steps := test_steps s |}
  else Throw "Session not found".

(** ** The effects of the server code

    A computation runs in a [World]: the state of the outside, the log of
    the browser calls made so far (oldest first) and the database.  It returns
    a value or throws, and leaves a new world either way. *)
Section Effects.
Context `{External}.

Record World : Type := {
  ext : Ext;
  trace : list Call;
  db : Store
}.

Definition M (A : Type) : Type := World -> Result A * World.

Definition ret {A : Type} (a : A) : M A := fun w => (Ok a, w).

Definition throw {A : Type} (message : string) : M A :=
  fun w => (Throw message, w).

Definition lift {A : Type} (r : Result A) : M A := fun w => (r, w).

Definition bind {A B : Type} (m : M A) (k : A -> M B) : M B :=
  fun w =>
    match m w with
    | (Ok a, w') => k a w'
    | (Throw e, w') => (Throw e, w')
    end.

(** [try { m } catch (error) { handler(error.message) }] *)
Definition try_catch {A : Type} (m : M A) (handler : string -> M A) : M A :=
  fun w =>
    match m w with
    | (Ok a, w') => (Ok a, w')
    | (Throw e, w') => handler e w'
    end.

(** An awaited call on the browser: logged, then settled by the outside. *)
Definition call (c : Call) : M JsValue :=
  fun w =>
    let (o, e) := perform c (ext w) in
    (match o with
     | Resolved v => Ok v
     | Rejected message => Throw message
     end,
     {| ext := e; trace := trace w ++ [c]; db := db w |}).

(** [Date.now()] and [new Date().toISOString()] *)
Definition now : M Z := fun w => (Ok (Date_now (ext w)), w).
Definition isoString : M string := fun w => (Ok (Date_toISOString (ext w)), w).

(** [uuidv4()] *)
Definition uuid : M string :=
  fun w =>
    let (i, e) := uuidv4 (ext w) in
    (Ok i, {| ext := e; trace := trace w; db := db w |}).

(** The request to the language model and the reading of its content. *)
Definition chat (command targetUrl : string) : M JsonText :=
  fun w =>
    let (c, e) := complete command targetUrl (ext w) in
    (match c with
     | ApiError message => Throw message
     | Content text => Ok text
     end,
     {| ext := e; trace := trace w; db := db w |}).

Definition db_read {A : Type} (q : Store -> A) : M A :=
  fun w => (Ok (q (db w)), w).

Definition db_update (u : Store -> Store) : M unit :=
  fun w => (Ok tt, {| ext := ext w; trace := trace w; db := u (db w) |}).

(** The text of a value in a template literal. *)
Definition str (v : JsValue) : M string := lift (to_string v).

(** A statement the database may refuse: [reject(err)]. *)
Definition db_run (u : Store -> Result Store) : M unit :=
  fun w =>
    match u (db w) with
    | Ok s => (Ok tt, {| ext := ext w; trace := trace w; db := s |})
    | Throw e => (Throw e, w)
    end.

End Effects.

Notation "x <- m ;; k" := (bind m (fun x => k))
  (at level 61, m at next level, right associativity).
Notation "m ;;; k" := (bind m (fun _ => k))
  (at level 61, right associativity).

(** ** nlpService.js: translateCommand *)
Section Translation.
Context `{External}.
Import NlpService.

Definition translateCommand (command targetUrl : string) : M JsValue :=
  try_catch
    (content <- chat command targetUrl ;;
     (* Parse the JSON response *)
     translatedAction <-
       try_catch (lift (JSON_parse content))
         (fun _ => throw "Invalid response format from AI model") ;;
     (* Validate the translated action *)
     lift (validateAction translatedAction))
    (fun message =>
       (* Fallback to basic pattern matching if OpenAI fails *)
       match getFallbackAction command with
       | Some fallbackAction => ret fallbackAction
       | None => throw ("Failed to translate command: " ++ message)
       end).

End Translation.

(** ** testExecutor.js *)
Section Executor.
Context `{External}.
Import NlpService.

Definition screenshotsDir : string := "./screenshots".

(** [path.join(dir, file)]; the normalisation that [path.join] also does
    is left out: the path is only handed to the browser. *)
Definition path_join (dir file : string) : string := dir ++ "/" ++ file.

(** Take a screenshot: the path served for it, or [null] when the capture
    failed. *)
Definition takeScreenshot (sessionId stepId type : string) : M JsValue :=
  try_catch
    (iso <- isoString ;;
     let timestamp := Str.replace_colon_dot iso in
     let filename :=
       sessionId ++ "_" ++ stepId ++ "_" ++ type ++ "_" ++ timestamp ++ ".png" in
     let screenshotPath := path_join screenshotsDir filename in
     call (Screenshot screenshotPath) ;;;
     ret (JStr ("/screenshots/" ++ filename)))
    (fun _ => ret JNull).

(** Navigate to a URL *)
Definition executeNavigate (action : JsValue) : M unit :=
  let url := Js.or (prop action "value") (prop action "target") in
  (* logger.info(`Navigating to: ${url}`) *)
  str url ;;;
  call (Goto url (prop action "timeout")) ;;;
  ret tt.

(** [action.target.split(',').map(s => s.trim())] *)
Definition selectors_of (target : JsValue) : Result (list string) :=
  match target with
  | JStr s => Ok (map Str.trim (Str.split "," s))
  | JUndefined => Throw "Cannot read properties of undefined (reading 'split')"
  | JNull => Throw "Cannot read properties of null (reading 'split')"
  | _ => Throw "action.target.split is not a function"
  end.

(** The loop shared by [executeClick] and [executeType]: each candidate is
    waited for (5000 ms) and then acted on inside a [try]; the first one for
    which both succeed ends the function ([true]).  A failure is only
    logged at debug level and the next candidate is tried. *)
Fixpoint try_selectors (act : string -> M JsValue) (selectors : list string)
  : M bool :=
  match selectors with
  | [] => ret false
  | selector :: rest =>
      returned <-
        try_catch
          (call (WaitForSelector (JStr selector) (JNum 5000)) ;;;
           act selector ;;;
           ret true)
          (fun _ => ret false) ;;
      if returned then ret true else try_selectors act rest
  end.

(** Click on an element *)
Definition executeClick (action : JsValue) : M unit :=
  (* logger.info(`Clicking element: ${action.target}`) *)
  str (prop action "target") ;;;
  selectors <- lift (selectors_of (prop action "target")) ;;
  returned <-
    try_selectors (fun selector => call (Click selector (prop action "timeout")))
      selectors ;;
  if returned then ret tt
  else
    target <- str (prop action "target") ;;
    throw ("Could not find clickable element with any of the selectors: "
           ++ target).

(** Type text into an input field *)
Definition executeType (action : JsValue) : M unit :=
  (* logger.info(`Typing into element: ${action.target}`) *)
  str (prop action "target") ;;;
  selectors <- lift (selectors_of (prop action "target")) ;;
  returned <-
    try_selectors (fun selector => call (Fill selector (prop action "value")))
      selectors ;;
  if returned then ret tt
  else
    target <- str (prop action "target") ;;
    throw ("Could not find input element with any of the selectors: "
           ++ target).

(** Wait for an element or time *)
Definition executeWait (action : JsValue) : M unit :=
  if is_str (prop action "target") "time" || negb (truthy (prop action "target"))
  then
    (* parseInt converts its argument to a string first *)
    value <- str (prop action "value") ;;
    let waitTime := Js.or (parseInt value) (JNum 1000) in
    call (WaitForTimeout waitTime) ;;; ret tt
  else
    (* logger.info(`Waiting for element: ${action.target}`) *)
    str (prop action "target") ;;;
    call (WaitForSelector (prop action "target") (prop action "timeout")) ;;;
    ret tt.

(** [text.includes(x)] on what the browser returned as [text].  On a string
    the argument is converted to a string; on an array the items are
    compared with the argument; other values have no such method. *)
Definition includes_of (text x : JsValue) : Result bool :=
  match text with
  | JStr t => and_then (to_string x) (fun sub => Ok (Str.includes t sub))
  | JArr items => Ok (existsb (fun e => same_value_zero e x) items)
  | JUndefined =>
      Throw "Cannot read properties of undefined (reading 'includes')"
  | JNull => Throw "Cannot read properties of null (reading 'includes')"
  | _ => Throw "text.includes is not a function"
  end.

(** A text between double quotes. *)
Definition quoted (s : string) : string :=
  String Str.dquote s ++ String Str.dquote "".

(** Verify text or element presence *)
Definition executeVerify (action : JsValue) : M JsValue :=
  (* logger.info(`Verifying: ${action.target}`) *)
  str (prop action "target") ;;;
  if is_str (prop action "target") "title" then
    title <- call Title ;;
    let expected := prop action "value" in
    found <- lift (includes_of title expected) ;;
    if found then
      title <- str title ;;
      expected <- str expected ;;
      ret (JStr ("Title verification passed: " ++ quoted title
                 ++ " contains " ++ quoted expected))
    else
      title <- str title ;;
      expected <- str expected ;;
      throw ("Title verification failed: " ++ quoted title
             ++ " does not contain " ++ quoted expected)
  else
    (* Verify element presence or text content *)
    isVisible <- call (IsVisible (prop action "target")) ;;
    if negb (truthy isVisible) then
      target <- str (prop action "target") ;;
      throw ("Element not visible: " ++ target)
    else if truthy (prop action "value") then
      text <- call (TextContent (prop action "target")) ;;
      found <- lift (includes_of text (prop action "value")) ;;
      if negb found then
        text <- str text ;;
        value <- str (prop action "value") ;;
        throw ("Text verification failed: " ++ quoted text
               ++ " does not contain " ++ quoted value)
      else
        value <- str (prop action "value") ;;
        ret (JStr ("Text verification passed: found " ++ quoted value))
    else
      target <- str (prop action "target") ;;
      ret (JStr ("Element verification passed: " ++ target ++ " is visible")).

(** Scroll to an element or in a direction *)
Definition executeScroll (action : JsValue) : M unit :=
  (* logger.info(`Scrolling: ${action.target}`) *)
  str (prop action "target") ;;;
  if is_str (prop action "target") "top" then call ScrollToTop ;;; ret tt
  else if is_str (prop action "target") "bottom" then
    call ScrollToBottom ;;; ret tt
  else call (ScrollIntoView (prop action "target")) ;;; ret tt.

(** Hover over an element *)
Definition executeHover (action : JsValue) : M unit :=
  (* logger.info(`Hovering over element: ${action.target}`) *)
  str (prop action "target") ;;;
  call (Hover (prop action "target") (prop action "timeout")) ;;; ret tt.

(** Select option from dropdown *)
Definition executeSelect (action : JsValue) : M unit :=
  (* logger.info(`Selecting option: ${action.value} from ${action.target}`) *)
  str (prop action "value") ;;;
  str (prop action "target") ;;;
  call (SelectOption (prop action "target") (prop action "value")
          (prop action "timeout")) ;;;
  ret tt.

(** Update step status in database *)
Definition updateStepStatus (stepId status : string) : M unit :=
  db_update (set_step_status stepId (JStr status)).

(** Update step result in database *)
Definition updateStepResult (stepId : string) (result screenshotPath : JsValue)
  : M unit :=
  db_update
    (set_step_result stepId (prop result "status") (prop result "actualResult")
       (prop result "error") (prop result "executionTime") screenshotPath).

(** The [switch (action.type)] of [executeStep].  It yields the two locals
    it may assign: [result.actualResult] (a new value for the [verify]
    case) and [screenshotPath]. *)
Definition dispatch (sessionId stepId : string) (action type : JsValue)
  : M (option JsValue * JsValue) :=
  if is_str type NAVIGATE then executeNavigate action ;;; ret (None, JNull)
  else if is_str type CLICK then executeClick action ;;; ret (None, JNull)
  else if is_str type TYPE then executeType action ;;; ret (None, JNull)
  else if is_str type WAIT then executeWait action ;;; ret (None, JNull)
  else if is_str type VERIFY then
    actual <- executeVerify action ;; ret (Some actual, JNull)
  else if is_str type SCROLL then executeScroll action ;;; ret (None, JNull)
  else if is_str type HOVER then executeHover action ;;; ret (None, JNull)
  else if is_str type SELECT then executeSelect action ;;; ret (None, JNull)
  else if is_str type SCREENSHOT then
    shot <- takeScreenshot sessionId stepId "step" ;; ret (None, shot)
  else
    type <- str type ;;
    throw ("Unsupported action type: " ++ type).

(** Executes a single test step.  The [try] block assigns to the locals
    [result] and [screenshotPath] only in statements after which nothing
    in the block can throw, so the [catch] block starts from their initial
    values; the [finally] block is the tail of the function, since neither
    block lets an exception escape. *)
Definition executeStep (step : TestSteps.row) (sessionId : string) : M JsValue :=
  startTime <- now ;;
  let result :=
    JObj [ ("stepId", JStr (TestSteps.id step));
           ("status", JStr "pending");
           ("error", JNull);
           ("actualResult", JNull);
           ("executionTime", JNum 0) ] in
  outcome <-
    try_catch
      ((* Parse the translated action *)
       action <- lift (JSON_parse (TestSteps.translated_action step)) ;;
       (* Update step status to running *)
       updateStepStatus (TestSteps.id step) "running" ;;;
       (* Execute the action based on type *)
       type <- lift (Js.read action "type") ;;
       assigned <- dispatch sessionId (TestSteps.id step) action type ;;
       let result :=
         match fst assigned with
         | Some actual => Js.set result "actualResult" actual
         | None => result
         end in
       (* Take screenshot after successful execution *)
       screenshotPath <-
         (if negb (truthy (snd assigned))
          then takeScreenshot sessionId (TestSteps.id step) "step"
          else ret (snd assigned)) ;;
       let result := Js.set result "status" (JStr "passed") in
       let result :=
         Js.set result "actualResult"
           (Js.or (prop result "actualResult")
              (JStr "Action completed successfully")) in
       ret (result, screenshotPath))
      (fun message =>
         let result := Js.set result "status" (JStr "failed") in
         let result := Js.set result "error" (JStr message) in
         (* Take screenshot on failure *)
         screenshotPath <-
           try_catch (takeScreenshot sessionId (TestSteps.id step) "error")
             (fun _ => ret JNull) ;;
         ret (result, screenshotPath)) ;;
  endTime <- now ;;
  let result :=
    Js.set (fst outcome) "executionTime" (JNum (endTime - startTime)) in
  (* Update step in database *)
  updateStepResult (TestSteps.id step) result (snd outcome) ;;;
  ret result.

(** Get browser instance based on type *)
Definition getBrowser (browserType : string) : BrowserKind :=
  let t := Str.toLowerCase browserType in
  if t =? "firefox" then Firefox
  else if (t =? "webkit") || (t =? "safari") then Webkit
  else Chromium.

(** The [for (const step of steps)] loop of [executeTest]; [results] is
    the array built so far. *)
Fixpoint executeSteps (sessionId : string) (steps : list TestSteps.row)
    (results : list JsValue) : M (list JsValue) :=
  match steps with
  | [] => ret results
  | step :: rest =>
      result <- executeStep step sessionId ;;
      let results := (results ++ [result])%list in
      (* Stop execution if a critical step fails *)
      if is_str (prop result "status") "failed" && truthy (prop result "critical")
      then ret results
      else executeSteps sessionId rest results
  end.

(** The [finally] block: closes what was opened, page first. *)
Definition cleanup (opened : nat) : M unit :=
  (if (3 <=? opened)%nat then call PageClose ;;; ret tt else ret tt) ;;;
  (if (2 <=? opened)%nat then call ContextClose ;;; ret tt else ret tt) ;;;
  (if (1 <=? opened)%nat then call BrowserClose ;;; ret tt else ret tt).

(** Executes a complete test session.  [opened] counts the locals among
    [browser], [context], [page] that were assigned when the [try] block
    ended; the [catch] block rethrows. *)
Definition executeTest (sessionId : string) (steps : list TestSteps.row)
  : M (list JsValue) :=
  fun w =>
    let browserType := or_else BROWSER_TYPE "chromium" in
    let headless :=
      match HEADLESS with
      | Some v => negb (v =? "false")
      | None => true
      end in
    let '(opened, r, w1) :=
      match call (Launch (getBrowser browserType) headless) w with
      | (Throw e, w1) => (0%nat, Throw e, w1)
      | (Ok _, w1) =>
          match call NewContext w1 with
          | (Throw e, w2) => (1%nat, Throw e, w2)
          | (Ok _, w2) =>
              match call NewPage w2 with
              | (Throw e, w3) => (2%nat, Throw e, w3)
              | (Ok _, w3) =>
                  let (r, w4) := executeSteps sessionId steps [] w3 in
                  (3%nat, r, w4)
              end
          end
      end in
    match cleanup opened w1 with
    | (Throw e, w2) => (Throw e, w2)
    | (Ok _, w2) => (r, w2)
    end.

End Executor.

(** ** The routes of the test sessions *)
Section Routes.
Context `{External}.

Record Response : Type := {
  code : Z;
  body : JsValue
}.

Definition error_response (c : Z) (message : string) : Response :=
  {| code := c; body := JObj [("error", JStr message)] |}.

(** The loop of [/create] over [commands]; [i] is the index of the first
    of them and [steps] the array built so far. *)
Fixpoint translate_commands (sessionId targetUrl : string) (i : Z)
    (commands : list string) (steps : list JsValue) : M (list JsValue) :=
  match commands with
  | [] => ret steps
  | command :: rest =>
      stepId <- uuid ;;
      entry <-
        try_catch
          (translatedAction <- translateCommand command targetUrl ;;
           db_run (insert_step stepId sessionId (i + 1) command
                     (JSON_stringify translatedAction)
                     (prop translatedAction "type")
                     (prop translatedAction "target")) ;;;
           ret (JObj [ ("id", JStr stepId);
                       ("stepNumber", JNum (i + 1));
                       ("originalCommand", JStr command);
                       ("translatedAction", translatedAction);
                       ("status", JStr "pending") ]))
          (fun message =>
             ret (JObj [ ("id", JStr stepId);
                         ("stepNumber", JNum (i + 1));
                         ("originalCommand", JStr command);
                         ("status", JStr "failed");
                         ("error", JStr message) ])) ;;
      translate_commands sessionId targetUrl (i + 1) rest (steps ++ [entry])%list
  end.

(** [POST /create], on a body that passed [createTestSchema]: a [name],
    an optional [description], at least one command, a [targetUrl]. *)
Definition create (name : string) (description : JsValue)
    (commands : list string) (targetUrl : string) : M Response :=
  try_catch
    (sessionId <- uuid ;;
     (* Create test session *)
     db_run (insert_session sessionId name description
               (Z.of_nat (List.length commands))) ;;;
     (* Translate commands and create test steps *)
     steps <- translate_commands sessionId targetUrl 0 commands [] ;;
     ret {| code := 200;
            body := JObj [ ("sessionId", JStr sessionId);
                           ("name", JStr name);
                           ("description", description);
                           ("targetUrl", JStr targetUrl);
                           ("steps", JArr steps);
                           ("status", JStr "created") ] |})
    (fun _ => ret (error_response 500 "Failed to create test session")).

(** [results.filter(r => r.status === s).length] *)
Definition count_status (s : string) (results : list JsValue) : Z :=
  Z.of_nat (List.length (filter (fun r => is_str (prop r "status") s) results)).

(** [POST /execute/:sessionId] *)
Definition execute (sessionId : string) : M Response :=
  try_catch
    ((* Get test session and steps *)
     session <- db_read (select_session sessionId) ;;
     match session with
     | None => ret (error_response 404 "Test session not found")
     | Some _ =>
         steps <- db_read (select_steps sessionId) ;;
         (* Update session status to running *)
         db_update (set_session_status sessionId "running") ;;;
         (* Execute test steps *)
         results <- executeTest sessionId steps ;;
         (* Update session with final results *)
         let passedSteps := count_status "passed" results in
         let failedSteps := count_status "failed" results in
         let finalStatus := if (0 <? failedSteps)%Z then "failed" else "passed" in
         db_update (set_session_result sessionId finalStatus
                      passedSteps failedSteps) ;;;
         ret {| code := 200;
                body :=
                  JObj [ ("sessionId", JStr sessionId);
                         ("status", JStr finalStatus);
                         ("results", JArr results);
                         ("summary",
                           JObj [ ("total", JNum (Z.of_nat (List.length steps)));
                                  ("passed", JNum passedSteps);
                                  ("failed", JNum failedSteps) ]) ] |}
     end)
    (fun _ => ret (error_response 500 "Failed to execute test session")).

(** [DELETE /:sessionId] *)
Definition delete (sessionId : string) : M Response :=
  try_catch
    ((* Delete steps first (foreign key constraint) *)
     db_update (delete_steps sessionId) ;;;
     (* Delete session *)
     db_run (delete_session sessionId) ;;;
     ret {| code := 200;
            body := JObj [("message", JStr "Test session deleted successfully")] |})
    (fun _ => ret (error_response 500 "Failed to delete test session")).

End Routes.

(** ** Measures read off a world *)

(** The number of calls to [page.screenshot] in a log. *)
Fixpoint count_shots (calls : list Call) : nat :=
  match calls with
  | [] => 0
  | Screenshot _ :: rest => S (count_shots rest)
  | _ :: rest => count_shots rest
  end.

Definition is_capture (c : Call) : bool :=
  match c with
  | Screenshot _ => true
  | _ => false
  end.

(** A computation preserves a relation between a world and a later one when
    every run of it ends in a world related to the one it started in. *)
Definition preserves `{External} (R : World -> World -> Prop) {A : Type}
    (m : M A) : Prop :=
  forall w, R w (snd (m w)).

Definition same_db `{External} (w w' : World) : Prop := db w' = db w.

Definition same_shots `{External} (w w' : World) : Prop :=
  count_shots (trace w') = count_shots (trace w).

(** The probe of a candidate selector in [executeClick] and [executeType]. *)
Definition probe (selector : string) : Call :=
  WaitForSelector (JStr selector) (JNum 5000).

(** A call that is rejected, respectively resolved, in every state of the
    outside. *)
Definition rejects `{External} (c : Call) : Prop :=
  forall e, exists message e', perform c e = (Rejected message, e').

Definition resolves `{External} (c : Call) : Prop :=
  forall e, exists v e', perform c e = (Resolved v, e').

(** The call that [takeScreenshot] makes in a world. *)
Definition capture_call `{External} (sessionId stepId type : string) (w : World)
  : Call :=
  Screenshot
    (path_join screenshotsDir
       (sessionId ++ "_" ++ stepId ++ "_" ++ type ++ "_"
        ++ Str.replace_colon_dot (Date_toISOString (ext w)) ++ ".png")).

(** What [takeScreenshot] returns for a settled capture. *)
Definition capture_result `{External} (sessionId stepId type : string)
    (w : World) (o : Outcome) : JsValue :=
  match o with
  | Resolved _ =>
      JStr ("/screenshots/"
            ++ (sessionId ++ "_" ++ stepId ++ "_" ++ type ++ "_"
                ++ Str.replace_colon_dot (Date_toISOString (ext w)) ++ ".png"))
  | Rejected _ => JNull
  end.

(** The part of the [try] block of [executeStep] that precedes the capture:
    parsing the stored action, marking the step as running, and the switch. *)
Definition action_phase `{External} (step : TestSteps.row) (sessionId : string)
  : M (option JsValue * JsValue) :=
  action <- lift (JSON_parse (TestSteps.translated_action step)) ;;
  updateStepStatus (TestSteps.id step) "running" ;;;
  type <- lift (Js.read action "type") ;;
  dispatch sessionId (TestSteps.id step) action type.

(** The stored action of the step is an explicit screenshot. *)
Definition explicit_capture (step : TestSteps.row) : bool :=
  match JSON_parse (TestSteps.translated_action step) with
  | Ok action =>
      match Js.read action "type" with
      | Ok type => is_str type NlpService.SCREENSHOT
      | Throw _ => false
      end
  | Throw _ => false
  end.

(** The first call of [executeTest]. *)
Definition launch_call `{External} : Call :=
  Launch (getBrowser (NlpService.or_else BROWSER_TYPE "chromium"))
    (match HEADLESS with
     | Some v => negb (v =? "false")
     | None => true
     end).

(** The value that a computation returned, or [d] when it threw. *)
Definition value_or {A : Type} (d : A) (r : Result A) : A :=
  match r with
  | Ok a => a
  | Throw _ => d
  end.

(** The items of an array. *)
Definition array_items (v : JsValue) : list JsValue :=
  match v with
  | JArr items => items
  | _ => []
  end.

(** A result object whose status is final. *)
Definition final_status (r : JsValue) : Prop :=
  prop r "status" = JStr "passed" \/ prop r "status" = JStr "failed".

(** A row whose status is final. *)
Definition step_settled (r : TestSteps.row) : Prop :=
  TestSteps.status r = JStr "passed" \/ TestSteps.status r = JStr "failed".

(** [executed ids s s']: the store [s'] is [s] after the steps [ids] were
    executed.  The sessions are the same; the rows of the steps are the same
    up to the columns that an execution writes; a status is either kept or
    final, and it is final for the steps executed. *)
Definition executed (ids : list string) (s s' : Store) : Prop :=
  test_sessions s' = test_sessions s /\
  exists f,
    test_steps s' = map f (test_steps s) /\
    forall r,
      TestSteps.id (f r) = TestSteps.id r /\
      TestSteps.session_id (f r) = TestSteps.session_id r /\
      (TestSteps.status (f r) = TestSteps.status r \/ step_settled (f r)) /\
      (In (TestSteps.id r) ids -> step_settled (f r)).

(** A world whose log extends that of an earlier one. *)
Definition extends `{External} (w w' : World) : Prop :=
  exists calls, trace w' = (trace w ++ calls)%list.

(** [id TEXT PRIMARY KEY], in both tables. *)
Definition primary_keys_hold (s : Store) : Prop :=
  NoDup (map TestSessions.id (test_sessions s)) /\
  NoDup (map TestSteps.id (test_steps s)).

(** No character of [s] is white space. *)
Fixpoint space_free (s : string) : bool :=
  match s with
  | EmptyString => true
  | String c s' => negb (Str.is_space c) && space_free s'
  end.

(** A candidate on which click or type cannot succeed: it does not resolve,
    or it resolves and the action on it is rejected. *)
Definition fails_on `{External} (action_call : string -> Call) (x : string)
  : Prop :=
  rejects (probe x) \/ (resolves (probe x) /\ rejects (action_call x)).

(** The rows of [test_steps] that belong to a session. *)
Definition steps_of (sessionId : string) (s : Store) : list TestSteps.row :=
  filter (fun r => TestSteps.session_id r =? sessionId) (test_steps s).

(** The number of them that have a given status. *)
Definition steps_with_status (st sessionId : string) (s : Store) : Z :=
  Z.of_nat (List.length
              (filter (fun r => is_str (TestSteps.status r) st)
                 (steps_of sessionId s))).

(** [FOREIGN KEY (session_id) REFERENCES test_sessions (id)] *)
Definition foreign_keys_hold (s : Store) : Prop :=
  forall r, In r (test_steps s) ->
    existsb (fun x => TestSessions.id x =? TestSteps.session_id r)
      (test_sessions s) = true.

(** No character of [s] is a quote character. *)
Fixpoint quote_free (s : string) : bool :=
  match s with
  | EmptyString => true
  | String c s' => negb (Str.is_quote c) && quote_free s'
  end.

Definition keys_hold (s : Store) : Prop :=
  foreign_keys_hold s /\ primary_keys_hold s.

(** The number and the command of a row, and of an entry of the answer of
    the create route. *)
Definition row_label (r : TestSteps.row) : JsValue * JsValue :=
  (JNum (TestSteps.step_number r), JStr (TestSteps.original_command r)).

Definition entry_label (e : JsValue) : JsValue * JsValue :=
  (prop e "stepNumber", prop e "originalCommand").

(** The labels of the commands of a list, numbered from [i + 1]. *)
Fixpoint labels_from (i : Z) (commands : list string) : list (JsValue * JsValue) :=
  match commands with
  | [] => []
  | command :: rest => (JNum (i + 1), JStr command) :: labels_from (i + 1) rest
  end.

(** The browser call of an action of one of the kinds that make a single
    call: navigate, wait, scroll, hover and select.  The call is made after
    the fields that the function writes to the log, or parses, were
    converted to text; [Throw] is the error of such a conversion, after
    which no call is made. *)
Definition single_call (action : JsValue) : option (Result Call) :=
  let type := prop action "type" in
  let target := prop action "target" in
  let value := prop action "value" in
  let timeout := prop action "timeout" in
  if is_str type NlpService.NAVIGATE then
    Some (and_then (to_string (Js.or value target))
            (fun _ => Ok (Goto (Js.or value target) timeout)))
  else if is_str type NlpService.WAIT then
    if is_str target "time" || negb (truthy target)
    then Some (and_then (to_string value)
                 (fun text =>
                    Ok (WaitForTimeout (Js.or (parseInt text) (JNum 1000)))))
    else Some (and_then (to_string target)
                 (fun _ => Ok (WaitForSelector target timeout)))
  else if is_str type NlpService.SCROLL then
    Some (and_then (to_string target)
            (fun _ =>
               Ok (if is_str target "top" then ScrollToTop
                   else if is_str target "bottom" then ScrollToBottom
                   else ScrollIntoView target)))
  else if is_str type NlpService.HOVER then
    Some (and_then (to_string target) (fun _ => Ok (Hover target timeout)))
  else if is_str type NlpService.SELECT then
    Some (and_then (to_string value)
            (fun _ => and_then (to_string target)
                        (fun _ => Ok (SelectOption target value timeout))))
  else None.





(** The calls made on the page: all but those that open or close the
    browser, its context and the page. *)
Definition page_call (c : Call) : bool :=
  match c with
  | Launch _ _ | NewContext | NewPage
  | PageClose | ContextClose | BrowserClose => false
  | _ => true
  end.

(** A computation that makes calls on the page only. *)
Definition page_only `{External} {A : Type} (m : M A) : Prop :=
  forall w, exists calls,
    trace (snd (m w)) = (trace w ++ calls)%list /\
    forallb page_call calls = true.

(** The calls that [executeTest] makes besides those of the steps. *)
Definition lifecycle `{External} : list Call :=
  [launch_call; NewContext; NewPage; PageClose; ContextClose; BrowserClose].

(** No quoted text starts in [pre] when a quote character follows [pre]:
    every quote character of [pre] is its last character or is directly
    followed by another quote character. *)
Fixpoint quotes_adjacent (pre : string) : bool :=
  match pre with
  | EmptyString => true
  | String c rest =>
      (negb (Str.is_quote c)
       || match rest with
          | EmptyString => true
          | String d _ => Str.is_quote d
          end)
      && quotes_adjacent rest
  end.

(** ** A concrete outside world

    A page described by a few tables, used to run the code on examples:
    which selectors exist, which URLs load, the title of the page, whether
    captures succeed and what the language model answers.  The state of the
    outside is a counter, read by the clock and the id generator. *)
Module Demo.

Record Page : Type := {
  exists_selector : string -> bool;
  loads : string -> bool;
  title : string;
  captures : bool;
  model : string -> Completion
}.

Definition settle (ok : bool) (v : JsValue) (message : string) : Outcome :=
  if ok then Resolved v else Rejected message.

Definition answer (p : Page) (c : Call) : Outcome :=
  match c with
  | Goto (JStr url) _ => settle (loads p url) JNull ("net::ERR_NAME_NOT_RESOLVED at " ++ url)
  | Goto _ _ => Rejected "url: expected string"
  | WaitForSelector (JStr s) _ => settle (exists_selector p s) JNull "Timeout exceeded"
  | WaitForSelector _ _ => Rejected "selector: expected string"
  | Click s _ => settle (exists_selector p s) JUndefined "Timeout exceeded"
  | Fill s _ => settle (exists_selector p s) JUndefined "Timeout exceeded"
  | Title => Resolved (JStr (title p))
  | IsVisible (JStr s) => Resolved (JBool (exists_selector p s))
  | IsVisible _ => Rejected "selector: expected string"
  | TextContent _ => Resolved (JStr (title p))
  | Screenshot _ => settle (captures p) JUndefined "Target closed"
  | _ => Resolved JUndefined
  end.

Definition world (p : Page) : External :=
  {| Ext := Z;
     perform := fun c e => (answer p c, (e + 1)%Z);
     complete := fun command _ e => (model p command, e);
     uuidv4 := fun e => ("id-" ++ Str.of_Z e, (e + 1)%Z);
     Date_now := fun e => e;
     Date_toISOString := fun _ => "2024-01-01T00:00:00.000Z";
     BROWSER_TYPE := None;
     HEADLESS := None |}.

(** example.com: the page of the literals of the specification. *)
Definition example_page : Page :=
  {| exists_selector := fun s => s =? "#b";
     loads := fun url => url =? "https://example.com";
     title := "Example Domain";
     captures := true;
     model := fun _ => ApiError "API Error" |}.

Definition empty_store : Store := {| test_sessions := []; test_steps := [] |}.

Definition start (p : Page) (s : Store) : @World (world p) :=
  @Build_World (world p) 0%Z [] s.

Definition action (type target value : string) : JsValue :=
  JObj [ ("type", JStr type); ("target", JStr target); ("value", JStr value);
         ("description", JStr ("Execute " ++ type ++ " action"));
         ("waitFor", JNull); ("timeout", JNum 30000) ].

Definition step (stepId sessionId : string) (number : Z) (a : JsValue)
  : TestSteps.row :=
  {| TestSteps.id := stepId;
     TestSteps.session_id := sessionId;
     TestSteps.step_number := number;
     TestSteps.original_command :=
       match prop a "description" with
       | JStr text => text
       | _ => ""
       end;
     TestSteps.translated_action := JSON_stringify a;
     TestSteps.action_type := prop a "type";
     TestSteps.target_element := prop a "target";
     TestSteps.actual_result := JNull;
     TestSteps.status := JStr "pending";
     TestSteps.screenshot_path := JNull;
     TestSteps.error_message := JNull;
     TestSteps.execution_time := JNull |}.

Definition session (sessionId status : string) (total : Z) : TestSessions.row :=
  {| TestSessions.id := sessionId;
     TestSessions.name := "demo";
     TestSessions.description := JNull;
     TestSessions.status := status;
     TestSessions.total_steps := total;
     TestSessions.passed_steps := 0;
     TestSessions.failed_steps := 0 |}.

(** The session of the critical-abort scenario: a navigation to a URL
    that does not load, then a click and a title check. *)
Definition abort_steps : list TestSteps.row :=
  [ step "st-1" "s1" 1 (action "navigate" "http://bad.invalid" "http://bad.invalid");
    step "st-2" "s1" 2 (action "click" ".a, #b, text=Foo" "");
    step "st-3" "s1" 3 (action "verify" "title" "Example") ].

Definition abort_store (status : string) : Store :=
  {| test_sessions := [session "s1" status 3]; test_steps := abort_steps |}.

Definition statuses (s : Store) : list JsValue :=
  map TestSteps.status (test_steps s).

(** The command of the fallback literal: Type, then hello between double
    quotes, then in the box. *)
Definition hello_command : string :=
  "Type " ++ String Str.dquote ("hello" ++ String Str.dquote " in the box").

(** A command with a navigation verb, a URL and a click verb. *)
Definition navigate_click_command : string :=
  "Navigate to https://example.com and click login".

(** A page like [example_page] whose language model answers [reply]. *)
Definition answering (reply : JsValue) : Page :=
  {| exists_selector := exists_selector example_page;
     loads := loads example_page;
     title := title example_page;
     captures := true;
     model := fun _ => Content (Some reply) |}.

End Demo.

(** A page on which the element [#a] exists but cannot be clicked (another
    element covers it), and [#b] exists and can. *)
Module Overlay.

Definition answer (c : Call) : Outcome :=
  match c with
  | WaitForSelector (JStr s) _ =>
      Demo.settle ((s =? "#a") || (s =? "#b")) JNull "Timeout exceeded"
  | Click s _ =>
      Demo.settle (s =? "#b") JUndefined "element intercepts pointer events"
  | _ => Demo.answer Demo.example_page c
  end.

Definition world : External :=
  {| Ext := Z;
     perform := fun c e => (answer c, (e + 1)%Z);
     complete := fun _ _ e => (ApiError "API Error", e);
     uuidv4 := fun e => ("id-" ++ Str.of_Z e, (e + 1)%Z);
     Date_now := fun e => e;
     Date_toISOString := fun _ => "2024-01-01T00:00:00.000Z";
     BROWSER_TYPE := None;
     HEADLESS := None |}.

Definition start : @World world := @Build_World world 0%Z [] Demo.empty_store.

End Overlay.

(** A machine on which the browser is not installed: the launch is
    rejected. *)
Module Offline.

Definition answer (c : Call) : Outcome :=
  match c with
  | Launch _ _ => Rejected "browserType.launch: Executable does not exist"
  | _ => Demo.answer Demo.example_page c
  end.

Definition world : External :=
  {| Ext := Z;
     perform := fun c e => (answer c, (e + 1)%Z);
     complete := fun _ _ e => (ApiError "API Error", e);
     uuidv4 := fun e => ("id-" ++ Str.of_Z e, (e + 1)%Z);
     Date_now := fun e => e;
     Date_toISOString := fun _ => "2024-01-01T00:00:00.000Z";
     BROWSER_TYPE := None;
     HEADLESS := None |}.

Definition start (s : Store) : @World world := @Build_World world 0%Z [] s.

End Offline.

(** * Properties *)

(** ** Strings *)

Lemma append_assoc (a b c : string) : (a ++ b) ++ c = a ++ (b ++ c).
Proof. induction a as [|x a IH]; simpl; [reflexivity | now rewrite IH]. Qed.

Lemma append_empty_r (a : string) : a ++ "" = a.
Proof. induction a as [|x a IH]; simpl; [reflexivity | now rewrite IH]. Qed.

Lemma prefix_append (a s : string) : prefix a (a ++ s) = true.
Proof.
  induction a as [|x a IH]; simpl.
  - now destruct s.
  - destruct (ascii_dec x x) as [_|n]; [exact IH | now elim n].
Qed.

Lemma prefix_split (a s : string) :
  prefix a s = true -> exists post, s = a ++ post.
Proof.
  revert s; induction a as [|x a IH]; intros s Hp.
  - now exists s.
  - destruct s as [|y s]; simpl in Hp; [discriminate|].
    destruct (ascii_dec x y) as [->|]; [|discriminate].
    destruct (IH _ Hp) as [post ->]. now exists post.
Qed.

Lemma includes_unfold (s sub : string) :
  Str.includes s sub =
  if prefix sub s then true
  else match s with
       | EmptyString => false
       | String _ s' => Str.includes s' sub
       end.
Proof. now destruct s. Qed.

(** [includes] is the substring relation. *)
Lemma includes_occurs (pre sub post : string) :
  Str.includes (pre ++ sub ++ post) sub = true.
Proof.
  induction pre as [|x pre IH].
  - simpl. rewrite includes_unfold, prefix_append. reflexivity.
  - rewrite includes_unfold.
    destruct (prefix sub _); [reflexivity | exact IH].
Qed.

Lemma includes_split (s sub : string) :
  Str.includes s sub = true -> exists pre post, s = pre ++ sub ++ post.
Proof.
  induction s as [|x s IH]; rewrite includes_unfold;
    destruct (prefix sub _) eqn:Hp; intros Hi.
  - destruct (prefix_split _ _ Hp) as [post ->]. now exists "", post.
  - discriminate.
  - destruct (prefix_split _ _ Hp) as [post ->]. now exists "", post.
  - destruct (IH Hi) as (pre & post & ->). now exists (String x pre), post.
Qed.

Lemma includes_iff (s sub : string) :
  Str.includes s sub = true <-> exists pre post, s = pre ++ sub ++ post.
Proof.
  split; [apply includes_split | intros (pre & post & ->); apply includes_occurs].
Qed.

Lemma includes_trans (s t u : string) :
  Str.includes s t = true -> Str.includes t u = true -> Str.includes s u = true.
Proof.
  intros (p1 & q1 & ->)%includes_split (p2 & q2 & ->)%includes_split.
  replace (p1 ++ (p2 ++ u ++ q2) ++ q1) with ((p1 ++ p2) ++ u ++ (q2 ++ q1)).
  - apply includes_occurs.
  - now rewrite !append_assoc.
Qed.

Lemma eqb_empty_false (s : string) : s <> "" -> (s =? "") = false.
Proof. intros Hs. now apply String.eqb_neq. Qed.

(** ** The quoted text of a command *)

Lemma extractQuotedText_unfold (command : string) :
  NlpService.extractQuotedText command =
  match NlpService.quoted_at command with
  | Some text => Some text
  | None =>
      match command with
      | EmptyString => None
      | String _ rest => NlpService.extractQuotedText rest
      end
  end.
Proof. now destruct command. Qed.

Lemma until_quote_run (s post : string) (q : ascii) :
  quote_free s = true -> Str.is_quote q = true ->
  NlpService.until_quote (s ++ String q post) = Some s.
Proof.
  intros Hs Hq. induction s as [|c s IH]; simpl.
  - now rewrite Hq.
  - simpl in Hs. apply andb_prop in Hs as [Hc Hs].
    apply negb_true_iff in Hc. rewrite Hc, (IH Hs). reflexivity.
Qed.

(** The text between the first quote character of the command and the next
    one, when it is not empty, is what [extractQuotedText] returns. *)
Lemma extractQuotedText_first (pre s post : string) (q1 q2 : ascii) :
  quote_free pre = true -> quote_free s = true -> s <> "" ->
  Str.is_quote q1 = true -> Str.is_quote q2 = true ->
  NlpService.extractQuotedText (pre ++ String q1 (s ++ String q2 post)) = Some s.
Proof.
  intros Hpre Hs Hne H1 H2. induction pre as [|c pre IH].
  - rewrite extractQuotedText_unfold. simpl.
    rewrite H1, (until_quote_run _ _ _ Hs H2), (eqb_empty_false _ Hne).
    reflexivity.
  - simpl in Hpre. apply andb_prop in Hpre as [Hc Hpre].
    apply negb_true_iff in Hc.
    rewrite extractQuotedText_unfold. simpl. rewrite Hc. exact (IH Hpre).
Qed.

Lemma extractQuotedText_nonempty (command text : string) :
  NlpService.extractQuotedText command = Some text -> text <> "".
Proof.
  induction command as [|c command IH]; rewrite extractQuotedText_unfold.
  - discriminate.
  - destruct (NlpService.quoted_at (String c command)) as [t|] eqn:Hq.
    + intros [= <-]. unfold NlpService.quoted_at in Hq.
      destruct (Str.is_quote c); [|discriminate].
      destruct (NlpService.until_quote command) as [run|]; [|discriminate].
      destruct (run =? "") eqn:He; [discriminate|].
      injection Hq as <-. now apply String.eqb_neq.
    + exact IH.
Qed.

(** The leftmost text between quote characters: quote characters that are
    directly followed by another one open no text. *)
Lemma extractQuotedText_leftmost (pre s post : string) (q1 q2 : ascii) :
  quotes_adjacent pre = true -> quote_free s = true -> s <> "" ->
  Str.is_quote q1 = true -> Str.is_quote q2 = true ->
  NlpService.extractQuotedText (pre ++ String q1 (s ++ String q2 post)) = Some s.
Proof.
  intros Hpre Hs Hne H1 H2. induction pre as [|c pre IH].
  - exact (extractQuotedText_first "" s post q1 q2 eq_refl Hs Hne H1 H2).
  - cbn [quotes_adjacent] in Hpre. apply andb_prop in Hpre as [Hc Hpre].
    rewrite extractQuotedText_unfold.
    replace (NlpService.quoted_at
               (String c pre ++ String q1 (s ++ String q2 post)))
      with (@None string); [exact (IH Hpre)|].
    cbn [String.append NlpService.quoted_at].
    destruct (Str.is_quote c); [|reflexivity]. cbn [negb orb] in Hc.
    destruct pre as [|d pre]; cbn [String.append NlpService.until_quote].
    + now rewrite H1.
    + now rewrite Hc.
Qed.

(** Conversely, what [extractQuotedText] returns is such a text. *)
Lemma extractQuotedText_found (command text : string) :
  NlpService.extractQuotedText command = Some text ->
  exists pre post q1 q2,
    command = pre ++ String q1 (text ++ String q2 post) /\
    quotes_adjacent pre = true /\ quote_free text = true /\ text <> "" /\
    Str.is_quote q1 = true /\ Str.is_quote q2 = true.
Proof.
  induction command as [|c command IH]; rewrite extractQuotedText_unfold;
    [discriminate|].
  destruct (NlpService.quoted_at (String c command)) as [t|] eqn:Hq.
  - intros [= <-]. cbn [NlpService.quoted_at] in Hq.
    destruct (Str.is_quote c) eqn:Hc; [|discriminate].
    destruct (NlpService.until_quote command) as [run|] eqn:Hrun;
      [|discriminate].
    destruct (run =? "") eqn:He; [discriminate|]. injection Hq as <-.
    assert (Hsound : quote_free run = true /\
                     exists q post, Str.is_quote q = true /\
                                    command = run ++ String q post).
    { clear -Hrun. revert run Hrun.
      induction command as [|d command IH]; cbn; intros run; [discriminate|].
      destruct (Str.is_quote d) eqn:Hd.
      - intros [= <-]. split; [reflexivity|]. now exists d, command.
      - destruct (NlpService.until_quote command) as [r|]; [|discriminate].
        intros [= <-]. destruct (IH r eq_refl) as (Hr & q & post & Hq & ->).
        split; [cbn; now rewrite Hd|]. now exists q, post. }
    destruct Hsound as (Hfree & q & post & Hq & ->).
    exists "", post, c, q. repeat split; auto. now apply String.eqb_neq.
  - intros Hrest. destruct (IH Hrest) as (pre & post & q1 & q2 & -> & Hp & Hrem).
    exists (String c pre), post, q1, q2. split; [reflexivity|].
    split; [|exact Hrem]. cbn [quotes_adjacent]. rewrite Hp, andb_true_r.
    cbn [NlpService.quoted_at] in Hq.
    destruct (Str.is_quote c) eqn:Hc; [|reflexivity]. cbn [negb orb].
    destruct pre as [|d pre]; [reflexivity|].
    cbn [String.append NlpService.until_quote] in Hq.
    destruct (Str.is_quote d) eqn:Hd; [reflexivity|].
    destruct Hrem as (_ & Hne' & H1 & H2). exfalso.
    (* a text would start at [c] *)
    destruct (NlpService.until_quote
                (pre ++ String q1 (text ++ String q2 post))) as [run|] eqn:Hrun.
    + cbn in Hq. discriminate.
    + clear -Hrun H1. induction pre as [|x pre IHp]; cbn in Hrun.
      * now rewrite H1 in Hrun.
      * destruct (Str.is_quote x); [discriminate|].
        destruct (NlpService.until_quote _); [discriminate | now apply IHp].
Qed.

(** ** Validation and fallback translation *)
Section TranslationFacts.
Context `{External}.
Import NlpService.

(** A supported type is one of the ten strings. *)
Lemma supported_string (v : JsValue) :
  supported v = true ->
  exists type, v = JStr type /\ In type (map snd SUPPORTED_ACTIONS).
Proof.
  unfold supported. intros (x & Hx & Hs)%existsb_exists.
  destruct v as [| | | |t| | | |]; try discriminate.
  exists t. split; [reflexivity|]. apply String.eqb_eq in Hs. now subst.
Qed.

(** What [validateAction] returns when it returns. *)
Lemma validateAction_shape (action a : JsValue) :
  validateAction action = Ok a ->
  exists type,
    prop action "type" = JStr type /\
    supported (JStr type) = true /\
    a = JObj [ ("type", JStr type);
               ("target", Js.or (prop action "target") (JStr ""));
               ("value", Js.or (prop action "value") (JStr ""));
               ("description",
                 Js.or (prop action "description")
                   (JStr ("Execute " ++ type ++ " action")));
               ("waitFor", Js.or (prop action "waitFor") JNull);
               ("timeout", Js.or (prop action "timeout") (JNum 30000)) ].
Proof.
  unfold validateAction.
  destruct (negb (truthy action) || negb (typeof action =? "object"));
    [discriminate|].
  destruct (truthy (prop action "type"));
    [|cbn [negb orb]; destruct (to_string _); discriminate].
  simpl negb at 1.
  destruct (supported (prop action "type")) eqn:Hsup;
    [|cbn [negb orb]; destruct (to_string _); discriminate].
  destruct (supported_string _ Hsup) as (type & Htype & _).
  rewrite Htype in *. cbn [negb orb to_string and_then].
  intros Hv. exists type. split; [reflexivity|]. split; [exact Hsup|].
  unfold Js.or at 3.
  destruct (truthy (prop action "description")); cbn [and_then] in Hv;
    repeat match type of Hv with
           | context [if ?c then _ else _] => destruct c
           end; congruence.
Qed.


(** C5 (confirmed).  An action of kind [type] whose [value] is absent
    ([undefined]), [null] or the empty string is rejected by
    [validateAction] with the error that names the value; when the language
    model proposed it, [translateCommand] ends with the fallback action or
    with that error, having made no browser call and no database write.
    With a non-empty string as [value] the action is accepted and keeps
    its value. *)
Theorem type_action_requires_value (props : list (string * JsValue)) :
  lookup "type" props = JStr TYPE ->
  ((lookup "value" props = JUndefined \/ lookup "value" props = JNull \/
    lookup "value" props = JStr "") ->
   validateAction (JObj props) = Throw "Type action requires a value to type" /\
   Str.includes "Type action requires a value to type" "value" = true /\
   forall command targetUrl w e,
     complete command targetUrl (ext w) = (Content (Some (JObj props)), e) ->
     fst (translateCommand command targetUrl w) =
       match getFallbackAction command with
       | Some fallbackAction => Ok fallbackAction
       | None =>
           Throw ("Failed to translate command: "
                  ++ "Type action requires a value to type")
       end /\
     trace (snd (translateCommand command targetUrl w)) = trace w /\
     db (snd (translateCommand command targetUrl w)) = db w) /\
  (forall s, s <> "" -> lookup "value" props = JStr s ->
     exists a, validateAction (JObj props) = Ok a /\
               prop a "type" = JStr TYPE /\ prop a "value" = JStr s).
Proof.
  intros Htype. split.
  - intros Hvalue.
    assert (Hv : validateAction (JObj props)
                 = Throw "Type action requires a value to type").
    { unfold validateAction, prop. rewrite Htype.
      destruct Hvalue as [Hv | [Hv | Hv]]; cbn; rewrite Hv;
        destruct (truthy (lookup "description" props)); reflexivity. }
    split; [exact Hv|]. split; [reflexivity|].
    intros command targetUrl w e Hc.
    unfold translateCommand, try_catch, bind, chat, lift, JSON_parse.
    rewrite Hc, Hv.
    destruct (getFallbackAction command); simpl; auto.
  - intros s Hs Hvalue. destruct s as [|c s]; [now elim Hs|].
    unfold validateAction, prop. rewrite Htype. cbn. rewrite Hvalue.
    destruct (truthy (lookup "description" props)); cbn;
      eexists; (split; [reflexivity|]); split; reflexivity.
Qed.




(** C4 (amended).  When the lower-cased command contains a navigation verb
    and the click verb, the fallback action is a click: the click rule is
    tried first. *)
Theorem fallback_click_before_navigate (command : string) :
  Str.includes (Str.toLowerCase command) "navigate" = true \/
  Str.includes (Str.toLowerCase command) "go to" = true ->
  Str.includes (Str.toLowerCase command) "click" = true ->
  exists a, getFallbackAction command = Some a /\ prop a "type" = JStr CLICK.
Proof.
  intros _ Hclick. unfold getFallbackAction. rewrite Hclick.
  eexists. split; reflexivity.
Qed.

(** C6 (amended).  With the language model unavailable, the command
    [Demo.hello_command] is translated to the type action on
    [input, textarea] with value hello.  In general, for a command that
    mentions type or enter and not click, the value is the leftmost
    non-empty text that stands between two quote characters, which need not
    be of the same kind (quote characters directly followed by another one
    open no text); and a type action is only ever returned with such a
    text as its value. *)
Theorem fallback_type_value :
  (forall targetUrl w message e,
     complete Demo.hello_command targetUrl (ext w) = (ApiError message, e) ->
     fst (translateCommand Demo.hello_command targetUrl w) =
     Ok (JObj [ ("type", JStr TYPE);
                ("target", JStr "input, textarea");
                ("value", JStr "hello");
                ("description",
                  JStr ("Type " ++ String Str.dquote "hello"
                        ++ String Str.dquote ""));
                ("timeout", JNum 30000) ])) /\
  (forall pre s post q1 q2,
     let command := pre ++ String q1 (s ++ String q2 post) in
     quotes_adjacent pre = true -> quote_free s = true -> s <> "" ->
     Str.is_quote q1 = true -> Str.is_quote q2 = true ->
     Str.includes (Str.toLowerCase command) "click" = false ->
     Str.includes (Str.toLowerCase command) "type" = true \/
     Str.includes (Str.toLowerCase command) "enter" = true ->
     getFallbackAction command
     = Some (JObj [ ("type", JStr TYPE);
                    ("target", JStr "input, textarea");
                    ("value", JStr s);
                    ("description",
                      JStr ("Type " ++ String Str.dquote s
                            ++ String Str.dquote ""));
                    ("timeout", JNum 30000) ])) /\
  (forall command a,
     getFallbackAction command = Some a ->
     prop a "type" = JStr TYPE ->
     exists pre s post q1 q2,
       command = pre ++ String q1 (s ++ String q2 post) /\
       quotes_adjacent pre = true /\ quote_free s = true /\ s <> "" /\
       Str.is_quote q1 = true /\ Str.is_quote q2 = true /\
       prop a "value" = JStr s /\
       prop a "target" = JStr "input, textarea").
Proof.
  split; [|split].
  - intros targetUrl w message e Hc.
    unfold translateCommand, try_catch, bind, chat. rewrite Hc. reflexivity.
  - intros pre s post q1 q2 command Hpre Hs Hne H1 H2 Hclick Hverb.
    pose proof (extractQuotedText_leftmost pre s post q1 q2 Hpre Hs Hne H1 H2)
      as Hq.
    fold command in Hq.
    unfold getFallbackAction. rewrite Hclick, Hq.
    assert (Hor : Str.includes (Str.toLowerCase command) "type"
                  || Str.includes (Str.toLowerCase command) "enter" = true).
    { destruct Hverb as [-> | ->]; [reflexivity | apply orb_true_r]. }
    rewrite Hor. unfold nonempty. rewrite (eqb_empty_false _ Hne).
    reflexivity.
  - intros command a. unfold getFallbackAction.
    destruct (Str.includes (Str.toLowerCase command) "click");
      [intros [= <-]; discriminate|].
    destruct (Str.includes (Str.toLowerCase command) "type"
              || Str.includes (Str.toLowerCase command) "enter").
    + destruct (extractQuotedText command) as [text|] eqn:Hq; cbn [nonempty].
      * destruct (text =? "") eqn:He.
        -- destruct (_ || _); [|discriminate].
           destruct (nonempty (extractUrl command)); [|discriminate].
           intros [= <-]. discriminate.
        -- intros [= <-] _.
           destruct (extractQuotedText_found command text Hq)
             as (pre & post & q1 & q2 & Hc & Hp & Hf & Hn & H1 & H2).
           exists pre, text, post, q1, q2. repeat split; auto.
      * destruct (_ || _); [|discriminate].
        destruct (nonempty (extractUrl command)); [|discriminate].
        intros [= <-]. discriminate.
    + destruct (_ || _); [|discriminate].
      destruct (nonempty (extractUrl command)); [|discriminate].
      intros [= <-]. discriminate.
Qed.

End TranslationFacts.

(** C5, at an action without a value proposed for a command that the
    fallback rules cannot translate either. *)
Lemma type_action_requires_value_witness :
  NlpService.validateAction
    (JObj [("type", JStr "type"); ("target", JStr "input")])
  = Throw "Type action requires a value to type".
Proof.
  exact (proj1 (proj1 (@type_action_requires_value
                         (Demo.world Demo.example_page)
                         [("type", JStr "type"); ("target", JStr "input")]
                         eq_refl)
                 (or_introl eq_refl))).
Defined.



(** C4: a command with a navigation verb, a URL and a click verb is
    translated to a click, not to a navigation. *)
Lemma fallback_prefers_click :
  Str.includes (Str.toLowerCase Demo.navigate_click_command) "navigate" = true /\
  Str.includes (Str.toLowerCase Demo.navigate_click_command) "click" = true /\
  NlpService.extractUrl Demo.navigate_click_command = Some "https://example.com" /\
  option_map (fun a => prop a "type")
    (NlpService.getFallbackAction Demo.navigate_click_command)
  = Some (JStr "click").
Proof. repeat split. Qed.

Lemma fallback_click_before_navigate_witness :
  exists a, NlpService.getFallbackAction Demo.navigate_click_command = Some a /\
            prop a "type" = JStr "click".
Proof.
  exact (fallback_click_before_navigate Demo.navigate_click_command
           (or_introl eq_refl) eq_refl).
Defined.

(** C6: in the command Type, then don't stop between double quotes, then
    in the box, the first quoted string is don't stop, but the value of the
    fallback action is don: the apostrophe closes the text that the double
    quote opened. *)
Lemma fallback_value_stops_at_apostrophe :
  let command :=
    "Type " ++ String Str.dquote ("don't stop" ++ String Str.dquote " in the box") in
  Str.includes (Str.toLowerCase command) "click" = false /\
  option_map (fun a => (prop a "type", prop a "value"))
    (NlpService.getFallbackAction command)
  = Some (JStr "type", JStr "don").
Proof. split; reflexivity. Qed.

(** C6, at a command with two quoted texts. *)
Lemma fallback_type_value_witness :
  NlpService.getFallbackAction "Enter 'first' and 'second'"
  = Some (JObj [ ("type", JStr "type");
                 ("target", JStr "input, textarea");
                 ("value", JStr "first");
                 ("description",
                   JStr ("Type " ++ String Str.dquote "first"
                         ++ String Str.dquote ""));
                 ("timeout", JNum 30000) ]).
Proof.
  exact (proj1 (proj2 (@fallback_type_value (Demo.world Demo.example_page)))
           "Enter " "first" " and 'second'" Str.squote Str.squote
           eq_refl eq_refl ltac:(discriminate) eq_refl eq_refl eq_refl
           (or_intror eq_refl)).
Defined.

(** ** Framing: what a computation leaves unchanged *)

Lemma count_shots_app (a b : list Call) :
  count_shots (a ++ b) = count_shots a + count_shots b.
Proof.
  induction a as [|c a IH]; simpl; [reflexivity|].
  destruct c; simpl; rewrite IH; reflexivity.
Qed.

Lemma count_shots_single (c : Call) :
  count_shots [c] = if is_capture c then 1 else 0.
Proof. now destruct c. Qed.

Section Frame.
Context `{External}.

(** [R w w'] relates a world to a later one; it is a preorder that no
    browser call other than a capture leaves. *)
Variable R : World -> World -> Prop.
Hypothesis R_refl : forall w, R w w.
Hypothesis R_trans : forall a b c, R a b -> R b c -> R a c.
Hypothesis R_call : forall c w, is_capture c = false -> R w (snd (call c w)).

Local Abbreviation preserves := (preserves R).

Lemma preserves_ret {A : Type} (a : A) : preserves (ret a).
Proof. intros w. apply R_refl. Qed.

Lemma preserves_throw {A : Type} (message : string) :
  preserves (@throw _ A message).
Proof. intros w. apply R_refl. Qed.

Lemma preserves_lift {A : Type} (r : Result A) : preserves (lift r).
Proof. intros w. apply R_refl. Qed.

Lemma preserves_bind {A B : Type} (m : M A) (k : A -> M B) :
  preserves m -> (forall a, preserves (k a)) -> preserves (bind m k).
Proof.
  intros Hm Hk w. unfold bind. specialize (Hm w).
  destruct (m w) as [[a|e] w']; simpl in *; [|exact Hm].
  eapply R_trans; [exact Hm | apply Hk].
Qed.

Lemma preserves_try_catch {A : Type} (m : M A) (handler : string -> M A) :
  preserves m -> (forall e, preserves (handler e)) ->
  preserves (try_catch m handler).
Proof.
  intros Hm Hh w. unfold try_catch. specialize (Hm w).
  destruct (m w) as [[a|e] w']; simpl in *; [exact Hm|].
  eapply R_trans; [exact Hm | apply Hh].
Qed.

Lemma preserves_call (c : Call) : is_capture c = false -> preserves (call c).
Proof. intros Hc w. now apply R_call. Qed.

Lemma preserves_if {A : Type} (b : bool) (m1 m2 : M A) :
  preserves m1 -> preserves m2 -> preserves (if b then m1 else m2).
Proof. now destruct b. Qed.

Ltac frame :=
  repeat first
    [ apply preserves_bind; [|intro]
    | apply preserves_try_catch; [|intro]
    | apply preserves_if
    | apply preserves_call; reflexivity
    | apply preserves_ret
    | apply preserves_throw
    | apply preserves_lift ].

Lemma preserves_try_selectors (act : string -> M JsValue)
    (selectors : list string) :
  (forall s, preserves (act s)) -> preserves (try_selectors act selectors).
Proof.
  intros Hact. induction selectors as [|s rest IH]; simpl.
  - apply preserves_ret.
  - apply preserves_bind.
    + frame. apply Hact.
    + intros [|]; [apply preserves_ret | exact IH].
Qed.

Lemma preserves_executeClick (action : JsValue) : preserves (executeClick action).
Proof.
  unfold executeClick. frame.
  apply preserves_try_selectors. intro. frame.
Qed.

Lemma preserves_executeType (action : JsValue) : preserves (executeType action).
Proof.
  unfold executeType. frame.
  apply preserves_try_selectors. intro. frame.
Qed.

Lemma preserves_executeVerify (action : JsValue) :
  preserves (executeVerify action).
Proof. unfold executeVerify. frame. Qed.

(** Every case of the switch but the explicit screenshot. *)
Lemma preserves_dispatch (sessionId stepId : string) (action type : JsValue) :
  is_str type NlpService.SCREENSHOT = false ->
  preserves (dispatch sessionId stepId action type).
Proof.
  intros Hs. unfold dispatch. rewrite Hs.
  unfold executeNavigate, executeWait, executeScroll, executeHover,
    executeSelect, str.
  repeat first
    [ apply preserves_executeClick
    | apply preserves_executeType
    | apply preserves_executeVerify
    | apply preserves_bind; [|intro]
    | apply preserves_if
    | apply preserves_call; reflexivity
    | apply preserves_ret
    | apply preserves_throw
    | apply preserves_lift ].
Qed.

End Frame.

(** ** Candidate selectors are parts of the target *)

Lemma includes_refl (s : string) : Str.includes s s = true.
Proof.
  replace s with ("" ++ s ++ "") at 1 by (simpl; apply append_empty_r).
  apply includes_occurs.
Qed.

Lemma trimStart_suffix (s : string) : exists pre, s = pre ++ Str.trimStart s.
Proof.
  induction s as [|c s [pre IH]]; simpl.
  - now exists "".
  - destruct (Str.is_space c).
    + exists (String c pre). simpl. now rewrite <- IH.
    + now exists "".
Qed.

Lemma trimEnd_prefix (s : string) : exists post, s = Str.trimEnd s ++ post.
Proof.
  induction s as [|c s [post IH]]; simpl.
  - now exists "".
  - destruct (Str.is_space c && (Str.trimEnd s =? "")).
    + now exists (String c s).
    + exists post. simpl. now rewrite <- IH.
Qed.

Lemma includes_trim (s : string) : Str.includes s (Str.trim s) = true.
Proof.
  unfold Str.trim.
  destruct (trimStart_suffix s) as [pre Hpre].
  destruct (trimEnd_prefix (Str.trimStart s)) as [post Hpost].
  rewrite Hpre at 1. rewrite Hpost at 1. apply includes_occurs.
Qed.

Lemma split_head (sep : ascii) (s : string) :
  exists h t post, Str.split sep s = h :: t /\ s = h ++ post.
Proof.
  induction s as [|c s (h & t & post & Hs & Heq)]; simpl.
  - now exists "", [], "".
  - destruct (Ascii.eqb c sep).
    + now exists "", (Str.split sep s), (String c s).
    + rewrite Hs. exists (String c h), t, post. simpl. now rewrite <- Heq.
Qed.

Lemma includes_split_piece (sep : ascii) (s x : string) :
  In x (Str.split sep s) -> Str.includes s x = true.
Proof.
  revert x. induction s as [|c s IH]; intros x Hx; simpl in Hx.
  - destruct Hx as [<- | []]. reflexivity.
  - destruct (Ascii.eqb c sep).
    + destruct Hx as [<- | Hx]; rewrite includes_unfold; [reflexivity|].
      rewrite (IH _ Hx). now destruct (prefix x (String c s)).
    + destruct (split_head sep s) as (h & t & post & Hs & Heq).
      rewrite Hs in Hx, IH. destruct Hx as [<- | Hx].
      * rewrite Heq. apply (includes_occurs "" (String c h) post).
      * rewrite includes_unfold. rewrite (IH x (or_intror Hx)).
        now destruct (prefix x (String c s)).
Qed.

(** Every candidate of a target is a part of the target. *)
Lemma includes_candidate (target x : string) :
  In x (map Str.trim (Str.split "," target)) -> Str.includes target x = true.
Proof.
  intros (piece & <- & Hp)%in_map_iff.
  eapply includes_trans; [apply (includes_split_piece _ _ _ Hp) | apply includes_trim].
Qed.

(** ** The selector loop of click and type *)
Section SelectorFacts.
Context `{External}.

Lemma call_settles (c : Call) (w : World) :
  call c w =
  (match fst (perform c (ext w)) with
   | Resolved v => Ok v
   | Rejected message => Throw message
   end,
   {| ext := snd (perform c (ext w)); trace := trace w ++ [c]; db := db w |}).
Proof. unfold call. now destruct (perform c (ext w)). Qed.

(** No candidate resolves: every one is probed, in order, and the loop ends
    without having returned. *)
Lemma try_selectors_none (act : string -> M JsValue) (selectors : list string)
    (w : World) :
  (forall x, In x selectors -> rejects (probe x)) ->
  exists e,
    try_selectors act selectors w =
    (Ok false,
     {| ext := e; trace := trace w ++ map probe selectors; db := db w |}).
Proof.
  unfold probe. revert w. induction selectors as [|s rest IH]; intros w Hrej.
  - simpl. exists (ext w). rewrite app_nil_r. now destruct w.
  - simpl. unfold bind, try_catch. rewrite call_settles.
    destruct (Hrej s (or_introl eq_refl) (ext w)) as (m & e' & Hp).
    rewrite Hp. simpl.
    edestruct IH as [e'' ->]; [intros x Hx; apply Hrej; now right|].
    exists e''. simpl. now rewrite <- app_assoc.
Qed.

(** The candidates before the first one that resolves are probed and
    skipped; the action is performed on that one and the loop returns. *)
Lemma try_selectors_first (action_call : string -> Call)
    (before : list string) (s : string) (after : list string) (w : World) :
  (forall x, In x before -> rejects (probe x)) ->
  resolves (probe s) -> resolves (action_call s) ->
  exists e,
    try_selectors (fun x => call (action_call x)) (before ++ s :: after) w =
    (Ok true,
     {| ext := e;
        trace := trace w ++ map probe before ++ [probe s; action_call s];
        db := db w |}).
Proof.
  unfold probe. intros Hrej Hs Ha. revert w.
  induction before as [|b before IH]; intros w.
  - simpl. unfold bind, try_catch. rewrite call_settles.
    destruct (Hs (ext w)) as (v & e' & Hp). rewrite Hp. simpl.
    rewrite call_settles. simpl.
    destruct (Ha e') as (v' & e'' & Hp'). rewrite Hp'. simpl.
    exists e''. now rewrite <- app_assoc.
  - simpl. unfold bind, try_catch. rewrite call_settles.
    destruct (Hrej b (or_introl eq_refl) (ext w)) as (m & e' & Hp).
    rewrite Hp. simpl.
    edestruct IH as [e'' ->]; [intros x Hx; apply Hrej; now right|].
    exists e''. simpl. now rewrite <- app_assoc.
Qed.

End SelectorFacts.

(** ** Click and type on a list of candidates *)
Section ClickTypeFacts.
Context `{External}.

(** C8 (confirmed).  The candidates of a target are probed in the order of
    the list, each with an existence timeout of 5000 ms.  When the candidates
    before [s] do not resolve and [s] does, click (respectively type) acts on
    [s] and returns without an error, after exactly these probes and that
    one action.  When no candidate resolves, every candidate is probed and
    the function throws the error that quotes the target, in which every
    candidate occurs. *)
Theorem selector_fallback (action : JsValue) (target : string) :
  prop action "target" = JStr target ->
  let candidates := map Str.trim (Str.split "," target) in
  let no_click :=
    "Could not find clickable element with any of the selectors: " ++ target in
  let no_input :=
    "Could not find input element with any of the selectors: " ++ target in
  (forall before s after w,
     candidates = (before ++ s :: after)%list ->
     (forall x, In x before -> rejects (probe x)) ->
     resolves (probe s) ->
     (resolves (Click s (prop action "timeout")) ->
      fst (executeClick action w) = Ok tt /\
      trace (snd (executeClick action w)) =
        (trace w ++ map probe before
         ++ [probe s; Click s (prop action "timeout")])%list) /\
     (resolves (Fill s (prop action "value")) ->
      fst (executeType action w) = Ok tt /\
      trace (snd (executeType action w)) =
        (trace w ++ map probe before
         ++ [probe s; Fill s (prop action "value")])%list)) /\
  (forall w,
     (forall x, In x candidates -> rejects (probe x)) ->
     fst (executeClick action w) = Throw no_click /\
     trace (snd (executeClick action w)) = (trace w ++ map probe candidates)%list /\
     fst (executeType action w) = Throw no_input /\
     trace (snd (executeType action w)) = (trace w ++ map probe candidates)%list) /\
  (forall x, In x candidates ->
     Str.includes no_click x = true /\ Str.includes no_input x = true).
Proof.
  intros Ht candidates no_click no_input. split; [|split].
  - intros before s after w Hc Hrej Hs. split; intros Ha.
    + destruct (try_selectors_first
                  (fun x => Click x (prop action "timeout")) before s after w
                  Hrej Hs Ha) as [e He].
      cbv beta in He.
      unfold executeClick, bind, str, lift. rewrite Ht. cbn [to_string].
      simpl selectors_of.
      fold candidates. rewrite Hc. cbv beta iota. rewrite He. split; reflexivity.
    + destruct (try_selectors_first
                  (fun x => Fill x (prop action "value")) before s after w
                  Hrej Hs Ha) as [e He].
      cbv beta in He.
      unfold executeType, bind, str, lift. rewrite Ht. cbn [to_string].
      simpl selectors_of.
      fold candidates. rewrite Hc. cbv beta iota. rewrite He. split; reflexivity.
  - intros w Hrej.
    destruct (try_selectors_none
                (fun x => call (Click x (prop action "timeout"))) candidates w
                Hrej) as [e He].
    destruct (try_selectors_none
                (fun x => call (Fill x (prop action "value"))) candidates w
                Hrej) as [e' He'].
    unfold executeClick, executeType, bind, str, lift. rewrite Ht.
    cbn [to_string]. simpl selectors_of.
    fold candidates. cbv beta iota. rewrite He, He'. simpl. auto.
  - intros x Hx. pose proof (includes_candidate target x Hx) as Hi.
    unfold no_click, no_input.
    split; (eapply includes_trans; [|exact Hi]);
      rewrite <- (append_empty_r target) at 1; apply includes_occurs.
Qed.

End ClickTypeFacts.

(** C8, at the literal of the specification: of the candidates [.a], [#b]
    and [text=Foo] only [#b] exists. *)
Lemma selector_fallback_witness :
  let w := Demo.start Demo.example_page Demo.empty_store in
  let action := Demo.action "click" ".a, #b, text=Foo" "" in
  fst (executeClick action w) = Ok tt /\
  trace (snd (executeClick action w)) =
    [ WaitForSelector (JStr ".a") (JNum 5000);
      WaitForSelector (JStr "#b") (JNum 5000);
      Click "#b" (JNum 30000) ].
Proof.
  refine (proj1 (proj1 (@selector_fallback (Demo.world Demo.example_page)
                          (Demo.action "click" ".a, #b, text=Foo" "")
                          ".a, #b, text=Foo" eq_refl)
                  [".a"] "#b" ["text=Foo"]
                  (Demo.start Demo.example_page Demo.empty_store)
                  eq_refl _ _) _).
  - intros x [<- | []] e. now exists "Timeout exceeded", (e + 1)%Z.
  - intros e. now exists JNull, (e + 1)%Z.
  - intros e. now exists JUndefined, (e + 1)%Z.
Defined.

(** ** One step *)
Section StepFacts.
Context `{External}.

(** [takeScreenshot] never throws: it makes one capture call and returns the
    served path, or [null] when the call is rejected. *)
Lemma takeScreenshot_run (sessionId stepId type : string) (w : World) :
  takeScreenshot sessionId stepId type w =
  (Ok (capture_result sessionId stepId type w
         (fst (perform (capture_call sessionId stepId type w) (ext w)))),
   {| ext := snd (perform (capture_call sessionId stepId type w) (ext w));
      trace := trace w ++ [capture_call sessionId stepId type w];
      db := db w |}).
Proof.
  unfold takeScreenshot, try_catch, bind, isoString. rewrite call_settles.
  unfold capture_call, capture_result.
  destruct (perform _ (ext w)) as [[v|m] e]; reflexivity.
Qed.

(** How [executeStep] ends, from how the part before the capture ended.
    The result object never has a [critical] property. *)
Lemma executeStep_outcome (step : TestSteps.row) (sessionId : string) (w : World) :
  exists (result shot : JsValue) (w' : World),
    executeStep step sessionId w = (Ok result, w') /\
    prop result "critical" = JUndefined /\
    match action_phase step sessionId w with
    | (Ok (actual, assigned), w1) =>
        prop result "status" = JStr "passed" /\
        prop result "error" = JNull /\
        prop result "actualResult" =
          Js.or (match actual with Some a => a | None => JNull end)
            (JStr "Action completed successfully") /\
        trace w' =
          (if truthy assigned then trace w1
           else (trace w1
                 ++ [capture_call sessionId (TestSteps.id step) "step" w1])%list)
        /\
        db w' =
          set_step_result (TestSteps.id step) (JStr "passed")
            (prop result "actualResult") JNull (prop result "executionTime")
            shot (db w1)
    | (Throw message, w1) =>
        prop result "status" = JStr "failed" /\
        prop result "error" = JStr message /\
        prop result "actualResult" = JNull /\
        trace w' =
          (trace w1
           ++ [capture_call sessionId (TestSteps.id step) "error" w1])%list /\
        db w' =
          set_step_result (TestSteps.id step) (JStr "failed") JNull
            (JStr message) (prop result "executionTime") shot (db w1)
    end.
Proof.
  unfold executeStep, action_phase.
  unfold bind, try_catch, lift, now, ret, updateStepStatus, updateStepResult,
    db_update.
  destruct (JSON_parse (TestSteps.translated_action step)) as [action|m].
  - cbv beta iota.
    destruct (Js.read action "type") as [type|m].
    + cbv beta iota.
      destruct (dispatch sessionId (TestSteps.id step) action type _)
        as [[[actual assigned]|m] w1].
      * cbn [fst snd]. destruct (truthy assigned) eqn:Ha; cbn [negb].
        -- cbv beta iota. destruct actual; do 3 eexists;
             (split; [reflexivity|]); cbn; repeat split.
        -- rewrite takeScreenshot_run. cbv beta iota.
           destruct actual; do 3 eexists;
             (split; [reflexivity|]); cbn; repeat split.
      * rewrite takeScreenshot_run. cbv beta iota.
        do 3 eexists. split; [reflexivity|]. cbn. repeat split.
    + rewrite takeScreenshot_run. cbv beta iota.
      do 3 eexists. split; [reflexivity|]. cbn. repeat split.
  - rewrite takeScreenshot_run. cbv beta iota.
    do 3 eexists. split; [reflexivity|]. cbn. repeat split.
Qed.

End StepFacts.

(** ** Title verification *)
Section VerifyFacts.
Context `{External}.
Import NlpService.

Lemma includes_quoted (a b x : string) :
  Str.includes (a ++ quoted x ++ b) x = true.
Proof.
  apply includes_iff.
  exists (a ++ String Str.dquote ""), (String Str.dquote "" ++ b).
  unfold quoted. rewrite !append_assoc. reflexivity.
Qed.

Lemma action_phase_verify_title (step : TestSteps.row) (sessionId : string)
    (action : JsValue) (v t : string) (w : World) (e : Ext) :
  TestSteps.translated_action step = Some action ->
  prop action "type" = JStr VERIFY ->
  prop action "target" = JStr "title" ->
  prop action "value" = JStr v ->
  perform Title (ext w) = (Resolved (JStr t), e) ->
  fst (action_phase step sessionId w) =
  if Str.includes t v then
    Ok (Some (JStr ("Title verification passed: " ++ quoted t
                    ++ " contains " ++ quoted v)), JNull)
  else
    Throw ("Title verification failed: " ++ quoted t
           ++ " does not contain " ++ quoted v).
Proof.
  intros Hstep Htype Htarget Hvalue Htitle.
  destruct action as [| | | | | |props| |]; try discriminate.
  unfold action_phase, bind, lift, updateStepStatus, db_update.
  rewrite Hstep. cbn [JSON_parse Js.read]. rewrite Htype.
  unfold dispatch. cbn [is_str]. cbn -[executeVerify].
  unfold executeVerify, bind, str, lift. rewrite Htarget, Hvalue.
  cbn [is_str to_string].
  cbn -[call Str.includes quoted]. rewrite call_settles. cbn [ext].
  rewrite Htitle. cbn -[Str.includes quoted].
  destruct (Str.includes t v); reflexivity.
Qed.

(** C7 (confirmed).  A step whose stored action is a verify of the title
    against the string [v], run on a page whose title is [t], passes exactly
    when [v] occurs in [t] as it is written (a substring, compared character
    by character); when it passes, its result message contains [t] and [v];
    when it fails, its error contains [t]. *)
Theorem verify_title (step : TestSteps.row) (sessionId : string)
    (action : JsValue) (v t : string) (w : World) (e : Ext) :
  TestSteps.translated_action step = Some action ->
  prop action "type" = JStr VERIFY ->
  prop action "target" = JStr "title" ->
  prop action "value" = JStr v ->
  perform Title (ext w) = (Resolved (JStr t), e) ->
  exists result,
    fst (executeStep step sessionId w) = Ok result /\
    (prop result "status" = JStr "passed" \/
     prop result "status" = JStr "failed") /\
    (prop result "status" = JStr "passed" <->
     exists pre post, t = pre ++ v ++ post) /\
    (prop result "status" = JStr "passed" ->
     exists message,
       prop result "actualResult" = JStr message /\
       Str.includes message t = true /\ Str.includes message v = true) /\
    (prop result "status" = JStr "failed" ->
     exists message,
       prop result "error" = JStr message /\ Str.includes message t = true).
Proof.
  intros Hstep Htype Htarget Hvalue Htitle.
  pose proof (action_phase_verify_title step sessionId action v t w e
                Hstep Htype Htarget Hvalue Htitle) as Hphase.
  set (passed := "Title verification passed: " ++ quoted t
                 ++ " contains " ++ quoted v) in Hphase.
  set (failed := "Title verification failed: " ++ quoted t
                 ++ " does not contain " ++ quoted v) in Hphase.
  assert (Hpt : Str.includes passed t = true) by apply includes_quoted.
  assert (Hpv : Str.includes passed v = true).
  { replace passed
      with (("Title verification passed: " ++ quoted t ++ " contains ")
            ++ quoted v ++ "")
      by (unfold passed; rewrite append_empty_r, !append_assoc; reflexivity).
    apply includes_quoted. }
  assert (Hft : Str.includes failed t = true) by apply includes_quoted.
  assert (Hor : Js.or (JStr passed) (JStr "Action completed successfully")
                = JStr passed) by reflexivity.
  clearbody passed failed.
  destruct (executeStep_outcome step sessionId w)
    as (result & shot & w' & Hrun & _ & Hcase).
  exists result. rewrite Hrun. split; [reflexivity|].
  destruct (action_phase step sessionId w) as [[[actual assigned]|m] w1];
    cbn [fst] in Hphase.
  - destruct (Str.includes t v) eqn:Hi; [|discriminate].
    injection Hphase as -> ->.
    destruct Hcase as (Hs & He & Ha & _). rewrite Hs. rewrite Hor in Ha.
    split; [now left|]. split; [|split].
    + split; [intros _; now apply includes_split | reflexivity].
    + intros _. exists passed. auto.
    + discriminate.
  - destruct (Str.includes t v) eqn:Hi; [discriminate|].
    injection Hphase as ->.
    destruct Hcase as (Hs & He & Ha & _). rewrite Hs.
    split; [now right|]. split; [|split].
    + split; [discriminate|]. intros Hsub. apply includes_iff in Hsub.
      congruence.
    + discriminate.
    + intros _. exists failed. auto.
Qed.

End VerifyFacts.

(** C7, at the literal of the specification: the title is Example Domain and
    the expected value is Example. *)
Lemma verify_title_witness :
  exists result,
    fst (executeStep (Demo.step "st-3" "s1" 3 (Demo.action "verify" "title" "Example"))
           "s1" (Demo.start Demo.example_page (Demo.abort_store "pending")))
    = Ok result /\
    prop result "status" = JStr "passed".
Proof.
  destruct (@verify_title (Demo.world Demo.example_page)
              (Demo.step "st-3" "s1" 3 (Demo.action "verify" "title" "Example"))
              "s1" (Demo.action "verify" "title" "Example")
              "Example" "Example Domain"
              (Demo.start Demo.example_page (Demo.abort_store "pending")) 1%Z
              eq_refl eq_refl eq_refl eq_refl eq_refl)
    as (result & Hrun & _ & Hiff & _).
  exists result. split; [exact Hrun|].
  apply Hiff. now exists "", " Domain".
Defined.

(** ** Captures *)
Section CaptureFacts.
Context `{External}.
Import NlpService.

Lemma same_shots_refl (w : World) : same_shots w w.
Proof. reflexivity. Qed.

Lemma same_shots_trans (a b c : World) :
  same_shots a b -> same_shots b c -> same_shots a c.
Proof. unfold same_shots. congruence. Qed.

Lemma same_shots_call (c : Call) (w : World) :
  is_capture c = false -> same_shots w (snd (call c w)).
Proof.
  intros Hc. rewrite call_settles. unfold same_shots. cbn [snd trace].
  rewrite count_shots_app, count_shots_single, Hc. apply Nat.add_0_r.
Qed.

(** Unless the step is an explicit screenshot, nothing is captured before
    the outcome of its action is known. *)
Lemma action_phase_quiet (step : TestSteps.row) (sessionId : string) (w : World) :
  explicit_capture step = false ->
  count_shots (trace (snd (action_phase step sessionId w))) = count_shots (trace w).
Proof.
  unfold explicit_capture, action_phase, bind, lift, updateStepStatus, db_update.
  destruct (JSON_parse (TestSteps.translated_action step)) as [action|m];
    [|reflexivity].
  destruct (Js.read action "type") as [type|m]; [|reflexivity].
  intros Hs.
  exact (preserves_dispatch same_shots same_shots_refl same_shots_trans
           same_shots_call sessionId (TestSteps.id step) action type Hs _).
Qed.

(** An explicit screenshot step captures once in its action, which cannot
    fail. *)
Lemma action_phase_explicit (step : TestSteps.row) (sessionId : string)
    (w : World) :
  explicit_capture step = true ->
  let c := capture_call sessionId (TestSteps.id step) "step" w in
  action_phase step sessionId w =
  (Ok (None,
       capture_result sessionId (TestSteps.id step) "step" w
         (fst (perform c (ext w)))),
   {| ext := snd (perform c (ext w));
      trace := trace w ++ [c];
      db := set_step_status (TestSteps.id step) (JStr "running") (db w) |}).
Proof.
  unfold explicit_capture, action_phase, bind, lift, updateStepStatus, db_update.
  destruct (JSON_parse (TestSteps.translated_action step)) as [action|m];
    [|discriminate].
  destruct (Js.read action "type") as [type|m]; [|discriminate].
  intros Hs. destruct type as [| | | |t| | | |]; try discriminate.
  cbn [is_str] in Hs. apply String.eqb_eq in Hs. subst t.
  unfold dispatch. cbn [is_str]. cbn -[takeScreenshot].
  unfold bind. rewrite takeScreenshot_run. reflexivity.
Qed.

(** C9 (amended).  Every executed step returns with status passed or failed,
    and it passed exactly when the part of the step before the capture (the
    parsing of the stored action and the action itself) did not throw: no
    outcome of a capture changes the status.  When the stored action is not
    an explicit screenshot, that part captures nothing and exactly one
    capture is attempted after it.  When it is an explicit screenshot, the
    step passes, and the capture after the action is attempted only when the
    explicit one failed: one capture in all when the explicit one succeeded,
    two when it did not. *)
Theorem capture_after_step (step : TestSteps.row) (sessionId : string)
    (w : World) :
  exists result w',
    executeStep step sessionId w = (Ok result, w') /\
    (prop result "status" = JStr "passed" \/
     prop result "status" = JStr "failed") /\
    (prop result "status" = JStr "passed" <->
     exists x w1, action_phase step sessionId w = (Ok x, w1)) /\
    (explicit_capture step = false ->
     count_shots (trace (snd (action_phase step sessionId w)))
     = count_shots (trace w) /\
     count_shots (trace w') = count_shots (trace w) + 1) /\
    (explicit_capture step = true ->
     prop result "status" = JStr "passed" /\
     count_shots (trace w') =
       count_shots (trace w) +
       match fst (perform (capture_call sessionId (TestSteps.id step) "step" w)
                    (ext w)) with
       | Resolved _ => 1
       | Rejected _ => 2
       end).
Proof.
  destruct (executeStep_outcome step sessionId w)
    as (result & shot & w' & Hrun & _ & Hcase).
  exists result, w'. split; [exact Hrun|].
  pose proof (action_phase_quiet step sessionId w) as Hquiet.
  pose proof (action_phase_explicit step sessionId w) as Hexp.
  destruct (action_phase step sessionId w) as [[[actual assigned]|m] w1] eqn:Hp.
  - destruct Hcase as (Hs & _ & _ & Ht & _). rewrite Hs.
    split; [now left|]. split; [split; eauto|]. split.
    + intros Hk. specialize (Hquiet Hk). cbn [snd] in Hquiet.
      split; [exact Hquiet|]. rewrite Ht.
      assert (Ha : truthy assigned = false).
      { revert Hp. unfold explicit_capture in Hk.
        unfold action_phase, bind, lift, updateStepStatus, db_update.
        destruct (JSON_parse _) as [action|]; [|discriminate].
        destruct (Js.read action "type") as [type|]; [|discriminate].
        unfold dispatch. rewrite Hk.
        repeat match goal with
               | |- context [if ?c then _ else _] => destruct c
               end;
          unfold bind, throw, ret;
          match goal with
          | |- context [match ?m ?w with _ => _ end] =>
              destruct (m w) as [[?|?] ?]
          | _ => idtac
          end; intros [= ? ? ?]; subst; reflexivity. }
      rewrite Ha, count_shots_app, Hquiet. reflexivity.
    + intros Hk. split; [reflexivity|]. rewrite Ht.
      specialize (Hexp Hk). cbv zeta in Hexp.
      injection Hexp as Hactual Hassigned Hw1. subst actual assigned w1.
      cbn [trace ext].
      destruct (fst (perform _ (ext w))) as [v|m']; cbn [capture_result truthy].
      * cbn. rewrite count_shots_app. reflexivity.
      * cbn. rewrite !count_shots_app. cbn. rewrite <- Nat.add_assoc.
        reflexivity.
  - destruct Hcase as (Hs & _ & _ & Ht & _). rewrite Hs.
    split; [now right|]. split.
    + split; [discriminate | intros (x & w2 & [=])].
    + split.
      * intros Hk. specialize (Hquiet Hk). cbn [snd] in Hquiet.
        split; [exact Hquiet|]. rewrite Ht, count_shots_app, Hquiet.
        reflexivity.
      * intros Hk. specialize (Hexp Hk). discriminate.
Qed.

End CaptureFacts.

(** C9: an explicit screenshot step whose capture succeeds makes that one
    capture and no capture after it. *)
Lemma explicit_screenshot_captures_once :
  let step := Demo.step "st-1" "s1" 1 (Demo.action "screenshot" "" "") in
  let run := executeStep step "s1" (Demo.start Demo.example_page Demo.empty_store) in
  option_map (fun r => prop r "status")
    (match fst run with Ok r => Some r | Throw _ => None end)
  = Some (JStr "passed") /\
  trace (snd run) =
    [Screenshot "./screenshots/s1_st-1_step_2024-01-01T00-00-00-000Z.png"] /\
  count_shots (trace (snd run)) = 1.
Proof. repeat split. Qed.

(** C9, at a click step: one capture, after the click. *)
Lemma capture_after_step_witness :
  let step := Demo.step "st-2" "s1" 2 (Demo.action "click" ".a, #b, text=Foo" "") in
  let w := Demo.start Demo.example_page Demo.empty_store in
  count_shots (trace (snd (executeStep step "s1" w))) = 1.
Proof.
  intros step w.
  destruct (@capture_after_step (Demo.world Demo.example_page) step "s1" w)
    as (result & w' & Hrun & _ & _ & Hplain & _).
  rewrite Hrun. exact (proj2 (Hplain eq_refl)).
Defined.

(** ** Running the steps of a session *)
Section RunFacts.
Context `{External}.

Lemma same_db_refl (w : World) : same_db w w.
Proof. reflexivity. Qed.

Lemma same_db_trans (a b c : World) : same_db a b -> same_db b c -> same_db a c.
Proof. unfold same_db. congruence. Qed.

Lemma same_db_call (c : Call) (w : World) :
  is_capture c = false -> same_db w (snd (call c w)).
Proof. intros _. now rewrite call_settles. Qed.

Lemma extends_refl (w : World) : extends w w.
Proof. exists []. now rewrite app_nil_r. Qed.

Lemma extends_trans (a b c : World) : extends a b -> extends b c -> extends a c.
Proof.
  intros [x Hx] [y Hy]. exists (x ++ y)%list. now rewrite Hy, Hx, app_assoc.
Qed.

Lemma extends_call (c : Call) (w : World) : extends w (snd (call c w)).
Proof. rewrite call_settles. now exists [c]. Qed.

(** The part of a step before the capture writes at most the running
    status of the step, and only adds to the log. *)
Lemma action_phase_frame (step : TestSteps.row) (sessionId : string) (w : World) :
  (db (snd (action_phase step sessionId w)) = db w \/
   db (snd (action_phase step sessionId w))
   = set_step_status (TestSteps.id step) (JStr "running") (db w)) /\
  extends w (snd (action_phase step sessionId w)).
Proof.
  destruct (explicit_capture step) eqn:Hk.
  - rewrite (action_phase_explicit step sessionId w Hk). cbn [snd db].
    split; [now right | now eexists].
  - revert Hk.
    unfold explicit_capture, action_phase, bind, lift, updateStepStatus,
      db_update.
    destruct (JSON_parse (TestSteps.translated_action step)) as [action|m];
      [|intros _; split; [now left | exists []; cbn; now rewrite app_nil_r]].
    destruct (Js.read action "type") as [type|m];
      [|intros _; split; [now right | exists []; cbn; now rewrite app_nil_r]].
    intros Hs. split.
    + right.
      exact (preserves_dispatch same_db same_db_refl same_db_trans same_db_call
               sessionId (TestSteps.id step) action type Hs _).
    + exact (preserves_dispatch extends extends_refl extends_trans
               (fun c w _ => extends_call c w)
               sessionId (TestSteps.id step) action type Hs _).
Qed.

Lemma executed_refl (s : Store) : executed [] s s.
Proof.
  split; [reflexivity|]. exists (fun r => r). split.
  - now rewrite map_id.
  - intros r. repeat split; auto. intros [].
Qed.

Lemma executed_trans (a b : list string) (s s' s'' : Store) :
  executed a s s' -> executed b s' s'' -> executed (a ++ b) s s''.
Proof.
  intros (Hs1 & f1 & Hm1 & Hf1) (Hs2 & f2 & Hm2 & Hf2). split; [congruence|].
  exists (fun r => f2 (f1 r)). split.
  - now rewrite Hm2, Hm1, map_map.
  - intros r. destruct (Hf1 r) as (Hi1 & Hn1 & Hk1 & Hd1).
    destruct (Hf2 (f1 r)) as (Hi2 & Hn2 & Hk2 & Hd2).
    split; [congruence|]. split; [congruence|]. split.
    + destruct Hk2 as [Hk2 | Hk2]; [|now right].
      destruct Hk1 as [Hk1 | Hk1]; [left; congruence|].
      right. unfold step_settled in *. now rewrite Hk2.
    + intros [Hin | Hin]%in_app_or.
      * destruct Hk2 as [Hk2 | Hk2]; [|exact Hk2].
        unfold step_settled in *. rewrite Hk2. now apply Hd1.
      * apply Hd2. now rewrite Hi1.
Qed.

(** Writing a final status for a step, after its running status or not. *)
Lemma executed_result (stepId : string) (st actual error time shot : JsValue)
    (s s1 : Store) :
  st = JStr "passed" \/ st = JStr "failed" ->
  s1 = s \/ s1 = set_step_status stepId (JStr "running") s ->
  executed [stepId] s (set_step_result stepId st actual error time shot s1).
Proof.
  intros Hst Hs1.
  assert (Hrow : forall r : TestSteps.row,
             (TestSteps.id r =? stepId) = false ->
             In (TestSteps.id r) [stepId] -> step_settled r).
  { intros r Hid [Heq | []]. now rewrite <- Heq, String.eqb_refl in Hid. }
  destruct Hs1 as [-> | ->]; (split; [reflexivity|]); eexists;
    unfold set_step_result, set_step_status; cbn [test_steps].
  - split; [reflexivity|]. intros r. cbv beta.
    destruct (TestSteps.id r =? stepId) eqn:Hid.
    + repeat split; [now right | intros _; exact Hst].
    + repeat split; [now left | now apply Hrow].
  - rewrite map_map. split; [reflexivity|]. intros r. cbv beta.
    destruct (TestSteps.id r =? stepId) eqn:Hid; cbn [TestSteps.id]; rewrite Hid.
    + repeat split; [now right | intros _; exact Hst].
    + repeat split; [now left | now apply Hrow].
Qed.

(** A step always returns; its result has a final status and no [critical]
    property, its row gets that status, and the log only grows. *)
Lemma executeStep_run (step : TestSteps.row) (sessionId : string) (w : World) :
  exists result w',
    executeStep step sessionId w = (Ok result, w') /\
    (prop result "status" = JStr "passed" \/
     prop result "status" = JStr "failed") /\
    prop result "critical" = JUndefined /\
    executed [TestSteps.id step] (db w) (db w') /\
    extends w w'.
Proof.
  destruct (executeStep_outcome step sessionId w)
    as (result & shot & w' & Hrun & Hcrit & Hcase).
  destruct (action_phase_frame step sessionId w) as (Hdb & Hext).
  exists result, w'. split; [exact Hrun|].
  destruct (action_phase step sessionId w) as [[[actual assigned]|m] w1];
    cbn [snd] in Hdb, Hext; destruct Hcase as (Hs & _ & _ & Ht & Hd).
  - split; [now left|]. split; [exact Hcrit|]. split.
    + rewrite Hd. apply executed_result; auto.
    + eapply extends_trans; [exact Hext|]. unfold extends. rewrite Ht.
      destruct (truthy assigned); [exists []; now rewrite app_nil_r | now eexists].
  - split; [now right|]. split; [exact Hcrit|]. split.
    + rewrite Hd. apply executed_result; auto.
    + eapply extends_trans; [exact Hext|]. unfold extends. rewrite Ht.
      now eexists.
Qed.

(** The loop over the steps never stops early: every step is executed and
    contributes one result. *)
Lemma executeSteps_run (sessionId : string) (steps : list TestSteps.row)
    (results : list JsValue) (w : World) :
  exists new w',
    executeSteps sessionId steps results w = (Ok (results ++ new)%list, w') /\
    List.length new = List.length steps /\
    Forall final_status new /\
    executed (map TestSteps.id steps) (db w) (db w') /\
    extends w w'.
Proof.
  revert results w. induction steps as [|step rest IH]; intros results w.
  - exists [], w. rewrite app_nil_r. repeat split; auto.
    + apply executed_refl.
    + apply extends_refl.
  - destruct (executeStep_run step sessionId w)
      as (result & w1 & Hrun & Hst & Hcrit & Hex & Hext).
    destruct (IH (results ++ [result])%list w1)
      as (new & w' & Hrest & Hlen & Hall & Hex' & Hext').
    exists (result :: new), w'. split; [|split; [|split; [|split]]].
    + cbn [executeSteps]. unfold bind at 1. rewrite Hrun, Hcrit.
      cbn [truthy]. rewrite andb_false_r, Hrest, <- app_assoc. reflexivity.
    + cbn. now rewrite Hlen.
    + now constructor.
    + exact (executed_trans [_] _ _ _ _ Hex Hex').
    + eapply extends_trans; eassumption.
Qed.

End RunFacts.

(** ** The session as a whole *)

Lemma insert_by_number_length (r : TestSteps.row) (l : list TestSteps.row) :
  List.length (insert_by_number r l) = S (List.length l).
Proof.
  induction l as [|x l IH]; cbn; [reflexivity|].
  destruct (_ <? _)%Z; cbn; [reflexivity | now rewrite IH].
Qed.

Lemma insert_by_number_In (r x : TestSteps.row) (l : list TestSteps.row) :
  In x (insert_by_number r l) <-> x = r \/ In x l.
Proof.
  induction l as [|y l IH]; cbn.
  - intuition.
  - destruct (_ <? _)%Z; cbn; [intuition|]. rewrite IH. intuition.
Qed.

(** [ORDER BY] keeps the rows. *)
Lemma order_by_step_number_length (l : list TestSteps.row) :
  List.length (order_by_step_number l) = List.length l.
Proof.
  unfold order_by_step_number.
  induction l as [|x l IH]; cbn [fold_right]; [reflexivity|].
  rewrite insert_by_number_length, IH. reflexivity.
Qed.

Lemma order_by_step_number_In (x : TestSteps.row) (l : list TestSteps.row) :
  In x (order_by_step_number l) <-> In x l.
Proof.
  unfold order_by_step_number.
  induction l as [|y l IH]; cbn [fold_right]; [reflexivity|].
  rewrite insert_by_number_In, IH. cbn. intuition.
Qed.

Lemma filter_map_commute {A : Type} (p : A -> bool) (f : A -> A) (l : list A) :
  (forall x, p (f x) = p x) -> filter p (map f l) = map f (filter p l).
Proof.
  intros Hp. induction l as [|x l IH]; cbn; [reflexivity|].
  rewrite Hp. destruct (p x); cbn; now rewrite IH.
Qed.

Lemma filter_none {A : Type} (p : A -> bool) (l : list A) :
  (forall x, In x l -> p x = false) -> filter p l = [].
Proof.
  induction l as [|x l IH]; cbn; intros Hp; [reflexivity|].
  rewrite (Hp x (or_introl eq_refl)). apply IH. intros y Hy. apply Hp. now right.
Qed.

(** After the steps of a session were executed, none of its rows is
    pending, and it has the rows it had. *)
Lemma executed_session (ids : list string) (sessionId : string) (s s' : Store) :
  executed ids s s' ->
  (forall r, In r (steps_of sessionId s) -> In (TestSteps.id r) ids) ->
  steps_with_status "pending" sessionId s' = 0%Z /\
  List.length (steps_of sessionId s') = List.length (steps_of sessionId s).
Proof.
  intros (_ & f & Hm & Hf) Hids. unfold steps_with_status, steps_of in *.
  rewrite Hm, filter_map_commute by (intros r; now rewrite (proj1 (proj2 (Hf r)))).
  split; [|apply length_map].
  rewrite filter_none; [reflexivity|].
  intros x (r & <- & Hr)%in_map_iff.
  destruct (proj2 (proj2 (proj2 (Hf r))) (Hids r Hr)) as [-> | ->]; reflexivity.
Qed.

Lemma count_status_final (results : list JsValue) :
  Forall final_status results ->
  (count_status "passed" results + count_status "failed" results)%Z
  = Z.of_nat (List.length results).
Proof.
  unfold count_status. induction 1 as [|r l Hr _ IH]; [reflexivity|].
  cbn [filter List.length].
  destruct Hr as [-> | ->]; cbn [is_str String.eqb Ascii.eqb Bool.eqb andb];
    cbn [List.length]; lia.
Qed.

Lemma select_session_update (sessionId : string)
    (g : TestSessions.row -> TestSessions.row) (s : Store) :
  (forall r, TestSessions.id (g r) = TestSessions.id r) ->
  select_session sessionId (update_session sessionId g s)
  = option_map g (select_session sessionId s).
Proof.
  intros Hg. unfold select_session, update_session. cbn [test_sessions].
  induction (test_sessions s) as [|r l IH]; cbn; [reflexivity|].
  destruct (TestSessions.id r =? sessionId) eqn:Hid.
  - now rewrite Hg, Hid.
  - now rewrite Hid, IH.
Qed.

Section SessionFacts.
Context `{External}.

Lemma cleanup_frame (opened : nat) (w : World) :
  db (snd (cleanup opened w)) = db w /\ extends w (snd (cleanup opened w)).
Proof.
  assert (Hframe : forall R : World -> World -> Prop,
             (forall w, R w w) ->
             (forall a b c, R a b -> R b c -> R a c) ->
             (forall c w, is_capture c = false -> R w (snd (call c w))) ->
             preserves R (cleanup opened)).
  { intros R Hr Ht Hc. unfold cleanup.
    repeat first
      [ apply (preserves_bind R Ht); [|intro]
      | apply preserves_if
      | apply (preserves_call R Hc); reflexivity
      | apply (preserves_ret R Hr) ]. }
  split.
  - exact (Hframe same_db same_db_refl same_db_trans same_db_call w).
  - exact (Hframe extends extends_refl extends_trans
             (fun c w _ => extends_call c w) w).
Qed.

(** A run of [executeTest] starts with the launch of the browser; when it
    returns, it returns one result with a final status for every step, and
    every step was executed. *)
Lemma executeTest_run (sessionId : string) (steps : list TestSteps.row)
    (w : World) :
  (exists calls,
     trace (snd (executeTest sessionId steps w))
     = (trace w ++ launch_call :: calls)%list) /\
  match fst (executeTest sessionId steps w) with
  | Ok results =>
      List.length results = List.length steps /\
      Forall final_status results /\
      executed (map TestSteps.id steps) (db w)
        (db (snd (executeTest sessionId steps w)))
  | Throw _ => True
  end.
Proof.
  unfold executeTest. fold launch_call. rewrite call_settles.
  set (w1 := {| ext := snd (perform launch_call (ext w));
                trace := trace w ++ [launch_call]; db := db w |}).
  assert (Hgrow : forall w', extends w1 w' ->
                    exists calls, trace w' = (trace w ++ launch_call :: calls)%list).
  { intros w' [calls Hc]. exists calls. rewrite Hc. unfold w1. cbn [trace].
    now rewrite <- app_assoc. }
  destruct (fst (perform launch_call (ext w))) as [v|m].
  - rewrite call_settles.
    set (w2 := {| ext := snd (perform NewContext (ext w1));
                  trace := trace w1 ++ [NewContext]; db := db w1 |}).
    assert (H12 : extends w1 w2) by now eexists.
    destruct (fst (perform NewContext (ext w1))) as [v'|m].
    + rewrite call_settles.
      set (w3 := {| ext := snd (perform NewPage (ext w2));
                    trace := trace w2 ++ [NewPage]; db := db w2 |}).
      assert (H23 : extends w2 w3) by now eexists.
      destruct (fst (perform NewPage (ext w2))) as [v''|m].
      * destruct (executeSteps_run sessionId steps [] w3)
          as (new & w4 & Hrun & Hlen & Hall & Hex & H34).
        rewrite Hrun. cbn [app].
        destruct (cleanup_frame 3 w4) as (Hdb & H45).
        destruct (cleanup 3 w4) as [[[]|m] w5]; cbn [fst snd] in *.
        -- split; [|rewrite Hdb; auto].
           apply Hgrow. eauto using extends_trans.
        -- split; [|exact I]. apply Hgrow. eauto using extends_trans.
      * destruct (cleanup_frame 2 w3) as (Hdb & H3).
        destruct (cleanup 2 w3) as [[[]|m'] w5]; cbn [fst snd] in *;
          (split; [|exact I]); apply Hgrow; eauto using extends_trans.
    + destruct (cleanup_frame 1 w2) as (Hdb & H2).
      destruct (cleanup 1 w2) as [[[]|m'] w5]; cbn [fst snd] in *;
        (split; [|exact I]); apply Hgrow; eauto using extends_trans.
  - destruct (cleanup_frame 0 w1) as (Hdb & H1).
    destruct (cleanup 0 w1) as [[[]|m'] w5]; cbn [fst snd] in *;
      (split; [|exact I]); apply Hgrow; eauto using extends_trans.
Qed.

End SessionFacts.

(** ** The calls of the steps, and the ways out of a run *)
Section PageFacts.
Context `{External}.

Lemma page_only_quiet {A : Type} (m : M A) :
  (forall w, trace (snd (m w)) = trace w) -> page_only m.
Proof. intros Hq w. exists []. now rewrite app_nil_r, Hq. Qed.

Lemma page_only_bind {A B : Type} (m : M A) (k : A -> M B) :
  page_only m -> (forall a, page_only (k a)) -> page_only (bind m k).
Proof.
  intros Hm Hk w. unfold bind. destruct (Hm w) as (c1 & H1 & P1).
  destruct (m w) as [[a|e] w1]; cbn [snd] in *.
  - destruct (Hk a w1) as (c2 & H2 & P2). exists (c1 ++ c2)%list.
    rewrite H2, H1, app_assoc, forallb_app, P1, P2. now split.
  - now exists c1.
Qed.

Lemma page_only_try_catch {A : Type} (m : M A) (handler : string -> M A) :
  page_only m -> (forall e, page_only (handler e)) ->
  page_only (try_catch m handler).
Proof.
  intros Hm Hh w. unfold try_catch. destruct (Hm w) as (c1 & H1 & P1).
  destruct (m w) as [[a|e] w1]; cbn [snd] in *.
  - now exists c1.
  - destruct (Hh e w1) as (c2 & H2 & P2). exists (c1 ++ c2)%list.
    rewrite H2, H1, app_assoc, forallb_app, P1, P2. now split.
Qed.

Lemma page_only_call (c : Call) : page_call c = true -> page_only (call c).
Proof.
  intros Hc w. exists [c]. rewrite call_settles. cbn. now rewrite Hc.
Qed.

Lemma page_only_if {A : Type} (b : bool) (m1 m2 : M A) :
  page_only m1 -> page_only m2 -> page_only (if b then m1 else m2).
Proof. now destruct b. Qed.

Ltac pages :=
  repeat first
    [ apply page_only_bind; [|intro]
    | apply page_only_try_catch; [|intro]
    | apply page_only_if
    | apply page_only_call; reflexivity
    | apply page_only_quiet; intro; reflexivity ].

Lemma page_only_try_selectors (act : string -> M JsValue)
    (selectors : list string) :
  (forall s, page_only (act s)) -> page_only (try_selectors act selectors).
Proof.
  intros Hact. induction selectors as [|s rest IH]; cbn [try_selectors].
  - pages.
  - apply page_only_bind.
    + pages. apply Hact.
    + intros [|]; [pages | exact IH].
Qed.

Lemma page_only_takeScreenshot (sessionId stepId type : string) :
  page_only (takeScreenshot sessionId stepId type).
Proof. unfold takeScreenshot. pages. Qed.

Lemma page_only_dispatch (sessionId stepId : string) (action type : JsValue) :
  page_only (dispatch sessionId stepId action type).
Proof.
  unfold dispatch, executeNavigate, executeClick, executeType, executeWait,
    executeVerify, executeScroll, executeHover, executeSelect, str.
  repeat first
    [ apply page_only_takeScreenshot
    | apply page_only_try_selectors; intro
    | apply page_only_bind; [|intro]
    | apply page_only_if
    | apply page_only_call; reflexivity
    | apply page_only_quiet; intro; reflexivity ].
Qed.

Lemma page_only_executeStep (step : TestSteps.row) (sessionId : string) :
  page_only (executeStep step sessionId).
Proof.
  unfold executeStep, updateStepStatus, updateStepResult.
  repeat first
    [ apply page_only_takeScreenshot
    | apply page_only_dispatch
    | apply page_only_bind; [|intro]
    | apply page_only_try_catch; [|intro]
    | apply page_only_if
    | apply page_only_quiet; intro; reflexivity ].
Qed.

Lemma page_only_executeSteps (sessionId : string) (steps : list TestSteps.row) :
  forall results, page_only (executeSteps sessionId steps results).
Proof.
  induction steps as [|step rest IH]; intros results; cbn [executeSteps].
  - pages.
  - apply page_only_bind; [apply page_only_executeStep|]. intros result.
    apply page_only_if; [pages | apply IH].
Qed.

(** The loop over the steps always returns, with one result per step,
    after calls on the page only; it does not write to the sessions. *)
Lemma executeSteps_pages (sessionId : string) (steps : list TestSteps.row)
    (w : World) :
  exists results calls w',
    executeSteps sessionId steps [] w = (Ok results, w') /\
    List.length results = List.length steps /\
    trace w' = (trace w ++ calls)%list /\
    forallb page_call calls = true /\
    test_sessions (db w') = test_sessions (db w).
Proof.
  destruct (executeSteps_run sessionId steps [] w)
    as (new & w' & Hrun & Hlen & _ & Hex & _).
  destruct (page_only_executeSteps sessionId steps [] w) as (calls & Ht & Hp).
  rewrite Hrun in Ht. cbn [snd] in Ht.
  exists new, calls, w'. repeat split; auto. apply Hex.
Qed.

(** The [finally] block after a run that opened the browser, the context
    and the page: the closes are made in this order, up to the first one
    that is rejected. *)
Lemma cleanup_page (w : World) :
  (resolves PageClose -> resolves ContextClose -> resolves BrowserClose ->
   fst (cleanup 3 w) = Ok tt /\
   trace (snd (cleanup 3 w))
   = (trace w ++ [PageClose; ContextClose; BrowserClose])%list) /\
  (rejects PageClose ->
   (exists message, fst (cleanup 3 w) = Throw message) /\
   trace (snd (cleanup 3 w)) = (trace w ++ [PageClose])%list) /\
  (resolves PageClose -> rejects ContextClose ->
   (exists message, fst (cleanup 3 w) = Throw message) /\
   trace (snd (cleanup 3 w)) = (trace w ++ [PageClose; ContextClose])%list) /\
  (resolves PageClose -> resolves ContextClose -> rejects BrowserClose ->
   (exists message, fst (cleanup 3 w) = Throw message) /\
   trace (snd (cleanup 3 w))
   = (trace w ++ [PageClose; ContextClose; BrowserClose])%list).
Proof.
  unfold cleanup, bind. cbn [Nat.leb]. rewrite call_settles.
  split; [|split; [|split]].
  - intros Hp Hc Hb.
    destruct (Hp (ext w)) as (v1 & e1 & H1). rewrite H1. cbn.
    rewrite call_settles. cbn. destruct (Hc e1) as (v2 & e2 & H2).
    rewrite H2. cbn. rewrite call_settles. cbn.
    destruct (Hb e2) as (v3 & e3 & H3). rewrite H3. cbn.
    now rewrite <- !app_assoc.
  - intros Hp. destruct (Hp (ext w)) as (m & e1 & H1). rewrite H1. cbn.
    split; [now exists m | reflexivity].
  - intros Hp Hc.
    destruct (Hp (ext w)) as (v1 & e1 & H1). rewrite H1. cbn.
    rewrite call_settles. cbn. destruct (Hc e1) as (m & e2 & H2).
    rewrite H2. cbn. rewrite <- !app_assoc. split; [now exists m | reflexivity].
  - intros Hp Hc Hb.
    destruct (Hp (ext w)) as (v1 & e1 & H1). rewrite H1. cbn.
    rewrite call_settles. cbn. destruct (Hc e1) as (v2 & e2 & H2).
    rewrite H2. cbn. rewrite call_settles. cbn.
    destruct (Hb e2) as (m & e3 & H3). rewrite H3. cbn.
    rewrite <- !app_assoc. split; [now exists m | reflexivity].
Qed.

(** A run in which the browser, the context and the page are opened: the
    steps are run, with calls on the page only, and then the [finally]
    block. *)
Lemma executeTest_opened (sessionId : string) (steps : list TestSteps.row)
    (w : World) :
  resolves launch_call -> resolves NewContext -> resolves NewPage ->
  exists results calls w4,
    List.length results = List.length steps /\
    forallb page_call calls = true /\
    trace w4 = (trace w ++ [launch_call; NewContext; NewPage] ++ calls)%list /\
    executeTest sessionId steps w =
    (match fst (cleanup 3 w4) with
     | Ok _ => Ok results
     | Throw e => Throw e
     end, snd (cleanup 3 w4)).
Proof.
  intros Hl Hc Hn. unfold executeTest. fold launch_call. rewrite call_settles.
  destruct (Hl (ext w)) as (v & e & Hp). rewrite Hp. cbn.
  rewrite call_settles. cbn. destruct (Hc e) as (v1 & e1 & Hp1). rewrite Hp1.
  cbn. rewrite call_settles. cbn.
  destruct (Hn e1) as (v2 & e2 & Hp2). rewrite Hp2. cbn.
  match goal with
  | |- context [executeSteps _ _ _ ?w3] =>
      destruct (executeSteps_pages sessionId steps w3)
        as (results & calls & w4 & Hrun & Hlen & Ht & Hpages & _)
  end.
  rewrite Hrun. exists results, calls, w4.
  split; [exact Hlen|]. split; [exact Hpages|]. split.
  - rewrite Ht. cbn. now rewrite <- !app_assoc.
  - now destruct (cleanup 3 w4) as [[[]|m] w5].
Qed.

(** A run that returns has opened and closed the browser, the context and
    the page: each of these calls was resolved in the state in which it was
    made. *)
Lemma executeTest_ok (sessionId : string) (steps : list TestSteps.row)
    (w : World) (results : list JsValue) :
  fst (executeTest sessionId steps w) = Ok results ->
  forall c, In c lifecycle -> exists e v e', perform c e = (Resolved v, e').
Proof.
  unfold executeTest. fold launch_call. rewrite call_settles.
  destruct (perform launch_call (ext w)) as [[v1|m1] e1] eqn:E1; cbn [fst snd];
    [|now destruct (cleanup 0 _) as [[[]|m] w5]].
  rewrite call_settles. cbn [ext].
  destruct (perform NewContext e1) as [[v2|m2] e2] eqn:E2; cbn [fst snd];
    [|now destruct (cleanup 1 _) as [[[]|m] w5]].
  rewrite call_settles. cbn [ext].
  destruct (perform NewPage e2) as [[v3|m3] e3] eqn:E3; cbn [fst snd];
    [|now destruct (cleanup 2 _) as [[[]|m] w5]].
  destruct (executeSteps sessionId steps [] _) as [r w4].
  unfold cleanup, bind. cbn [Nat.leb]. rewrite call_settles.
  destruct (perform PageClose (ext w4)) as [[v4|m4] e4] eqn:E4; cbn;
    [|discriminate].
  rewrite call_settles. cbn.
  destruct (perform ContextClose e4) as [[v5|m5] e5] eqn:E5; cbn;
    [|discriminate].
  rewrite call_settles. cbn.
  destruct (perform BrowserClose e5) as [[v6|m6] e6] eqn:E6; cbn;
    [|discriminate].
  intros _ c [<- | [<- | [<- | [<- | [<- | [<- | []]]]]]]; eauto.
Qed.

(** A run throws when one of these calls is always rejected, and returns
    when all of them are always resolved. *)
Lemma executeTest_throws (sessionId : string) (steps : list TestSteps.row)
    (w : World) (c : Call) :
  In c lifecycle -> rejects c ->
  exists message, fst (executeTest sessionId steps w) = Throw message.
Proof.
  intros Hin Hrej.
  destruct (fst (executeTest sessionId steps w)) as [results|m] eqn:Hrun;
    [|now exists m].
  destruct (executeTest_ok _ _ _ _ Hrun c Hin) as (e & v & e' & Hp).
  destruct (Hrej e) as (m & e'' & Hp'). congruence.
Qed.

Lemma executeTest_returns (sessionId : string) (steps : list TestSteps.row)
    (w : World) :
  (forall c, In c lifecycle -> resolves c) ->
  exists results, fst (executeTest sessionId steps w) = Ok results.
Proof.
  intros Hall.
  destruct (executeTest_opened sessionId steps w)
    as (results & calls & w4 & _ & _ & _ & ->);
    try (apply Hall; cbn; tauto).
  destruct (proj1 (cleanup_page w4)) as [-> _];
    try (apply Hall; cbn; tauto).
  now exists results.
Qed.

(** A run does not write to the sessions. *)
Lemma executeTest_sessions (sessionId : string) (steps : list TestSteps.row)
    (w : World) :
  test_sessions (db (snd (executeTest sessionId steps w)))
  = test_sessions (db w).
Proof.
  unfold executeTest. rewrite call_settles.
  assert (Hclean : forall k r w1,
             test_sessions (db w1) = test_sessions (db w) ->
             test_sessions
               (db (snd (match cleanup k w1 with
                         | (Throw e, w2) => (Throw e, w2)
                         | (Ok _, w2) => (r : Result (list JsValue), w2)
                         end)))
             = test_sessions (db w)).
  { intros k r w1 <-. destruct (cleanup_frame k w1) as [Hdb _].
    destruct (cleanup k w1) as [[[]|m] w2]; cbn [snd] in *; now rewrite Hdb. }
  destruct (fst (perform _ (ext w))) as [v1|m1]; [|now apply Hclean].
  rewrite call_settles. cbn [ext].
  destruct (fst (perform NewContext _)) as [v2|m2]; [|now apply Hclean].
  rewrite call_settles. cbn [ext].
  destruct (fst (perform NewPage _)) as [v3|m3]; [|now apply Hclean].
  match goal with
  | |- context [executeSteps _ _ _ ?w3] =>
      destruct (executeSteps_pages sessionId steps w3)
        as (results & calls & w4 & Hrun & _ & _ & _ & Hs)
  end.
  rewrite Hrun. apply Hclean. exact Hs.
Qed.

End PageFacts.

(** ** The execute route *)
Section ExecuteFacts.
Context `{External}.

Lemma select_session_sessions (sessionId : string) (s s' : Store) :
  test_sessions s' = test_sessions s ->
  select_session sessionId s' = select_session sessionId s.
Proof. unfold select_session. now intros ->. Qed.

(** What the execute route does for a session that exists, whatever the
    status of that session. *)
Lemma execute_run (sessionId : string) (w : World) (row : TestSessions.row) :
  select_session sessionId (db w) = Some row ->
  exists r w',
    execute sessionId w = (Ok r, w') /\
    (exists calls, trace w' = (trace w ++ launch_call :: calls)%list) /\
    (r = error_response 500 "Failed to execute test session" \/
     code r = 200%Z /\
     exists row',
       select_session sessionId (db w') = Some row' /\
       TestSessions.total_steps row' = TestSessions.total_steps row /\
       (TestSessions.status row' = "passed" \/
        TestSessions.status row' = "failed") /\
       (TestSessions.passed_steps row' + TestSessions.failed_steps row'
        + steps_with_status "pending" sessionId (db w'))%Z
       = Z.of_nat (List.length (steps_of sessionId (db w'))) /\
       List.length (steps_of sessionId (db w'))
       = List.length (steps_of sessionId (db w))).
Proof.
  intros Hsel.
  unfold execute, try_catch, bind, db_read, db_update. rewrite Hsel.
  cbv beta iota.
  set (w0 := {| ext := ext w; trace := trace w;
                db := set_session_status sessionId "running" (db w) |}).
  destruct (executeTest_run sessionId (select_steps sessionId (db w)) w0)
    as ([calls Htrace] & Hres).
  destruct (executeTest sessionId (select_steps sessionId (db w)) w0)
    as [[results|m] w1]; cbn [fst snd] in Htrace, Hres.
  - destruct Hres as (Hlen & Hall & Hex).
    do 2 eexists. split; [reflexivity|]. cbn [trace].
    split; [now exists calls|]. right. split; [reflexivity|].
    cbn [db].
    assert (Hsess : select_session sessionId (db w1)
                    = select_session sessionId (db w0))
      by (apply select_session_sessions, Hex).
    unfold w0 in Hsess. cbn [db] in Hsess. unfold set_session_status in Hsess.
    rewrite select_session_update, Hsel in Hsess by reflexivity.
    unfold set_session_result. rewrite select_session_update by reflexivity.
    rewrite Hsess. cbn [option_map]. eexists. split; [reflexivity|].
    cbn [TestSessions.total_steps TestSessions.status
           TestSessions.passed_steps TestSessions.failed_steps].
    split; [reflexivity|]. split.
    { destruct (0 <? _)%Z; auto. }
    destruct (executed_session _ sessionId _ _ Hex) as (Hpending & Hrows).
    { intros r Hr. apply in_map. unfold select_steps.
      apply order_by_step_number_In. exact Hr. }
    change (steps_with_status "pending" sessionId (update_session _ _ (db w1)))
      with (steps_with_status "pending" sessionId (db w1)).
    change (steps_of sessionId (update_session _ _ (db w1)))
      with (steps_of sessionId (db w1)).
    rewrite Hpending, Hrows, Z.add_0_r, (count_status_final _ Hall), Hlen.
    unfold select_steps. rewrite order_by_step_number_length.
    split; reflexivity.
  - do 2 eexists. split; [reflexivity|]. split; [now exists calls | now left].
Qed.

End ExecuteFacts.

(** C1 (code defect).  The session of the critical-abort scenario: the
    navigation of step 1 fails, and the steps 2 and 3 are executed all the
    same.  The result of a step has no [critical] property, so the test that
    should stop the loop is never true. *)
Theorem critical_failure_does_not_abort :
  let run :=
    executeTest "s1" Demo.abort_steps
      (Demo.start Demo.example_page (Demo.abort_store "pending")) in
  match fst run with
  | Ok results =>
      map (fun r => (prop r "status", prop r "critical")) results
  | Throw _ => []
  end
  = [ (JStr "failed", JUndefined); (JStr "passed", JUndefined);
      (JStr "passed", JUndefined) ] /\
  Demo.statuses (db (snd run)) = [JStr "failed"; JStr "passed"; JStr "passed"] /\
  trace (snd run) =
    [ Launch Chromium true; NewContext; NewPage;
      Goto (JStr "http://bad.invalid") (JNum 30000);
      Screenshot "./screenshots/s1_st-1_error_2024-01-01T00-00-00-000Z.png";
      WaitForSelector (JStr ".a") (JNum 5000);
      WaitForSelector (JStr "#b") (JNum 5000);
      Click "#b" (JNum 30000);
      Screenshot "./screenshots/s1_st-2_step_2024-01-01T00-00-00-000Z.png";
      Title;
      Screenshot "./screenshots/s1_st-3_step_2024-01-01T00-00-00-000Z.png";
      PageClose; ContextClose; BrowserClose ].
Proof. vm_compute. repeat split. Qed.

(** C2: a session that was already executed (its status is passed) is
    executed again: the route answers 200 and the browser is driven through
    the three steps. *)
Lemma execute_runs_finished_session :
  let w := Demo.start Demo.example_page (Demo.abort_store "passed") in
  select_session "s1" (db w) = Some (Demo.session "s1" "passed" 3) /\
  match fst (execute "s1" w) with
  | Ok r => code r
  | Throw _ => 0%Z
  end = 200%Z /\
  List.length (trace (snd (execute "s1" w))) = 14.
Proof. vm_compute. repeat split. Qed.

(** ** The create route *)
Section CreateFacts.
Context `{External}.

(** Translating a command touches neither the database nor the browser. *)
Lemma translateCommand_frame (command targetUrl : string) (w : World) :
  db (snd (translateCommand command targetUrl w)) = db w /\
  trace (snd (translateCommand command targetUrl w)) = trace w.
Proof.
  unfold translateCommand, try_catch, bind, chat, lift, throw, ret.
  destruct (complete command targetUrl (ext w)) as [[m|content] e]; cbn.
  - destruct (NlpService.getFallbackAction command); auto.
  - destruct (JSON_parse content) as [v|m]; cbn.
    + destruct (NlpService.validateAction v); cbn; auto.
      destruct (NlpService.getFallbackAction command); auto.
    + destruct (NlpService.getFallbackAction command); auto.
Qed.

Lemma steps_of_insert (stepId sessionId : string) (number : Z)
    (command : string) (translated : JsonText) (type target : JsValue)
    (s s' : Store) :
  insert_step stepId sessionId number command translated type target s = Ok s' ->
  test_sessions s' = test_sessions s /\
  List.length (steps_of sessionId s') = S (List.length (steps_of sessionId s)).
Proof.
  unfold insert_step. destruct (existsb _ _); [discriminate|].
  intros [= <-]. split; [reflexivity|].
  unfold steps_of. cbn [test_steps]. rewrite filter_app, length_app.
  cbn [filter TestSteps.session_id]. rewrite String.eqb_refl. cbn. lia.
Qed.

Lemma count_status_cons (st : string) (r : JsValue) (l : list JsValue) :
  count_status st (r :: l)
  = ((if is_str (prop r "status") st then 1 else 0) + count_status st l)%Z.
Proof.
  unfold count_status. cbn [filter].
  destruct (is_str (prop r "status") st); cbn [List.length]; lia.
Qed.

(** The loop of the create route gives one entry per command, pending or
    failed, and stores one row for each pending one. *)
Lemma translate_commands_run (sessionId targetUrl : string)
    (commands : list string) :
  forall (i : Z) (steps : list JsValue) (w : World),
  exists new w',
    translate_commands sessionId targetUrl i commands steps w
    = (Ok (steps ++ new)%list, w') /\
    test_sessions (db w') = test_sessions (db w) /\
    Z.of_nat (List.length (steps_of sessionId (db w')))
    = (Z.of_nat (List.length (steps_of sessionId (db w)))
       + count_status "pending" new)%Z /\
    (count_status "pending" new + count_status "failed" new)%Z
    = Z.of_nat (List.length commands).
Proof.
  induction commands as [|command rest IH]; intros i steps w.
  - exists [], w. rewrite app_nil_r. split; [reflexivity|]. split; [reflexivity|].
    unfold count_status. cbn [filter List.length]. cbn [Z.of_nat].
    split; [now rewrite Z.add_0_r | reflexivity].
  - cbn [translate_commands]. unfold bind at 1, uuid.
    destruct (uuidv4 (ext w)) as [stepId e].
    set (w0 := {| ext := e; trace := trace w; db := db w |}).
    unfold bind at 1, try_catch, bind at 1.
    destruct (translateCommand_frame command targetUrl w0) as (Hdb & _).
    destruct (translateCommand command targetUrl w0) as [[action|m] w1];
      cbn [snd] in Hdb; unfold w0 in Hdb; cbn [db] in Hdb.
    + unfold bind at 1, db_run.
      destruct (insert_step stepId sessionId (i + 1) command
                  (JSON_stringify action) (prop action "type")
                  (prop action "target") (db w1)) as [s'|m] eqn:Hins.
      * apply steps_of_insert in Hins as (Hsess & Hrows).
        cbn [ret].
        match goal with
        | |- context [translate_commands _ _ _ _ ?acc ?w2] =>
            destruct (IH (i + 1)%Z acc w2) as (new & w' & Hrun & Hs & Hn & Hc)
        end.
        rewrite Hrun. cbn [db] in Hs, Hn. rewrite Hrows, Hdb in Hn.
        rewrite Hsess, Hdb in Hs.
        eexists (_ :: new), w'. rewrite <- app_assoc. split; [reflexivity|].
        split; [exact Hs|].
        rewrite !count_status_cons.
        cbn [prop lookup is_str String.eqb Ascii.eqb Bool.eqb andb List.length].
        lia.
      * cbn [ret].
        match goal with
        | |- context [translate_commands _ _ _ _ ?acc ?w2] =>
            destruct (IH (i + 1)%Z acc w2) as (new & w' & Hrun & Hs & Hn & Hc)
        end.
        rewrite Hrun. rewrite Hdb in Hs, Hn.
        eexists (_ :: new), w'. rewrite <- app_assoc. split; [reflexivity|].
        split; [exact Hs|].
        rewrite !count_status_cons.
        cbn [prop lookup is_str String.eqb Ascii.eqb Bool.eqb andb List.length].
        lia.
    + cbn [ret].
      match goal with
      | |- context [translate_commands _ _ _ _ ?acc ?w2] =>
          destruct (IH (i + 1)%Z acc w2) as (new & w' & Hrun & Hs & Hn & Hc)
      end.
      rewrite Hrun. rewrite Hdb in Hs, Hn.
      eexists (_ :: new), w'. rewrite <- app_assoc. split; [reflexivity|].
      split; [exact Hs|].
      rewrite !count_status_cons.
      cbn [prop lookup is_str String.eqb Ascii.eqb Bool.eqb andb List.length].
        lia.
Qed.

End CreateFacts.

Section AccountingFacts.
Context `{External}.

Lemma find_app_new {A : Type} (p : A -> bool) (l : list A) (x : A) :
  existsb p l = false -> p x = true -> find p (l ++ [x]) = Some x.
Proof.
  intros Hl Hx. induction l as [|y l IH]; cbn in *.
  - now rewrite Hx.
  - apply orb_false_elim in Hl as [Hy Hl]. rewrite Hy. now apply IH.
Qed.

(** A session id that no session has is the session of no step. *)
Lemma steps_of_fresh (sessionId : string) (s : Store) :
  foreign_keys_hold s ->
  existsb (fun x => TestSessions.id x =? sessionId) (test_sessions s) = false ->
  steps_of sessionId s = [].
Proof.
  intros Hfk Hfresh. apply filter_none. intros r Hr.
  destruct (TestSteps.session_id r =? sessionId) eqn:Heq; [|reflexivity].
  apply String.eqb_eq in Heq. specialize (Hfk r Hr). rewrite Heq in Hfk.
  congruence.
Qed.

(** What the create route answers and stores. *)
Lemma create_run (name : string) (description : JsValue)
    (commands : list string) (targetUrl : string) (w : World) :
  foreign_keys_hold (db w) ->
  exists r w1,
    create name description commands targetUrl w = (Ok r, w1) /\
    (r = error_response 500 "Failed to create test session" \/
     exists sessionId steps row,
       r = {| code := 200;
              body := JObj [ ("sessionId", JStr sessionId);
                             ("name", JStr name);
                             ("description", description);
                             ("targetUrl", JStr targetUrl);
                             ("steps", JArr steps);
                             ("status", JStr "created") ] |} /\
       select_session sessionId (db w1) = Some row /\
       TestSessions.total_steps row = Z.of_nat (List.length commands) /\
       TestSessions.status row = "pending" /\
       Z.of_nat (List.length (steps_of sessionId (db w1)))
       = count_status "pending" steps /\
       (count_status "pending" steps + count_status "failed" steps)%Z
       = Z.of_nat (List.length commands)).
Proof.
  intros Hfk. unfold create, try_catch, bind at 1, uuid.
  destruct (uuidv4 (ext w)) as [sessionId e].
  unfold bind at 1, db_run, insert_session. cbn [db].
  destruct (existsb _ (test_sessions (db w))) eqn:Hfresh.
  - do 2 eexists. split; [reflexivity | now left].
  - unfold bind. cbn [ext trace].
    match goal with
    | |- context [translate_commands _ _ _ _ _ ?w0] =>
        destruct (translate_commands_run sessionId targetUrl commands 0 [] w0)
          as (new & w1 & Hrun & Hs & Hn & Hc)
    end.
    rewrite Hrun. cbn [app ret].
    do 2 eexists. split; [reflexivity|]. right.
    exists sessionId, new. eexists. split; [reflexivity|].
    cbn [db test_sessions] in Hs, Hn.
    split; [|split; [|split; [|split]]].
    + unfold select_session. rewrite Hs.
      apply find_app_new; [exact Hfresh|]. cbn. apply String.eqb_refl.
    + reflexivity.
    + reflexivity.
    + rewrite Hn.
      change (steps_of sessionId {| test_sessions := _; test_steps := test_steps (db w) |})
        with (steps_of sessionId (db w)).
      rewrite (steps_of_fresh _ _ Hfk Hfresh). cbn [List.length Z.of_nat].
      apply Z.add_0_l.
    + exact Hc.
Qed.

(** C3 (amended).  For a session created from a list of commands and then
    executed to completion, the passed and failed counters of the session
    plus the number of its rows still pending add up to the number of
    commands whose translation succeeded, that is, of the steps that were
    stored; [total_steps] is the number of commands, and exceeds that sum
    by the number of commands whose translation failed. *)
Theorem session_step_accounting (name : string) (description : JsValue)
    (commands : list string) (targetUrl sessionId : string)
    (w w1 w2 : World) (r1 r2 : Response) :
  foreign_keys_hold (db w) ->
  create name description commands targetUrl w = (Ok r1, w1) ->
  code r1 = 200%Z ->
  prop (body r1) "sessionId" = JStr sessionId ->
  execute sessionId w1 = (Ok r2, w2) ->
  code r2 = 200%Z ->
  let entries := array_items (prop (body r1) "steps") in
  exists row,
    select_session sessionId (db w2) = Some row /\
    TestSessions.total_steps row = Z.of_nat (List.length commands) /\
    (TestSessions.passed_steps row + TestSessions.failed_steps row
     + steps_with_status "pending" sessionId (db w2))%Z
    = count_status "pending" entries /\
    (count_status "pending" entries + count_status "failed" entries)%Z
    = TestSessions.total_steps row.
Proof.
  intros Hfk Hcreate Hc1 Hsid Hexec Hc2 entries.
  destruct (create_run name description commands targetUrl w Hfk)
    as (r & w1' & Hcr & Hr).
  rewrite Hcreate in Hcr. injection Hcr as <- <-.
  destruct Hr as [-> | (sid & steps & row & -> & Hsel & Htotal & _ & Hrows & Hcount)];
    [discriminate|].
  cbn in Hsid. injection Hsid as ->.
  destruct (execute_run sessionId w1 row Hsel) as (r & w2' & Hex & _ & Hr).
  rewrite Hexec in Hex. injection Hex as <- <-.
  destruct Hr as [-> | (_ & row' & Hsel' & Htotal' & _ & Hsum & Hlen)];
    [discriminate|].
  exists row'. split; [exact Hsel'|]. split; [congruence|].
  subst entries. cbn [body prop lookup array_items String.eqb Ascii.eqb Bool.eqb andb].
  split.
  - rewrite Hsum, Hlen. exact Hrows.
  - rewrite Hcount. congruence.
Qed.

End AccountingFacts.

(** C3: a single command that neither the language model nor the fallback
    rules translate.  The session is created with [total_steps] 1 and no
    stored step; after its execution the three numbers are 0. *)
Lemma untranslated_command_is_not_counted :
  let created :=
    create "t" JUndefined ["hello"] "https://example.com"
      (Demo.start Demo.example_page Demo.empty_store) in
  let executed := execute "id-0" (snd created) in
  match fst created with Ok r => prop (body r) "sessionId" | Throw _ => JNull end
  = JStr "id-0" /\
  match fst executed with Ok r => code r | Throw _ => 0%Z end = 200%Z /\
  option_map
    (fun row => (TestSessions.total_steps row, TestSessions.passed_steps row,
                 TestSessions.failed_steps row))
    (select_session "id-0" (db (snd executed)))
  = Some (1%Z, 0%Z, 0%Z) /\
  steps_with_status "pending" "id-0" (db (snd executed)) = 0%Z.
Proof. vm_compute. repeat split. Qed.

(** C3, at a session of two commands of which the fallback rules translate
    the second only. *)
Lemma session_step_accounting_witness :
  let created :=
    create "t" JUndefined ["hello"; "Click 'Go'"] "https://example.com"
      (Demo.start Demo.example_page Demo.empty_store) in
  let executed := execute "id-0" (snd created) in
  exists row,
    select_session "id-0" (db (snd executed)) = Some row /\
    TestSessions.total_steps row = 2%Z /\
    (TestSessions.passed_steps row + TestSessions.failed_steps row
     + steps_with_status "pending" "id-0" (db (snd executed)))%Z = 1%Z.
Proof.
  intros created executed.
  destruct (@session_step_accounting (Demo.world Demo.example_page)
              "t" JUndefined ["hello"; "Click 'Go'"] "https://example.com" "id-0"
              (Demo.start Demo.example_page Demo.empty_store)
              (snd created) (snd executed)
              (match fst created with Ok r => r | Throw _ => error_response 0 "" end)
              (match fst executed with Ok r => r | Throw _ => error_response 0 "" end))
    as (row & Hsel & Htotal & Hsum & _).
  - intros r [].
  - vm_compute. reflexivity.
  - reflexivity.
  - reflexivity.
  - vm_compute. reflexivity.
  - reflexivity.
  - exists row. split; [exact Hsel|]. split; [exact Htotal|]. exact Hsum.
Defined.

(** * Further properties of the code *)

(** ** Validation *)

Lemma or_idem (x d : JsValue) : Js.or (Js.or x d) d = Js.or x d.
Proof.
  unfold Js.or. destruct (truthy x) eqn:Hx; [now rewrite Hx | now destruct (truthy d)].
Qed.

Lemma validateAction_again (action a : JsValue) :
  NlpService.validateAction action = Ok a ->
  NlpService.validateAction a = Ok a.
Proof.
  intros H. destruct (validateAction_shape _ _ H) as (t & Ht & Hsup & Ha).
  destruct action as [| | | | | |props| |]; try discriminate.
  cbn [prop] in *. subst a.
  assert (Htr : truthy (JStr t) = true).
  { destruct (supported_string _ Hsup) as (t' & [= <-] & Hin).
    cbn in Hin. repeat (destruct Hin as [<- | Hin]; [reflexivity|]).
    contradiction. }
  assert (Hdesc : forall d E,
             (if truthy (Js.or d (JStr (String "E" E)))
              then Ok (Js.or d (JStr (String "E" E)))
              else Ok (JStr (String "E" E)))
             = if truthy d then Ok d else @Ok JsValue (JStr (String "E" E))).
  { intros d E. unfold Js.or. destruct (truthy d) eqn:Hd; [now rewrite Hd|].
    reflexivity. }
  revert H. unfold NlpService.validateAction.
  cbn [truthy typeof negb orb prop lookup String.eqb Ascii.eqb Bool.eqb andb].
  rewrite !or_idem, Ht, Hsup. cbn [truthy] in Htr |- *. rewrite Htr.
  cbn [negb orb to_string and_then String.append]. rewrite Hdesc.
  destruct (truthy (lookup "description" props)); cbn [and_then];
    repeat match goal with
           | |- context [if ?c then _ else _] => destruct c
           end; intros Hv; exact Hv || discriminate Hv.
Qed.

(** X1.  Validation is idempotent: an action that [validateAction] returned
    is accepted by [validateAction] and returned unchanged. *)
Theorem validateAction_idempotent (action a : JsValue) :
  NlpService.validateAction action = Ok a ->
  NlpService.validateAction a = Ok a.
Proof. apply validateAction_again. Qed.

(** The only error of a conversion to text is the [TypeError] of an object
    that cannot be converted to a primitive. *)
Lemma join_with_error {A : Type} (text : A -> Result string) (items : list A)
    (message : string) :
  join_with text items = Throw message ->
  exists e, In e items /\ text e = Throw message.
Proof.
  induction items as [|e rest IH]; cbn [join_with]; [discriminate|].
  destruct (text e) as [s|m] eqn:He; cbn [and_then].
  - destruct rest as [|e' rest']; [discriminate|].
    destruct (join_with text (e' :: rest')) as [t|m] eqn:Hrest;
      cbn [and_then]; [discriminate|].
    intros [= <-]. destruct (IH eq_refl) as (x & Hx & Hm).
    exists x. split; [now right | exact Hm].
  - intros [= <-]. exists e. split; [now left | exact He].
Qed.

(** Induction on a value, through the items of an array. *)
Lemma JsValue_items_ind (P : JsValue -> Prop) :
  (forall v, (forall items, v <> JArr items) -> P v) ->
  (forall items, Forall P items -> P (JArr items)) ->
  forall v, P v.
Proof.
  intros Hother Harr. fix IH 1.
  intros [| |b|n|t|items|props|b|]; try (apply Hother; discriminate).
  apply Harr.
  induction items as [|e rest IHrest]; constructor; [apply IH | exact IHrest].
Qed.

(** The only error of a conversion to text is the [TypeError] of an object
    that cannot be converted to a primitive. *)
Lemma to_string_error (v : JsValue) (message : string) :
  to_string v = Throw message -> message = primitive_error.
Proof.
  revert message. induction v as [v Hv | items IH] using JsValue_items_ind;
    intros message.
  - destruct v as [| |[|]|n|t|items|props|b|]; cbn [to_string];
      try discriminate.
    + now elim (Hv items).
    + destruct (has_own "toString" props); [|discriminate].
      now intros [= <-].
  - cbn [to_string]. intros (e & He & Hm)%join_with_error.
    pose proof (proj1 (Forall_forall _ _) IH e He) as IHe.
    destruct e; try discriminate Hm; exact (IHe _ Hm).
Qed.

(** X2.  The ways validation fails.  Anything that is not an object (a
    primitive, [null], [undefined]) is refused as not being an object.  An
    object or array whose type is not one of the ten supported kinds is
    refused with a message that quotes the type as text, or, when the type
    cannot be converted to text (an object with an own property toString,
    alone or in an array), with the error of the conversion.  These, with the
    three messages for a missing URL, a missing text to type and a missing
    thing to verify, are the only errors. *)
Theorem validateAction_errors (action : JsValue) :
  (truthy action = false \/ typeof action <> "object" ->
   NlpService.validateAction action = Throw "Action must be an object") /\
  (truthy action = true -> typeof action = "object" ->
   NlpService.supported (prop action "type") = false ->
   (forall type, to_string (prop action "type") = Ok type ->
      NlpService.validateAction action
      = Throw ("Invalid action type: " ++ type)) /\
   (forall message, to_string (prop action "type") = Throw message ->
      NlpService.validateAction action = Throw primitive_error)) /\
  (forall message,
     NlpService.validateAction action = Throw message ->
     In message
       [ "Action must be an object";
         primitive_error;
         "Navigate action requires a URL in value or target field";
         "Type action requires a value to type";
         "Verify action requires something to verify" ] \/
     exists type,
       to_string (prop action "type") = Ok type /\
       NlpService.supported (prop action "type") = false /\
       message = "Invalid action type: " ++ type).
Proof.
  split; [|split].
  - intros Hno. unfold NlpService.validateAction.
    destruct Hno as [-> | Hty]; [reflexivity|].
    apply String.eqb_neq in Hty. rewrite Hty. now rewrite orb_true_r.
  - intros Htr Hty Hsup. unfold NlpService.validateAction.
    rewrite Htr, Hty, Hsup. cbn [negb orb String.eqb]. rewrite orb_true_r.
    replace ("object" =? "object") with true by reflexivity. cbn [negb].
    split.
    + now intros type ->.
    + intros message Hm. rewrite Hm. cbn [and_then].
      now rewrite (to_string_error _ _ Hm).
  - intros message. unfold NlpService.validateAction.
    destruct (negb (truthy action) || negb (typeof action =? "object"));
      [intros [= <-]; left; cbn; auto|].
    destruct (negb (truthy (prop action "type"))
              || negb (NlpService.supported (prop action "type"))) eqn:Hbad.
    + destruct (to_string (prop action "type")) as [type|m] eqn:Hs;
        cbn [and_then]; intros [= <-].
      * destruct (NlpService.supported (prop action "type")) eqn:Hsup.
        -- destruct (supported_string _ Hsup) as (t & Ht & Hin).
           rewrite Ht in Hbad.
           cbn in Hin. repeat (destruct Hin as [<- | Hin]; [discriminate|]).
           contradiction.
        -- right. exists type. auto.
      * left. rewrite (to_string_error _ _ Hs). cbn. auto.
    + apply orb_false_elim in Hbad as [_ Hsup]. apply negb_false_iff in Hsup.
      destruct (supported_string _ Hsup) as (t & Ht & _).
      rewrite Ht. cbn [to_string and_then].
      destruct (truthy (prop action "description")); cbn [and_then];
        repeat match goal with
               | |- context [if ?c then _ else _] => destruct c
               end; intros [= <-]; left; cbn; auto 6.
Qed.

Lemma validateAction_errors_witness :
  NlpService.validateAction (JObj [("type", JObj [("toString", JNull)])])
  = Throw primitive_error.
Proof.
  exact (proj2 (proj1 (proj2 (validateAction_errors
                                (JObj [("type", JObj [("toString", JNull)])])))
                  eq_refl eq_refl eq_refl)
           primitive_error eq_refl).
Defined.

Lemma validateAction_idempotent_witness :
  NlpService.validateAction
    (JObj [ ("type", JStr "click"); ("target", JStr "button"); ("value", JStr "");
            ("description", JStr "Execute click action");
            ("waitFor", JNull); ("timeout", JNum 30000) ])
  = Ok (JObj [ ("type", JStr "click"); ("target", JStr "button"); ("value", JStr "");
               ("description", JStr "Execute click action");
               ("waitFor", JNull); ("timeout", JNum 30000) ]).
Proof.
  exact (validateAction_idempotent
           (JObj [("type", JStr "click"); ("target", JStr "button")]) _ eq_refl).
Defined.

(** ** Extraction of quoted text and URLs *)

Lemma until_quote_sound (s run : string) :
  NlpService.until_quote s = Some run ->
  quote_free run = true /\
  exists q post, Str.is_quote q = true /\ s = run ++ String q post.
Proof.
  revert run. induction s as [|c s IH]; cbn; intros run; [discriminate|].
  destruct (Str.is_quote c) eqn:Hc.
  - intros [= <-]. split; [reflexivity|]. now exists c, s.
  - destruct (NlpService.until_quote s) as [r|]; [|discriminate].
    intros [= <-]. destruct (IH r eq_refl) as (Hr & q & post & Hq & ->).
    split; [cbn; now rewrite Hc|]. now exists q, post.
Qed.

(** X3.  What [extractQuotedText] returns is never empty, contains no quote
    character, and stands in the command between two quote characters; a
    command without any quote character has no quoted text. *)
Theorem extractQuotedText_sound (command : string) :
  (forall text,
     NlpService.extractQuotedText command = Some text ->
     text <> "" /\ quote_free text = true /\
     exists pre post q1 q2,
       Str.is_quote q1 = true /\ Str.is_quote q2 = true /\
       command = pre ++ String q1 (text ++ String q2 post)) /\
  (quote_free command = true -> NlpService.extractQuotedText command = None).
Proof.
  split.
  - induction command as [|c command IH]; intros text;
      rewrite extractQuotedText_unfold; [discriminate|].
    destruct (NlpService.quoted_at (String c command)) as [t|] eqn:Hq.
    + intros [= <-]. unfold NlpService.quoted_at in Hq.
      destruct (Str.is_quote c) eqn:Hc; [|discriminate].
      destruct (NlpService.until_quote command) as [run|] eqn:Hu; [|discriminate].
      destruct (run =? "") eqn:He; [discriminate|]. injection Hq as <-.
      apply String.eqb_neq in He.
      destruct (until_quote_sound _ _ Hu) as (Hfree & q & post & Hq2 & ->).
      split; [exact He|]. split; [exact Hfree|]. now exists "", post, c, q.
    + intros Ht. destruct (IH text Ht) as (Hne & Hfree & pre & post & q1 & q2 & H1 & H2 & ->).
      split; [exact Hne|]. split; [exact Hfree|].
      now exists (String c pre), post, q1, q2.
  - induction command as [|c command IH]; intros Hfree;
      rewrite extractQuotedText_unfold; [reflexivity|].
    cbn in Hfree. apply andb_prop in Hfree as [Hc Hfree].
    apply negb_true_iff in Hc. cbn. rewrite Hc. now apply IH.
Qed.

Lemma extractQuotedText_sound_witness :
  NlpService.extractQuotedText "Click the login button" = None.
Proof.
  exact (proj2 (extractQuotedText_sound "Click the login button") eq_refl).
Defined.

Lemma span_sound (p : ascii -> bool) (s run rest : string) :
  Str.span p s = (run, rest) ->
  s = run ++ rest /\
  (rest = "" \/ exists c r, rest = String c r /\ p c = false).
Proof.
  revert run rest. induction s as [|c s IH]; cbn; intros run rest.
  - intros [= <- <-]. auto.
  - destruct (p c) eqn:Hc.
    + destruct (Str.span p s) as [r1 r2]. intros [= <- <-].
      destruct (IH r1 r2 eq_refl) as (-> & Hrest). auto.
    + intros [= <- <-]. split; [reflexivity|].
      right. now exists c, s.
Qed.

Lemma span_all (s run rest : string) :
  Str.span (fun c => negb (Str.is_space c)) s = (run, rest) ->
  space_free run = true.
Proof.
  revert run rest. induction s as [|c s IH]; cbn; intros run rest.
  - now intros [= <- <-].
  - destruct (negb (Str.is_space c)) eqn:Hc.
    + destruct (Str.span _ s) as [r1 r2]. intros [= <- <-]. cbn.
      rewrite Hc. now apply (IH r1 r2).
    + now intros [= <- <-].
Qed.

Lemma substring_all (m : nat) (s : string) :
  String.length s <= m -> substring 0 m s = s.
Proof.
  revert m. induction s as [|c s IH]; intros [|m] Hm; cbn in *;
    try reflexivity; try lia.
  rewrite IH; [reflexivity | lia].
Qed.

Lemma substring_after (a post : string) (m : nat) :
  String.length post <= m ->
  substring (String.length a) m (a ++ post) = post.
Proof.
  intros Hm. induction a as [|c a IH]; cbn.
  - now apply substring_all.
  - exact IH.
Qed.

Lemma length_append (a b : string) :
  String.length (a ++ b) = String.length a + String.length b.
Proof. induction a as [|c a IH]; cbn; [reflexivity | now rewrite IH]. Qed.

Lemma url_at_sound (s url : string) :
  NlpService.url_at s = Some url ->
  exists scheme run post,
    (scheme = "http://" \/ scheme = "https://") /\
    url = scheme ++ run /\ run <> "" /\ space_free run = true /\
    s = url ++ post /\
    (post = "" \/ exists c r, post = String c r /\ Str.is_space c = true).
Proof.
  unfold NlpService.url_at.
  assert (Hgen : forall scheme,
             prefix scheme s = true ->
             (let rest := substring (String.length scheme) (String.length s) s in
              let (run, _) := Str.span (fun c => negb (Str.is_space c)) rest in
              if run =? "" then None else Some (scheme ++ run)) = Some url ->
             exists run post,
               url = scheme ++ run /\ run <> "" /\ space_free run = true /\
               s = url ++ post /\
               (post = "" \/
                exists c r, post = String c r /\ Str.is_space c = true)).
  { intros scheme Hp. destruct (prefix_split _ _ Hp) as [tail ->].
    cbv zeta. rewrite substring_after by (rewrite length_append; lia).
    destruct (Str.span _ tail) as [run post] eqn:Hspan.
    destruct (run =? "") eqn:He; [discriminate|]. intros [= <-].
    apply String.eqb_neq in He.
    destruct (span_sound _ _ _ _ Hspan) as (-> & Hpost).
    exists run, post. split; [reflexivity|]. split; [exact He|].
    split; [exact (span_all _ _ _ Hspan)|].
    split; [now rewrite append_assoc|].
    destruct Hpost as [-> | (c & r & -> & Hc)]; [now left|].
    right. exists c, r. split; [reflexivity|]. now apply negb_false_iff. }
  destruct (prefix "https://" s) eqn:Hs.
  - intros Hu. destruct (Hgen _ Hs Hu) as (run & post & H1).
    exists "https://", run, post. intuition.
  - destruct (prefix "http://" s) eqn:Hp; [|discriminate].
    intros Hu. destruct (Hgen _ Hp Hu) as (run & post & H1).
    exists "http://", run, post. intuition.
Qed.

(** X4.  What [extractUrl] returns occurs in the command, is [http://] or
    [https://] followed by at least one character, contains no white space,
    and runs up to the next white space or the end of the command. *)
Theorem extractUrl_sound (command url : string) :
  NlpService.extractUrl command = Some url ->
  exists scheme run pre post,
    (scheme = "http://" \/ scheme = "https://") /\
    url = scheme ++ run /\ run <> "" /\ space_free run = true /\
    command = pre ++ url ++ post /\
    (post = "" \/ exists c r, post = String c r /\ Str.is_space c = true).
Proof.
  induction command as [|c command IH].
  - cbn. discriminate.
  - change (NlpService.extractUrl (String c command))
      with (match NlpService.url_at (String c command) with
            | Some u => Some u
            | None => NlpService.extractUrl command
            end).
    destruct (NlpService.url_at (String c command)) as [u|] eqn:Hu.
    + intros [= <-].
      destruct (url_at_sound _ _ Hu) as (scheme & run & post & Hs & -> & Hr & Hf & Hc & Hp).
      exists scheme, run, "", post. intuition.
    + intros Hx.
      destruct (IH Hx) as (scheme & run & pre & post & Hs & -> & Hr & Hf & -> & Hp).
      exists scheme, run, (String c pre), post. intuition.
Qed.

Lemma extractUrl_sound_witness :
  exists scheme run pre post,
    (scheme = "http://" \/ scheme = "https://") /\
    "https://example.com" = scheme ++ run /\ run <> "" /\
    space_free run = true /\
    Demo.navigate_click_command = pre ++ "https://example.com" ++ post /\
    (post = "" \/ exists c r, post = String c r /\ Str.is_space c = true).
Proof.
  exact (extractUrl_sound Demo.navigate_click_command "https://example.com"
           eq_refl).
Defined.

(** ** What translation returns *)

Lemma fallback_valid (command : string) (a : JsValue) :
  NlpService.getFallbackAction command = Some a ->
  exists b,
    NlpService.validateAction a = Ok b /\
    prop b "type" = prop a "type" /\
    prop b "target" = prop a "target" /\
    prop b "timeout" = prop a "timeout" /\
    prop a "timeout" = JNum 30000.
Proof.
  unfold NlpService.getFallbackAction, NlpService.nonempty.
  repeat match goal with
         | |- context [if ?c then _ else _] => destruct c eqn:?
         | |- context [match ?o with Some _ => _ | None => _ end] =>
             destruct o eqn:?
         end;
    intros [= <-];
    repeat match goal with
           | Hm : match ?o with Some _ => _ | None => _ end = Some _ |- _ =>
               destruct o; [|discriminate Hm]
           | Hm : (if ?c then None else Some _) = Some _ |- _ =>
               destruct c eqn:?; [discriminate Hm | injection Hm as <-]
           end;
    repeat match goal with
           | Hs : (?t =? "") = false |- _ =>
               destruct t; [discriminate Hs | clear Hs]
           end;
    eexists; (split; [reflexivity|]); repeat split.
Qed.

Section TranslateFacts.
Context `{External}.

(** X5.  Whatever the language model answers, an action that
    [translateCommand] returns is one that [validateAction] accepts, with
    the same type, target and timeout.  When [translateCommand] fails, the
    fallback rules have no action for the command and the error starts with
    the words that name the failed translation.  Neither way is the browser
    called or the database written. *)
Theorem translateCommand_valid (command targetUrl : string) (w : World) :
  (forall a,
     fst (translateCommand command targetUrl w) = Ok a ->
     exists b,
       NlpService.validateAction a = Ok b /\
       prop b "type" = prop a "type" /\
       prop b "target" = prop a "target" /\
       prop b "timeout" = prop a "timeout") /\
  (forall message,
     fst (translateCommand command targetUrl w) = Throw message ->
     NlpService.getFallbackAction command = None /\
     prefix "Failed to translate command: " message = true) /\
  trace (snd (translateCommand command targetUrl w)) = trace w /\
  db (snd (translateCommand command targetUrl w)) = db w.
Proof.
  destruct (translateCommand_frame command targetUrl w) as (Hdb & Htrace).
  split; [|split; [|split; assumption]].
  - intros a.
    assert (Hfb : forall x : Result JsValue * World,
               fst (match NlpService.getFallbackAction command with
                    | Some f => (Ok f, snd x)
                    | None => x
                    end) = Ok a ->
               (forall v, fst x <> Ok v) ->
               exists b,
                 NlpService.validateAction a = Ok b /\
                 prop b "type" = prop a "type" /\
                 prop b "target" = prop a "target" /\
                 prop b "timeout" = prop a "timeout").
    { intros x Hx Hno.
      destruct (NlpService.getFallbackAction command) as [f|] eqn:Hf.
      - injection Hx as ->.
        destruct (fallback_valid _ _ Hf) as (b & Hb & H1 & H2 & H3 & _).
        now exists b.
      - now elim (Hno a). }
    unfold translateCommand, try_catch, bind, chat, lift, throw, ret.
    destruct (complete command targetUrl (ext w)) as [[m|content] e].
    + intros Hx. apply (Hfb (Throw ("Failed to translate command: " ++ m), w)).
      * destruct (NlpService.getFallbackAction command); exact Hx.
      * discriminate.
    + destruct (JSON_parse content) as [v|m]; cbn [fst snd].
      * destruct (NlpService.validateAction v) as [a'|m] eqn:Hv.
        -- cbn. intros [= <-]. exists a'.
           split; [exact (validateAction_again _ _ Hv) | auto].
        -- intros Hx.
           apply (Hfb (Throw ("Failed to translate command: " ++ m), w)).
           ++ destruct (NlpService.getFallbackAction command); exact Hx.
           ++ discriminate.
      * intros Hx.
        apply (Hfb (Throw ("Failed to translate command: "
                           ++ "Invalid response format from AI model"), w)).
        -- destruct (NlpService.getFallbackAction command); exact Hx.
        -- discriminate.
  - intros message.
    unfold translateCommand, try_catch, bind, chat, lift, throw, ret.
    destruct (complete command targetUrl (ext w)) as [[m|content] e].
    + destruct (NlpService.getFallbackAction command); [discriminate|].
      intros [= <-].
      split; [reflexivity | exact (prefix_append "Failed to translate command: " m)].
    + destruct (JSON_parse content) as [v|m]; cbn [fst snd].
      * destruct (NlpService.validateAction v) as [a'|m]; [discriminate|].
        destruct (NlpService.getFallbackAction command); [discriminate|].
        intros [= <-].
        split; [reflexivity | exact (prefix_append "Failed to translate command: " m)].
      * destruct (NlpService.getFallbackAction command); [discriminate|].
        intros [= <-].
        split; [reflexivity|].
        exact (prefix_append "Failed to translate command: "
                 "Invalid response format from AI model").
Qed.

End TranslateFacts.

(** X5, at a command for which the model answers with an unknown kind and
    the fallback rules have nothing: the case of the test suite. *)
Lemma translateCommand_valid_witness :
  NlpService.getFallbackAction "Invalid command" = None /\
  prefix "Failed to translate command: "
    "Failed to translate command: Invalid action type: invalid_action" = true.
Proof.
  exact (proj1 (proj2 (@translateCommand_valid
                         (Demo.world
                            (Demo.answering
                               (JObj [ ("type", JStr "invalid_action");
                                       ("target", JStr "button") ])))
                         "Invalid command" "https://example.com"
                         (Demo.start
                            (Demo.answering
                               (JObj [ ("type", JStr "invalid_action");
                                       ("target", JStr "button") ]))
                            Demo.empty_store)))
           "Failed to translate command: Invalid action type: invalid_action"
           eq_refl).
Defined.

(** ** More on single actions *)
Section ActionFacts.
Context `{External}.
Import NlpService.

(** X6.  The kind upload passes validation, but the executor has no case
    for it: a step whose stored action is an upload always fails, with the
    error that names the kind, and the only browser call is the capture
    made for the failure. *)
Theorem upload_is_not_executed (step : TestSteps.row) (sessionId : string)
    (action : JsValue) (w : World) :
  TestSteps.translated_action step = Some action ->
  prop action "type" = JStr UPLOAD ->
  (exists a, validateAction action = Ok a /\ prop a "type" = JStr UPLOAD) /\
  exists result w',
    executeStep step sessionId w = (Ok result, w') /\
    prop result "status" = JStr "failed" /\
    prop result "error" = JStr "Unsupported action type: upload" /\
    trace w' = (trace w ++ [capture_call sessionId (TestSteps.id step) "error" w])%list.
Proof.
  intros Hstep Htype.
  destruct action as [| | | | | |props| |]; try discriminate.
  split.
  - unfold validateAction. rewrite Htype. cbn.
    destruct (truthy (lookup "description" props)); cbn;
      eexists; split; reflexivity.
  - destruct (executeStep_outcome step sessionId w)
      as (result & shot & w' & Hrun & _ & Hcase).
    exists result, w'. split; [exact Hrun|].
    revert Hcase. unfold action_phase, bind, lift, updateStepStatus, db_update.
    rewrite Hstep. cbn [JSON_parse Js.read]. rewrite Htype.
    unfold dispatch. cbn. intros (Hs & He & _ & Ht & _). auto.
Qed.

(** The selector loop when the action itself may fail: every candidate
    that cannot succeed is passed over. *)
Lemma try_selectors_skip (action_call : string -> Call)
    (selectors : list string) (w : World) :
  (forall x, In x selectors -> fails_on action_call x) ->
  exists e calls,
    try_selectors (fun x => call (action_call x)) selectors w =
    (Ok false, {| ext := e; trace := trace w ++ calls; db := db w |}).
Proof.
  revert w. induction selectors as [|s rest IH]; intros w Hfail.
  - exists (ext w), []. cbn. rewrite app_nil_r. now destruct w.
  - cbn [try_selectors]. unfold bind, try_catch. rewrite call_settles.
    destruct (Hfail s (or_introl eq_refl)) as [Hrej | [Hres Hrej]].
    + destruct (Hrej (ext w)) as (m & e' & Hp). unfold probe in Hp.
      rewrite Hp. cbn.
      edestruct IH as (e'' & calls & ->); [intros x Hx; apply Hfail; now right|].
      cbn. exists e'', (probe s :: calls). now rewrite <- app_assoc.
    + destruct (Hres (ext w)) as (v & e' & Hp). unfold probe in Hp.
      rewrite Hp. cbn. rewrite call_settles. cbn.
      destruct (Hrej e') as (m & e'' & Hp'). rewrite Hp'. cbn.
      edestruct IH as (e3 & calls & ->); [intros x Hx; apply Hfail; now right|].
      cbn. exists e3, (probe s :: action_call s :: calls).
      rewrite <- !app_assoc. reflexivity.
Qed.

Lemma try_selectors_reach (action_call : string -> Call)
    (before : list string) (s : string) (after : list string) (w : World) :
  (forall x, In x before -> fails_on action_call x) ->
  resolves (probe s) -> resolves (action_call s) ->
  exists e calls,
    try_selectors (fun x => call (action_call x)) (before ++ s :: after) w =
    (Ok true,
     {| ext := e; trace := trace w ++ calls ++ [probe s; action_call s];
        db := db w |}).
Proof.
  intros Hfail Hs Ha. revert w. induction before as [|b before IH]; intros w.
  - destruct (try_selectors_first action_call [] s after w) as [e He]; auto.
    { intros x []. }
    exists e, []. exact He.
  - cbn [app try_selectors]. unfold bind at 1, try_catch, bind at 1.
    rewrite call_settles.
    assert (Hrest : forall x, In x before -> fails_on action_call x)
      by (intros x Hx; apply Hfail; now right).
    destruct (Hfail b (or_introl eq_refl)) as [Hrej | [Hres Hrej]].
    + destruct (Hrej (ext w)) as (m & e' & Hp). unfold probe in Hp.
      rewrite Hp. cbn.
      edestruct (IH Hrest) as (e'' & calls & ->).
      cbn. exists e'', (probe b :: calls). now rewrite <- app_assoc.
    + destruct (Hres (ext w)) as (v & e' & Hp). unfold probe in Hp.
      rewrite Hp. cbn. unfold bind at 1. rewrite call_settles. cbn.
      destruct (Hrej e') as (m & e'' & Hp'). rewrite Hp'. cbn.
      edestruct (IH Hrest) as (e3 & calls & ->).
      cbn. exists e3, (probe b :: action_call b :: calls).
      rewrite <- !app_assoc. reflexivity.
Qed.

(** X7.  In click and type, a candidate that resolves but on which the
    action itself is rejected is treated like one that does not resolve:
    the later candidates are tried.  The function succeeds on the first
    candidate for which both the probe and the action resolve, and these two
    calls are its last ones; when the probe or the action fails for every
    candidate, it throws the error that quotes the target. *)
Theorem action_failure_falls_through (action : JsValue) (target : string) :
  prop action "target" = JStr target ->
  let candidates := map Str.trim (Str.split "," target) in
  let click x := Click x (prop action "timeout") in
  let fill x := Fill x (prop action "value") in
  (forall before s after w,
     candidates = (before ++ s :: after)%list -> resolves (probe s) ->
     ((forall x, In x before -> fails_on click x) -> resolves (click s) ->
      fst (executeClick action w) = Ok tt /\
      exists calls,
        trace (snd (executeClick action w))
        = (trace w ++ calls ++ [probe s; click s])%list) /\
     ((forall x, In x before -> fails_on fill x) -> resolves (fill s) ->
      fst (executeType action w) = Ok tt /\
      exists calls,
        trace (snd (executeType action w))
        = (trace w ++ calls ++ [probe s; fill s])%list)) /\
  (forall w,
     ((forall x, In x candidates -> fails_on click x) ->
      fst (executeClick action w)
      = Throw ("Could not find clickable element with any of the selectors: "
               ++ target)) /\
     ((forall x, In x candidates -> fails_on fill x) ->
      fst (executeType action w)
      = Throw ("Could not find input element with any of the selectors: "
               ++ target))).
Proof.
  intros Ht candidates click fill. split.
  - intros before s after w Hc Hs. split; intros Hfail Ha.
    + destruct (try_selectors_reach click before s after w Hfail Hs Ha)
        as (e & calls & He).
      unfold executeClick, bind, str, lift. rewrite Ht. cbn [to_string].
      simpl selectors_of.
      fold candidates. rewrite Hc. cbv beta iota.
      unfold click in *. rewrite He.
      split; [reflexivity | now exists calls].
    + destruct (try_selectors_reach fill before s after w Hfail Hs Ha)
        as (e & calls & He).
      unfold executeType, bind, str, lift. rewrite Ht. cbn [to_string].
      simpl selectors_of.
      fold candidates. rewrite Hc. cbv beta iota.
      unfold fill in *. rewrite He.
      split; [reflexivity | now exists calls].
  - intros w. split; intros Hfail.
    + destruct (try_selectors_skip click candidates w Hfail) as (e & calls & He).
      unfold executeClick, bind, str, lift. rewrite Ht. cbn [to_string].
      simpl selectors_of.
      fold candidates. cbv beta iota.
      unfold click in *. rewrite He. reflexivity.
    + destruct (try_selectors_skip fill candidates w Hfail) as (e & calls & He).
      unfold executeType, bind, str, lift. rewrite Ht. cbn [to_string].
      simpl selectors_of.
      fold candidates. cbv beta iota.
      unfold fill in *. rewrite He. reflexivity.
Qed.

End ActionFacts.

Lemma upload_is_not_executed_witness :
  exists result w',
    executeStep (Demo.step "st-1" "s1" 1 (Demo.action "upload" "#file" "a.txt"))
      "s1" (Demo.start Demo.example_page Demo.empty_store)
    = (Ok result, w') /\
    prop result "status" = JStr "failed" /\
    prop result "error" = JStr "Unsupported action type: upload" /\
    trace w' =
      [Screenshot "./screenshots/s1_st-1_error_2024-01-01T00-00-00-000Z.png"].
Proof.
  exact (proj2 (@upload_is_not_executed (Demo.world Demo.example_page)
                  (Demo.step "st-1" "s1" 1 (Demo.action "upload" "#file" "a.txt"))
                  "s1" (Demo.action "upload" "#file" "a.txt")
                  (Demo.start Demo.example_page Demo.empty_store)
                  eq_refl eq_refl)).
Defined.

(** X7, on the page of [Overlay]: the click on [#a] is rejected and the
    click on [#b] succeeds. *)
Lemma action_failure_falls_through_witness :
  fst (@executeClick Overlay.world (Demo.action "click" "#a, #b" "") Overlay.start)
  = Ok tt /\
  exists calls,
    trace (snd (@executeClick Overlay.world (Demo.action "click" "#a, #b" "")
                  Overlay.start))
    = ([] ++ calls ++ [probe "#b"; Click "#b" (JNum 30000)])%list.
Proof.
  refine (proj1 (proj1 (@action_failure_falls_through Overlay.world
                          (Demo.action "click" "#a, #b" "") "#a, #b" eq_refl)
                   ["#a"] "#b" [] Overlay.start eq_refl _) _ _).
  - intros e. now exists JNull, (e + 1)%Z.
  - intros x [<- | []]. right. split.
    + intros e. now exists JNull, (e + 1)%Z.
    + intros e. now exists "element intercepts pointer events", (e + 1)%Z.
  - intros e. now exists JUndefined, (e + 1)%Z.
Defined.

(** ** More on the run of a session *)
Section SessionRunFacts.
Context `{External}.

Lemma executeStep_stepId (step : TestSteps.row) (sessionId : string)
    (w w' : World) (result : JsValue) :
  executeStep step sessionId w = (Ok result, w') ->
  prop result "stepId" = JStr (TestSteps.id step).
Proof.
  unfold executeStep.
  unfold bind, try_catch, lift, now, ret, updateStepStatus, updateStepResult,
    db_update.
  destruct (JSON_parse (TestSteps.translated_action step)) as [action|m].
  - cbv beta iota.
    destruct (Js.read action "type") as [type|m].
    + cbv beta iota.
      destruct (dispatch sessionId (TestSteps.id step) action type _)
        as [[[actual assigned]|m] w1].
      * cbn [fst snd]. destruct (truthy assigned) eqn:Ha; cbn [negb].
        -- cbv beta iota. destruct actual; intros [= <- <-]; reflexivity.
        -- rewrite takeScreenshot_run. cbv beta iota.
           destruct actual; intros [= <- <-]; reflexivity.
      * rewrite takeScreenshot_run. cbv beta iota.
        intros [= <- <-]. reflexivity.
    + rewrite takeScreenshot_run. cbv beta iota. intros [= <- <-]. reflexivity.
  - rewrite takeScreenshot_run. cbv beta iota. intros [= <- <-]. reflexivity.
Qed.

Lemma executeSteps_ids (sessionId : string) (steps : list TestSteps.row)
    (results : list JsValue) (w : World) :
  exists new w',
    executeSteps sessionId steps results w = (Ok (results ++ new)%list, w') /\
    map (fun r => prop r "stepId") new
    = map (fun s => JStr (TestSteps.id s)) steps /\
    Forall final_status new /\
    extends w w'.
Proof.
  revert results w. induction steps as [|step rest IH]; intros results w.
  - exists [], w. rewrite app_nil_r. repeat split; auto. apply extends_refl.
  - destruct (executeStep_run step sessionId w)
      as (result & w1 & Hrun & Hst & Hcrit & _ & Hext).
    destruct (IH (results ++ [result])%list w1)
      as (new & w' & Hrest & Hids & Hall & Hext').
    exists (result :: new), w'. split; [|split; [|split]].
    + cbn [executeSteps]. unfold bind at 1. rewrite Hrun, Hcrit.
      cbn [truthy]. rewrite andb_false_r, Hrest, <- app_assoc. reflexivity.
    + cbn [map]. now rewrite Hids, (executeStep_stepId _ _ _ _ _ Hrun).
    + now constructor.
    + eapply extends_trans; eassumption.
Qed.

(** What [executeTest] returns is what the loop over the steps returned. *)
Lemma executeTest_results (sessionId : string) (steps : list TestSteps.row)
    (w : World) (results : list JsValue) :
  fst (executeTest sessionId steps w) = Ok results ->
  exists w3 w4, executeSteps sessionId steps [] w3 = (Ok results, w4).
Proof.
  unfold executeTest. rewrite call_settles.
  destruct (fst (perform _ (ext w))) as [v|m].
  - rewrite call_settles. cbn [ext].
    destruct (fst (perform NewContext _)) as [v'|m].
    + rewrite call_settles. cbn [ext].
      destruct (fst (perform NewPage _)) as [v''|m].
      * match goal with
        | |- context [executeSteps _ _ _ ?w3] =>
            destruct (executeSteps sessionId steps [] w3) as [r w4] eqn:Hrun;
            destruct (cleanup 3 w4) as [[[]|m] w5]; cbn [fst];
            [intros ->; now exists w3, w4 | discriminate]
        end.
      * match goal with
        | |- context [cleanup 2 ?x] =>
            destruct (cleanup 2 x) as [[[]|m'] w5]; discriminate
        end.
    + match goal with
      | |- context [cleanup 1 ?x] =>
          destruct (cleanup 1 x) as [[[]|m'] w5]; discriminate
      end.
  - match goal with
    | |- context [cleanup 0 ?x] =>
        destruct (cleanup 0 x) as [[[]|m'] w5]; discriminate
    end.
Qed.

(** X8.  The results that [executeTest] returns follow the steps it was
    given: one result per step, in the same order, each carrying the id of
    its step and a final status. *)
Theorem results_follow_steps (sessionId : string) (steps : list TestSteps.row)
    (w : World) (results : list JsValue) :
  fst (executeTest sessionId steps w) = Ok results ->
  map (fun r => prop r "stepId") results
  = map (fun s => JStr (TestSteps.id s)) steps /\
  Forall final_status results.
Proof.
  intros (w3 & w4 & Hrun)%executeTest_results.
  destruct (executeSteps_ids sessionId steps [] w3)
    as (new & w' & Hrun' & Hids & Hall & _).
  rewrite Hrun in Hrun'. injection Hrun' as -> _. auto.
Qed.

Lemma executeTest_launch_rejected (sessionId : string)
    (steps : list TestSteps.row) (w : World) :
  rejects launch_call ->
  exists message e,
    executeTest sessionId steps w =
    (Throw message,
     {| ext := e; trace := trace w ++ [launch_call]; db := db w |}).
Proof.
  intros Hl. unfold executeTest. fold launch_call. rewrite call_settles.
  destruct (Hl (ext w)) as (m & e & Hp). rewrite Hp. cbn.
  now exists m, e.
Qed.


End SessionRunFacts.

Lemma results_follow_steps_witness :
  map (fun r => prop r "stepId")
    (value_or []
       (fst (executeTest "s1" Demo.abort_steps
               (Demo.start Demo.example_page (Demo.abort_store "pending")))))
  = [JStr "st-1"; JStr "st-2"; JStr "st-3"].
Proof.
  assert (Hrun : fst (executeTest "s1" Demo.abort_steps
                        (Demo.start Demo.example_page (Demo.abort_store "pending")))
                 = Ok (value_or []
                         (fst (executeTest "s1" Demo.abort_steps
                                 (Demo.start Demo.example_page
                                    (Demo.abort_store "pending"))))))
    by (vm_compute; reflexivity).
  exact (proj1 (@results_follow_steps (Demo.world Demo.example_page) "s1"
                  Demo.abort_steps
                  (Demo.start Demo.example_page (Demo.abort_store "pending"))
                  _ Hrun)).
Defined.


(** ** The execute route and the status of the session *)
Section StatusFacts.
Context `{External}.

(** C2 (amended).  The execute route does not read the status of the
    session, and no error of an invalid state exists.  For an id without a
    session it answers 404 and does nothing else: no browser call, no change
    of the database.  For a session that exists, whatever its status, it
    sets the status to running and runs [executeTest] on the stored steps in
    the order of their numbers; the browser calls of the route are those of
    that run, which starts with the launch.  When the run returns, the
    route answers 200 with the results, one for every stored step in that
    order, each with a final status, and the session is left passed or
    failed.  When the run throws, the route answers 500 and the session is
    left running.  The run returns when the launch, the opening of the
    context and of the page and the three closes are resolved, and throws
    when one of them is rejected: no step makes the route answer 500, and
    an answer 200 means that each of these six calls was resolved. *)
Theorem execute_any_status (sessionId : string) (w : World) :
  (select_session sessionId (db w) = None ->
   execute sessionId w = (Ok (error_response 404 "Test session not found"), w)) /\
  (forall row,
     select_session sessionId (db w) = Some row ->
     let steps := select_steps sessionId (db w) in
     let started :=
       {| ext := ext w; trace := trace w;
          db := set_session_status sessionId "running" (db w) |} in
     let run := executeTest sessionId steps started in
     let answer := execute sessionId w in
     (exists row0,
        select_session sessionId (db started) = Some row0 /\
        TestSessions.status row0 = "running") /\
     trace (snd answer) = trace (snd run) /\
     (exists calls, trace (snd answer) = (trace w ++ launch_call :: calls)%list) /\
     (forall results,
        fst run = Ok results ->
        map (fun x => prop x "stepId") results
        = map (fun s => JStr (TestSteps.id s)) steps /\
        Forall final_status results /\
        exists r row',
          fst answer = Ok r /\ code r = 200%Z /\
          prop (body r) "results" = JArr results /\
          select_session sessionId (db (snd answer)) = Some row' /\
          JStr (TestSessions.status row') = prop (body r) "status" /\
          (TestSessions.status row' = "passed" \/
           TestSessions.status row' = "failed")) /\
     (forall message,
        fst run = Throw message ->
        fst answer = Ok (error_response 500 "Failed to execute test session") /\
        db (snd answer) = db (snd run) /\
        exists row',
          select_session sessionId (db (snd answer)) = Some row' /\
          TestSessions.status row' = "running") /\
     ((forall c, In c lifecycle -> resolves c) ->
      exists r, fst answer = Ok r /\ code r = 200%Z) /\
     (forall c, In c lifecycle -> rejects c ->
      fst answer = Ok (error_response 500 "Failed to execute test session")) /\
     (forall r, fst answer = Ok r -> code r = 200%Z ->
      forall c, In c lifecycle ->
        exists e v e', perform c e = (Resolved v, e'))).
Proof.
  split.
  - intros Hsel. unfold execute, try_catch, bind, db_read. now rewrite Hsel.
  - intros row Hsel steps started run answer.
    assert (Hstarted : select_session sessionId (db started)
                       = Some {| TestSessions.id := TestSessions.id row;
                                 TestSessions.name := TestSessions.name row;
                                 TestSessions.description :=
                                   TestSessions.description row;
                                 TestSessions.status := "running";
                                 TestSessions.total_steps :=
                                   TestSessions.total_steps row;
                                 TestSessions.passed_steps :=
                                   TestSessions.passed_steps row;
                                 TestSessions.failed_steps :=
                                   TestSessions.failed_steps row |}).
    { unfold started, set_session_status. cbn [db].
      rewrite select_session_update, Hsel by reflexivity. reflexivity. }
    assert (Hkept : select_session sessionId (db (snd run))
                    = select_session sessionId (db started)).
    { apply select_session_sessions. apply executeTest_sessions. }
    assert (Hanswer :
              answer =
              match run with
              | (Ok results, w1) =>
                  let passed := count_status "passed" results in
                  let failed := count_status "failed" results in
                  let verdict := if (0 <? failed)%Z then "failed" else "passed" in
                  (Ok {| code := 200;
                         body :=
                           JObj [ ("sessionId", JStr sessionId);
                                  ("status", JStr verdict);
                                  ("results", JArr results);
                                  ("summary",
                                    JObj [ ("total",
                                             JNum (Z.of_nat (List.length steps)));
                                           ("passed", JNum passed);
                                           ("failed", JNum failed) ]) ] |},
                   {| ext := ext w1; trace := trace w1;
                      db := set_session_result sessionId verdict passed failed
                              (db w1) |})
              | (Throw _, w1) =>
                  (Ok (error_response 500 "Failed to execute test session"), w1)
              end).
    { unfold answer, execute, try_catch, bind, db_read, db_update.
      rewrite Hsel. cbv beta iota. fold steps started run.
      now destruct run as [[results|m] w1]. }
    assert (Htrace : trace (snd answer) = trace (snd run)).
    { rewrite Hanswer. now destruct run as [[results|m] w1]. }
    split; [eexists; split; [exact Hstarted | reflexivity]|].
    split; [exact Htrace|]. split; [|split; [|split; [|split; [|split]]]].
    + rewrite Htrace.
      destruct (executeTest_run sessionId steps started) as ([calls Hc] & _).
      exists calls. exact Hc.
    + intros results Hrun.
      destruct (executeTest_results sessionId steps started results Hrun)
        as (w3 & w4 & Hloop).
      destruct (executeSteps_ids sessionId steps [] w3)
        as (new & w' & Hloop' & Hids & Hall & _).
      rewrite Hloop in Hloop'. injection Hloop' as -> _.
      split; [exact Hids|]. split; [exact Hall|].
      rewrite Hanswer. fold run in Hrun, Hkept.
      destruct run as [[results'|m] w1]; cbn [fst snd] in *; [|discriminate].
      injection Hrun as ->. cbv zeta. cbn [fst snd db].
      unfold set_session_result.
      rewrite select_session_update, Hkept, Hstarted by reflexivity.
      cbn [option_map]. do 2 eexists. split; [reflexivity|].
      split; [reflexivity|]. split; [reflexivity|]. split; [reflexivity|].
      cbn [TestSessions.status]. split; [reflexivity|].
      destruct (0 <? _)%Z; auto.
    + intros message Hrun. rewrite Hanswer. fold run in Hrun, Hkept.
      destruct run as [[results|m] w1]; cbn [fst snd] in *; [discriminate|].
      split; [reflexivity|]. split; [reflexivity|].
      rewrite Hkept, Hstarted. eexists. split; reflexivity.
    + intros Hall.
      destruct (executeTest_returns sessionId steps started Hall)
        as (results & Hrun).
      rewrite Hanswer. fold run in Hrun.
      destruct run as [[results'|m] w1]; cbn [fst] in *; [|discriminate].
      eexists. split; reflexivity.
    + intros c Hin Hrej.
      destruct (executeTest_throws sessionId steps started c Hin Hrej)
        as (m & Hrun).
      rewrite Hanswer. fold run in Hrun.
      destruct run as [[results|m'] w1]; cbn [fst] in *; [discriminate|].
      reflexivity.
    + intros r. rewrite Hanswer.
      destruct run as [[results|m] w1] eqn:Hrun; cbn [fst].
      * intros _ _. apply (executeTest_ok sessionId steps started results).
        fold run. now rewrite Hrun.
      * intros [= <-]. discriminate.
Qed.

End StatusFacts.

(** C2, at the session of [Demo.abort_store] when it is already passed:
    it is set to running and run again. *)
Lemma execute_any_status_witness :
  exists r,
    fst (execute "s1" (Demo.start Demo.example_page (Demo.abort_store "passed")))
    = Ok r /\ code r = 200%Z.
Proof.
  refine (proj1 (proj2 (proj2 (proj2 (proj2 (proj2
            (proj2 (@execute_any_status (Demo.world Demo.example_page) "s1"
                      (Demo.start Demo.example_page (Demo.abort_store "passed")))
               (Demo.session "s1" "passed" 3) eq_refl)))))) _).
  intros c [<- | [<- | [<- | [<- | [<- | [<- | []]]]]]] e;
    now exists JUndefined, (e + 1)%Z.
Defined.

(** ** More on the routes *)
Section RouteFacts.
Context `{External}.

(** What a 200 answer of the execute route is made of. *)
Lemma execute_ok (sessionId : string) (w w' : World) (r : Response) :
  execute sessionId w = (Ok r, w') ->
  code r = 200%Z ->
  exists row results w1,
    select_session sessionId (db w) = Some row /\
    executeTest sessionId (select_steps sessionId (db w))
      {| ext := ext w; trace := trace w;
         db := set_session_status sessionId "running" (db w) |}
    = (Ok results, w1) /\
    let failed := count_status "failed" results in
    let passed := count_status "passed" results in
    let verdict := if (0 <? failed)%Z then "failed" else "passed" in
    r = {| code := 200;
           body :=
             JObj [ ("sessionId", JStr sessionId);
                    ("status", JStr verdict);
                    ("results", JArr results);
                    ("summary",
                      JObj [ ("total",
                               JNum (Z.of_nat
                                       (List.length
                                          (select_steps sessionId (db w)))));
                             ("passed", JNum passed);
                             ("failed", JNum failed) ]) ] |} /\
    db w' = set_session_result sessionId verdict passed failed (db w1).
Proof.
  unfold execute, try_catch, bind, db_read, db_update.
  destruct (select_session sessionId (db w)) as [row|] eqn:Hsel.
  - cbv beta iota.
    destruct (executeTest _ _ _) as [[results|m] w1] eqn:Hrun.
    + intros [= <- <-] _. exists row, results, w1. repeat split.
    + intros [= <- <-]. discriminate.
  - intros [= <- <-]. discriminate.
Qed.

Lemma count_status_positive (st : string) (results : list JsValue) :
  (0 < count_status st results)%Z <->
  Exists (fun r => prop r "status" = JStr st) results.
Proof.
  induction results as [|r l IH]; rewrite ?count_status_cons.
  - unfold count_status. cbn. split; [lia | intros Hx; inversion Hx].
  - assert (Hnn : (0 <= count_status st l)%Z) by (unfold count_status; lia).
    destruct (is_str (prop r "status") st) eqn:Hs.
    + split; [|lia]. intros _. left.
      destruct (prop r "status"); try discriminate.
      cbn in Hs. apply String.eqb_eq in Hs. now subst.
    + rewrite Z.add_0_l, IH. split.
      * now right.
      * intros Hx. inversion Hx as [? ? Hr | ]; subst; [|assumption].
        rewrite Hr in Hs. cbn in Hs. now rewrite String.eqb_refl in Hs.
Qed.

(** X10.  The verdict of an executed session.  When the execute route
    answers 200, the answer has one result per stored step; the session is
    failed exactly when one of the results is failed, and passed otherwise,
    so a session without stored steps is passed; the total of the summary is
    the sum of its passed and failed counts; and the status and the
    counters written to the session are those of the answer. *)
Theorem execute_verdict (sessionId : string) (w w' : World) (r : Response) :
  execute sessionId w = (Ok r, w') ->
  code r = 200%Z ->
  let results := array_items (prop (body r) "results") in
  let summary := prop (body r) "summary" in
  List.length results = List.length (steps_of sessionId (db w)) /\
  (prop (body r) "status" = JStr "failed" <->
   Exists (fun x => prop x "status" = JStr "failed") results) /\
  (prop (body r) "status" = JStr "passed" <->
   Forall (fun x => prop x "status" = JStr "passed") results) /\
  (exists passed failed,
     prop summary "passed" = JNum passed /\
     prop summary "failed" = JNum failed /\
     prop summary "total" = JNum (passed + failed) /\
     exists row,
       select_session sessionId (db w') = Some row /\
       JStr (TestSessions.status row) = prop (body r) "status" /\
       TestSessions.passed_steps row = passed /\
       TestSessions.failed_steps row = failed).
Proof.
  intros Hrun Hcode.
  destruct (execute_ok _ _ _ _ Hrun Hcode)
    as (row & results & w1 & Hsel & Htest & Hr & Hdb).
  cbv zeta in Hr, Hdb. subst r.
  cbn [body prop lookup array_items String.eqb Ascii.eqb Bool.eqb andb].
  destruct (executeTest_run sessionId (select_steps sessionId (db w))
              {| ext := ext w; trace := trace w;
                 db := set_session_status sessionId "running" (db w) |})
    as (_ & Hres).
  rewrite Htest in Hres. cbn [fst snd] in Hres.
  destruct Hres as (Hlen & Hall & Hex).
  pose proof (count_status_final _ Hall) as Hsum.
  pose proof (count_status_positive "failed" results) as Hpos.
  split; [|split; [|split]].
  - rewrite Hlen. unfold select_steps. apply order_by_step_number_length.
  - destruct (0 <? count_status "failed" results)%Z eqn:Hf.
    + apply Z.ltb_lt in Hf. split; [intros _; now apply Hpos | reflexivity].
    + apply Z.ltb_ge in Hf. split; [discriminate|].
      intros Hx. apply Hpos in Hx. lia.
  - destruct (0 <? count_status "failed" results)%Z eqn:Hf.
    + apply Z.ltb_lt in Hf. split; [discriminate|]. intros Hp.
      apply Hpos in Hf. apply Exists_exists in Hf as (x & Hx & Hs).
      rewrite Forall_forall in Hp. specialize (Hp x Hx). congruence.
    + apply Z.ltb_ge in Hf. split; [|reflexivity]. intros _.
      apply Forall_forall. intros x Hx.
      rewrite Forall_forall in Hall. destruct (Hall x Hx) as [Hp | Hfl]; [exact Hp|].
      assert (Hx' : Exists (fun r => prop r "status" = JStr "failed") results)
        by (apply Exists_exists; eauto).
      apply Hpos in Hx'. lia.
  - exists (count_status "passed" results), (count_status "failed" results).
    split; [reflexivity|]. split; [reflexivity|]. split.
    { rewrite Hsum, Hlen. reflexivity. }
    assert (Hsess : select_session sessionId (db w1)
                    = select_session sessionId
                        (set_session_status sessionId "running" (db w)))
      by (apply select_session_sessions, Hex).
    unfold set_session_status in Hsess.
    rewrite select_session_update, Hsel in Hsess by reflexivity.
    rewrite Hdb. unfold set_session_result.
    rewrite select_session_update, Hsess by reflexivity.
    eexists. split; [reflexivity|]. cbn. auto.
Qed.

(** X11.  When the browser cannot be launched, the execute route answers
    500 after the launch attempt, no step is executed and no row of a step
    is written, and the session is left with the status running. *)
Theorem launch_failure_leaves_session_running (sessionId : string) (w : World)
    (row : TestSessions.row) :
  rejects launch_call ->
  select_session sessionId (db w) = Some row ->
  exists w',
    execute sessionId w
    = (Ok (error_response 500 "Failed to execute test session"), w') /\
    trace w' = (trace w ++ [launch_call])%list /\
    test_steps (db w') = test_steps (db w) /\
    exists row',
      select_session sessionId (db w') = Some row' /\
      TestSessions.status row' = "running".
Proof.
  intros Hl Hsel. unfold execute, try_catch, bind, db_read, db_update.
  rewrite Hsel. cbv beta iota.
  match goal with
  | |- context [executeTest ?s ?l ?w0] =>
      destruct (executeTest_launch_rejected s l w0 Hl) as (m & e & ->)
  end.
  eexists. split; [reflexivity|]. cbn [trace db]. split; [reflexivity|].
  split; [reflexivity|].
  unfold set_session_status. rewrite select_session_update, Hsel by reflexivity.
  eexists. split; reflexivity.
Qed.

End RouteFacts.

Lemma execute_verdict_witness :
  let run := execute "s1" (Demo.start Demo.example_page (Demo.abort_store "pending")) in
  let r := value_or (error_response 0 "") (fst run) in
  List.length (array_items (prop (body r) "results"))
  = List.length (steps_of "s1" (Demo.abort_store "pending")).
Proof.
  intros run r.
  assert (Hrun : run = (Ok r, snd run)) by (vm_compute; reflexivity).
  assert (Hcode : code r = 200%Z) by (vm_compute; reflexivity).
  exact (proj1 (@execute_verdict (Demo.world Demo.example_page) "s1" _ _ r
                  Hrun Hcode)).
Defined.

Lemma launch_failure_leaves_session_running_witness :
  exists w',
    @execute Offline.world "s1" (Offline.start (Demo.abort_store "pending"))
    = (Ok (error_response 500 "Failed to execute test session"), w') /\
    trace w' = [Launch Chromium true] /\
    test_steps (db w') = Demo.abort_steps /\
    exists row',
      select_session "s1" (db w') = Some row' /\
      TestSessions.status row' = "running".
Proof.
  refine (@launch_failure_leaves_session_running Offline.world "s1"
            (Offline.start (Demo.abort_store "pending"))
            (Demo.session "s1" "pending" 3) _ eq_refl).
  intros e. now exists "browserType.launch: Executable does not exist", (e + 1)%Z.
Defined.

(** ** Deleting a session *)

Lemma find_filter_out {A : Type} (p q : A -> bool) (l : list A) :
  (forall x, p x = true -> q x = false) -> find p (filter q l) = None.
Proof.
  intros Hpq. induction l as [|x l IH]; cbn; [reflexivity|].
  destruct (q x) eqn:Hq; [|exact IH]. cbn.
  destruct (p x) eqn:Hp; [|exact IH]. rewrite (Hpq x Hp) in Hq. discriminate.
Qed.

Lemma find_filter_keep {A : Type} (p q : A -> bool) (l : list A) :
  (forall x, p x = true -> q x = true) -> find p (filter q l) = find p l.
Proof.
  intros Hpq. induction l as [|x l IH]; cbn; [reflexivity|].
  destruct (p x) eqn:Hp.
  - rewrite (Hpq x Hp). cbn. now rewrite Hp.
  - destruct (q x); cbn; [now rewrite Hp|]; exact IH.
Qed.

Lemma filter_filter_keep {A : Type} (p q : A -> bool) (l : list A) :
  (forall x, p x = true -> q x = true) -> filter p (filter q l) = filter p l.
Proof.
  intros Hpq. induction l as [|x l IH]; cbn; [reflexivity|].
  destruct (p x) eqn:Hp.
  - rewrite (Hpq x Hp). cbn. now rewrite Hp, IH.
  - destruct (q x); cbn; [rewrite Hp|]; exact IH.
Qed.

Lemma filter_all {A : Type} (p : A -> bool) (l : list A) :
  (forall x, In x l -> p x = true) -> filter p l = l.
Proof.
  induction l as [|x l IH]; cbn; intros Hp; [reflexivity|].
  rewrite (Hp x (or_introl eq_refl)), IH; [reflexivity|].
  intros y Hy. apply Hp. now right.
Qed.

Lemma select_session_exists (sessionId : string) (s : Store) :
  existsb (fun r => TestSessions.id r =? sessionId) (test_sessions s) = true <->
  exists row, select_session sessionId s = Some row.
Proof.
  unfold select_session. induction (test_sessions s) as [|x l IH]; cbn.
  - split; [discriminate | intros [row [=]]].
  - destruct (TestSessions.id x =? sessionId); cbn; [|exact IH].
    split; eauto.
Qed.

Lemma eqb_other (a b c : string) : a <> b -> (c =? a) = true -> negb (c =? b) = true.
Proof.
  intros Hab Hc. apply String.eqb_eq in Hc. subst c.
  apply negb_true_iff. now apply String.eqb_neq.
Qed.

Section DeleteFacts.
Context `{External}.

(** X12.  Deleting a session that exists answers 200, calls no browser,
    and removes the session and all its steps and nothing else: every other
    session keeps its row and its steps.  Executing the deleted session
    afterwards answers 404. *)
Theorem delete_removes_session (sessionId : string) (w : World)
    (row : TestSessions.row) :
  select_session sessionId (db w) = Some row ->
  exists r w',
    delete sessionId w = (Ok r, w') /\
    code r = 200%Z /\
    trace w' = trace w /\
    select_session sessionId (db w') = None /\
    steps_of sessionId (db w') = [] /\
    (forall other, other <> sessionId ->
       select_session other (db w') = select_session other (db w) /\
       steps_of other (db w') = steps_of other (db w)) /\
    execute sessionId w'
    = (Ok (error_response 404 "Test session not found"), w').
Proof.
  intros Hsel.
  assert (Hex : existsb (fun r => TestSessions.id r =? sessionId)
                  (test_sessions (db w)) = true)
    by (apply select_session_exists; eauto).
  unfold delete, try_catch, bind, db_update, db_run, delete_session.
  cbn [db delete_steps test_sessions]. rewrite Hex.
  do 2 eexists. split; [reflexivity|]. split; [reflexivity|].
  split; [reflexivity|]. cbn [db].
  assert (Hgone : select_session sessionId
                    {| test_sessions :=
                         filter (fun r => negb (TestSessions.id r =? sessionId))
                           (test_sessions (db w));
                       test_steps := test_steps (delete_steps sessionId (db w)) |}
                  = None).
  { unfold select_session. cbn [test_sessions]. apply find_filter_out.
    intros x Hx. now rewrite Hx. }
  split; [exact Hgone|]. split; [|split].
  - unfold steps_of. cbn [test_steps delete_steps]. apply filter_none.
    intros x (_ & Hx)%filter_In. now apply negb_true_iff.
  - intros other Hother. split.
    + unfold select_session. cbn [test_sessions]. apply find_filter_keep.
      intros x Hx. now apply (eqb_other other).
    + unfold steps_of. cbn [test_steps delete_steps]. apply filter_filter_keep.
      intros x Hx. now apply (eqb_other other).
  - unfold execute, try_catch, bind, db_read. cbn [db]. now rewrite Hgone.
Qed.

(** X13.  Deleting an id that no session has answers 500, not 404; the
    browser is not called; the rows of steps that carry this id, if any,
    are removed all the same, and when the foreign keys hold there are none,
    so the database is unchanged. *)
Theorem delete_unknown_session (sessionId : string) (w : World) :
  select_session sessionId (db w) = None ->
  exists w',
    delete sessionId w
    = (Ok (error_response 500 "Failed to delete test session"), w') /\
    trace w' = trace w /\
    db w' = delete_steps sessionId (db w) /\
    (foreign_keys_hold (db w) -> db w' = db w).
Proof.
  intros Hsel.
  assert (Hex : existsb (fun r => TestSessions.id r =? sessionId)
                  (test_sessions (db w)) = false).
  { destruct (existsb _ _) eqn:He; [|reflexivity].
    apply select_session_exists in He as [row Hrow]. congruence. }
  unfold delete, try_catch, bind, db_update, db_run, delete_session.
  cbn [db delete_steps test_sessions]. rewrite Hex.
  eexists. split; [reflexivity|]. split; [reflexivity|]. split; [reflexivity|].
  intros Hfk. cbn [db]. unfold delete_steps.
  pose proof (steps_of_fresh sessionId (db w) Hfk Hex) as Hnone.
  rewrite filter_all; [now destruct (db w)|].
  intros x Hx. apply negb_true_iff.
  destruct (TestSteps.session_id x =? sessionId) eqn:Heq; [|reflexivity].
  assert (Hin : In x (steps_of sessionId (db w)))
    by (apply filter_In; auto).
  rewrite Hnone in Hin. destruct Hin.
Qed.

End DeleteFacts.

Lemma delete_removes_session_witness :
  exists r w',
    delete "s1" (Demo.start Demo.example_page (Demo.abort_store "passed"))
    = (Ok r, w') /\
    code r = 200%Z /\
    trace w' = [] /\
    select_session "s1" (db w') = None /\
    steps_of "s1" (db w') = [] /\
    (forall other, other <> "s1" ->
       select_session other (db w')
       = select_session other (Demo.abort_store "passed") /\
       steps_of other (db w') = steps_of other (Demo.abort_store "passed")) /\
    execute "s1" w' = (Ok (error_response 404 "Test session not found"), w').
Proof.
  exact (@delete_removes_session (Demo.world Demo.example_page) "s1"
           (Demo.start Demo.example_page (Demo.abort_store "passed"))
           (Demo.session "s1" "passed" 3) eq_refl).
Defined.

Lemma delete_unknown_session_witness :
  exists w',
    delete "nobody" (Demo.start Demo.example_page (Demo.abort_store "passed"))
    = (Ok (error_response 500 "Failed to delete test session"), w') /\
    trace w' = [] /\
    db w' = delete_steps "nobody" (Demo.abort_store "passed") /\
    (foreign_keys_hold (Demo.abort_store "passed") ->
     db w' = Demo.abort_store "passed").
Proof.
  exact (@delete_unknown_session (Demo.world Demo.example_page) "nobody"
           (Demo.start Demo.example_page (Demo.abort_store "passed")) eq_refl).
Defined.

(** ** The keys of the database *)

Lemma existsb_map_same {A : Type} (p : A -> bool) (g : A -> A) (l : list A) :
  (forall x, p (g x) = p x) -> existsb p (map g l) = existsb p l.
Proof.
  intros Hp. induction l as [|x l IH]; cbn; [reflexivity|]. now rewrite Hp, IH.
Qed.

Lemma NoDup_map_filter {A B : Type} (f : A -> B) (q : A -> bool) (l : list A) :
  NoDup (map f l) -> NoDup (map f (filter q l)).
Proof.
  induction l as [|x l IH]; cbn; intros Hn; [constructor|].
  inversion Hn as [|? ? Hx Hl]; subst.
  destruct (q x); cbn; [|now apply IH].
  constructor; [|now apply IH].
  intros (y & Hy & Hin)%in_map_iff. apply filter_In in Hin as [Hin _].
  apply Hx. rewrite <- Hy. now apply in_map.
Qed.

Lemma existsb_id_In (k : string) (l : list TestSessions.row) :
  existsb (fun x => TestSessions.id x =? k) l = true <->
  In k (map TestSessions.id l).
Proof.
  rewrite existsb_exists, in_map_iff. split.
  - intros (x & Hx & He). apply String.eqb_eq in He. eauto.
  - intros (x & He & Hx). exists x. split; [exact Hx|]. now apply String.eqb_eq.
Qed.

Lemma existsb_step_In (k : string) (l : list TestSteps.row) :
  existsb (fun x => TestSteps.id x =? k) l = true <->
  In k (map TestSteps.id l).
Proof.
  rewrite existsb_exists, in_map_iff. split.
  - intros (x & Hx & He). apply String.eqb_eq in He. eauto.
  - intros (x & He & Hx). exists x. split; [exact Hx|]. now apply String.eqb_eq.
Qed.

Lemma keys_executed (ids : list string) (s s' : Store) :
  executed ids s s' -> keys_hold s -> keys_hold s'.
Proof.
  intros (Hsess & f & Hm & Hf) (Hfk & Hps & Hpt).
  assert (Hid : map TestSteps.id (test_steps s') = map TestSteps.id (test_steps s)).
  { rewrite Hm, map_map. apply map_ext. intros r. apply Hf. }
  split; [|split].
  - intros r' Hr'. rewrite Hm in Hr'. apply in_map_iff in Hr' as (r & <- & Hr).
    rewrite Hsess, (proj1 (proj2 (Hf r))). now apply Hfk.
  - now rewrite Hsess.
  - now rewrite Hid.
Qed.

Lemma keys_update_session (sessionId : string)
    (g : TestSessions.row -> TestSessions.row) (s : Store) :
  (forall r, TestSessions.id (g r) = TestSessions.id r) ->
  keys_hold s -> keys_hold (update_session sessionId g s).
Proof.
  intros Hg (Hfk & Hps & Hpt).
  assert (Hg' : forall r,
             TestSessions.id (if TestSessions.id r =? sessionId then g r else r)
             = TestSessions.id r)
    by (intros r; destruct (_ =? _); [apply Hg | reflexivity]).
  split; [|split].
  - intros r Hr. unfold update_session. cbn [test_sessions].
    rewrite existsb_map_same; [now apply Hfk|].
    intros x. now rewrite Hg'.
  - unfold update_session. cbn [test_sessions]. rewrite map_map.
    erewrite map_ext; [exact Hps|]. exact Hg'.
  - exact Hpt.
Qed.

Lemma keys_delete_steps (sessionId : string) (s : Store) :
  keys_hold s -> keys_hold (delete_steps sessionId s).
Proof.
  intros (Hfk & Hps & Hpt). split; [|split].
  - intros r (Hr & _)%filter_In. now apply Hfk.
  - exact Hps.
  - now apply NoDup_map_filter.
Qed.

Lemma keys_insert_step (stepId sessionId : string) (number : Z)
    (command : string) (translated : JsonText) (type target : JsValue)
    (s s' : Store) :
  insert_step stepId sessionId number command translated type target s = Ok s' ->
  existsb (fun x => TestSessions.id x =? sessionId) (test_sessions s) = true ->
  keys_hold s -> keys_hold s' /\ test_sessions s' = test_sessions s.
Proof.
  unfold insert_step. destruct (existsb _ (test_steps s)) eqn:Hfresh; [discriminate|].
  intros [= <-] Hsess (Hfk & Hps & Hpt). split; [|reflexivity].
  split; [|split].
  - intros r [Hr | [<- | []]]%in_app_or; cbn [test_sessions]; [now apply Hfk|].
    exact Hsess.
  - exact Hps.
  - cbn [test_steps]. rewrite map_app. cbn [map TestSteps.id].
    apply NoDup_app; [exact Hpt | repeat constructor; intros [] |].
    intros x Hx [<- | []]. apply existsb_step_In in Hx. congruence.
Qed.

Section KeyFacts.
Context `{External}.

Lemma executeTest_executed (sessionId : string) (steps : list TestSteps.row)
    (w : World) :
  exists ids, executed ids (db w) (db (snd (executeTest sessionId steps w))).
Proof.
  unfold executeTest. rewrite call_settles.
  destruct (fst (perform _ (ext w))) as [v|m].
  - rewrite call_settles. cbn [ext].
    destruct (fst (perform NewContext _)) as [v'|m].
    + rewrite call_settles. cbn [ext].
      destruct (fst (perform NewPage _)) as [v''|m].
      * match goal with
        | |- context [executeSteps _ _ _ ?w3] =>
            destruct (executeSteps_run sessionId steps [] w3)
              as (new & w4 & Hrun & _ & _ & Hex & _)
        end.
        rewrite Hrun. destruct (cleanup_frame 3 w4) as (Hdb & _).
        exists (map TestSteps.id steps).
        destruct (cleanup 3 w4) as [[[]|m] w5]; cbn [snd] in *;
          rewrite Hdb; exact Hex.
      * match goal with
        | |- context [cleanup 2 ?x] =>
            destruct (cleanup_frame 2 x) as (Hdb & _);
            destruct (cleanup 2 x) as [[[]|m'] w5]
        end; exists []; cbn [snd] in *; rewrite Hdb; apply executed_refl.
    + match goal with
      | |- context [cleanup 1 ?x] =>
          destruct (cleanup_frame 1 x) as (Hdb & _);
          destruct (cleanup 1 x) as [[[]|m'] w5]
      end; exists []; cbn [snd] in *; rewrite Hdb; apply executed_refl.
  - match goal with
    | |- context [cleanup 0 ?x] =>
        destruct (cleanup_frame 0 x) as (Hdb & _);
        destruct (cleanup 0 x) as [[[]|m'] w5]
    end; exists []; cbn [snd] in *; rewrite Hdb; apply executed_refl.
Qed.

Lemma keys_translate_commands (sessionId targetUrl : string)
    (commands : list string) :
  forall (i : Z) (steps : list JsValue) (w : World),
    existsb (fun x => TestSessions.id x =? sessionId) (test_sessions (db w)) = true ->
    keys_hold (db w) ->
    keys_hold (db (snd (translate_commands sessionId targetUrl i commands steps w))).
Proof.
  induction commands as [|command rest IH]; intros i steps w Hsess Hk.
  - exact Hk.
  - cbn [translate_commands]. unfold bind at 1, uuid.
    destruct (uuidv4 (ext w)) as [stepId e].
    unfold bind at 1, try_catch, bind at 1.
    match goal with
    | |- context [translateCommand command targetUrl ?w0] =>
        destruct (translateCommand_frame command targetUrl w0) as (Hdb & _);
        destruct (translateCommand command targetUrl w0) as [[action|m] w1]
    end; cbn [snd db] in Hdb.
    + unfold bind at 1, db_run.
      destruct (insert_step stepId sessionId (i + 1) command
                  (JSON_stringify action) (prop action "type")
                  (prop action "target") (db w1)) as [s'|m] eqn:Hins.
      * apply keys_insert_step in Hins as (Hk' & Hs');
          [| now rewrite Hdb | now rewrite Hdb].
        apply IH; cbn [db]; [now rewrite Hs', Hdb | exact Hk'].
      * apply IH; cbn [ret snd db]; now rewrite Hdb.
    + apply IH; cbn [ret snd db]; now rewrite Hdb.
Qed.

(** X14.  The three routes that write keep the keys of the database: when
    every stored step belongs to a stored session and no two sessions and no
    two steps share an id, the same holds after a session was created,
    executed or deleted, whatever the answer of the route. *)
Theorem routes_keep_keys (w : World) :
  foreign_keys_hold (db w) -> primary_keys_hold (db w) ->
  (forall name description commands targetUrl,
     let s := db (snd (create name description commands targetUrl w)) in
     foreign_keys_hold s /\ primary_keys_hold s) /\
  (forall sessionId,
     let s := db (snd (execute sessionId w)) in
     foreign_keys_hold s /\ primary_keys_hold s) /\
  (forall sessionId,
     let s := db (snd (delete sessionId w)) in
     foreign_keys_hold s /\ primary_keys_hold s).
Proof.
  intros Hfk Hpk. assert (Hk : keys_hold (db w)) by (split; assumption).
  enough (Hall :
            (forall name description commands targetUrl,
               keys_hold (db (snd (create name description commands targetUrl w)))) /\
            (forall sessionId, keys_hold (db (snd (execute sessionId w)))) /\
            (forall sessionId, keys_hold (db (snd (delete sessionId w)))))
    by exact Hall.
  split; [|split].
  - intros name description commands targetUrl.
    unfold create, try_catch, bind at 1, uuid.
    destruct (uuidv4 (ext w)) as [sessionId e].
    unfold bind at 1, db_run, insert_session. cbn [db].
    destruct (existsb _ (test_sessions (db w))) eqn:Hfresh; [exact Hk|].
    unfold bind.
    match goal with
    | |- context [translate_commands ?a ?b ?c ?d ?e0 ?w0] =>
        assert (Hk0 : keys_hold
                        (db (snd (translate_commands a b c d e0 w0))));
        [apply keys_translate_commands
        |destruct (translate_commands a b c d e0 w0) as [[steps|m] w1];
         exact Hk0]
    end.
    + cbn [db test_sessions]. rewrite existsb_app. cbn.
      now rewrite String.eqb_refl, orb_true_r.
    + destruct Hk as (Hfk' & Hps & Hpt). cbn [db]. split; [|split].
      * intros r Hr. cbn [test_sessions test_steps] in *.
        rewrite existsb_app. now rewrite (Hfk' r Hr).
      * cbn [test_sessions]. rewrite map_app. cbn [map TestSessions.id].
        apply NoDup_app; [exact Hps | repeat constructor; intros [] |].
        intros x Hx [<- | []]. apply existsb_id_In in Hx. congruence.
      * exact Hpt.
  - intros sessionId. unfold execute, try_catch, bind, db_read, db_update.
    destruct (select_session sessionId (db w)) as [row|]; [|exact Hk].
    cbv beta iota.
    match goal with
    | |- context [executeTest ?a ?b ?w0] =>
        destruct (executeTest_executed a b w0) as [ids Hex];
        destruct (executeTest a b w0) as [[results|m] w1]
    end; cbn [snd db] in *.
    + apply keys_update_session; [reflexivity|].
      apply (keys_executed _ _ _ Hex).
      now apply keys_update_session.
    + apply (keys_executed _ _ _ Hex). now apply keys_update_session.
  - intros sessionId. unfold delete, try_catch, bind, db_update, db_run,
      delete_session. cbn [db].
    pose proof (keys_delete_steps sessionId (db w) Hk) as Hk'.
    destruct (existsb _ (test_sessions (delete_steps sessionId (db w)))) eqn:Hex;
      cbn [snd db ret]; [|exact Hk'].
    destruct Hk' as (Hfk' & Hps & Hpt). split; [|split].
    + intros r Hr. cbn [test_steps test_sessions] in *.
      pose proof Hr as (Hr0 & Hne)%filter_In.
      specialize (Hfk r Hr0). apply existsb_exists in Hfk as (x & Hx & He).
      apply existsb_exists. exists x. split; [|exact He].
      apply filter_In. split; [exact Hx|].
      apply String.eqb_eq in He. now rewrite He.
    + cbn [test_sessions]. now apply NoDup_map_filter.
    + exact Hpt.
Qed.

End KeyFacts.

Lemma routes_keep_keys_witness :
  let s := db (snd (execute "s1"
                      (Demo.start Demo.example_page (Demo.abort_store "pending")))) in
  foreign_keys_hold s /\ primary_keys_hold s.
Proof.
  refine (proj1 (proj2 (@routes_keep_keys (Demo.world Demo.example_page)
                          (Demo.start Demo.example_page
                             (Demo.abort_store "pending")) _ _)) "s1").
  - intros r [<- | [<- | [<- | []]]]; reflexivity.
  - split; cbn; repeat constructor; cbn; intuition discriminate.
Defined.

(** ** The entries and rows of a created session *)
Section EntryFacts.
Context `{External}.

Lemma steps_of_insert_rows (stepId sessionId : string) (number : Z)
    (command : string) (translated : JsonText) (type target : JsValue)
    (s s' : Store) :
  insert_step stepId sessionId number command translated type target s = Ok s' ->
  map row_label (steps_of sessionId s')
  = (map row_label (steps_of sessionId s) ++ [(JNum number, JStr command)])%list.
Proof.
  unfold insert_step. destruct (existsb _ _); [discriminate|].
  intros [= <-]. unfold steps_of. cbn [test_steps].
  rewrite filter_app. cbn [filter TestSteps.session_id]. rewrite String.eqb_refl.
  rewrite map_app. reflexivity.
Qed.

Lemma translate_commands_entries (sessionId targetUrl : string)
    (commands : list string) :
  forall (i : Z) (steps : list JsValue) (w : World),
  exists new w',
    translate_commands sessionId targetUrl i commands steps w
    = (Ok (steps ++ new)%list, w') /\
    map entry_label new = labels_from i commands /\
    map row_label (steps_of sessionId (db w'))
    = (map row_label (steps_of sessionId (db w))
       ++ map entry_label
            (filter (fun e => is_str (prop e "status") "pending") new))%list.
Proof.
  induction commands as [|command rest IH]; intros i steps w.
  - exists [], w. rewrite !app_nil_r. auto.
  - cbn [translate_commands]. unfold bind at 1, uuid.
    destruct (uuidv4 (ext w)) as [stepId e].
    unfold bind at 1, try_catch, bind at 1.
    match goal with
    | |- context [translateCommand command targetUrl ?w0] =>
        destruct (translateCommand_frame command targetUrl w0) as (Hdb & _);
        destruct (translateCommand command targetUrl w0) as [[action|m] w1]
    end; cbn [snd db] in Hdb.
    + unfold bind at 1, db_run.
      destruct (insert_step stepId sessionId (i + 1) command
                  (JSON_stringify action) (prop action "type")
                  (prop action "target") (db w1)) as [s'|m] eqn:Hins.
      * apply steps_of_insert_rows in Hins as Hrows.
        cbn [ret].
        match goal with
        | |- context [translate_commands _ _ _ _ ?acc ?w2] =>
            destruct (IH (i + 1)%Z acc w2) as (new & w' & Hrun & Hl & Hr)
        end.
        rewrite Hrun. cbn [db] in Hr. rewrite Hrows, Hdb in Hr.
        eexists (_ :: new), w'. rewrite <- app_assoc. split; [reflexivity|].
        split; [cbn [map labels_from]; now rewrite Hl|].
        rewrite Hr, <- app_assoc. reflexivity.
      * cbn [ret].
        match goal with
        | |- context [translate_commands _ _ _ _ ?acc ?w2] =>
            destruct (IH (i + 1)%Z acc w2) as (new & w' & Hrun & Hl & Hr)
        end.
        rewrite Hrun. rewrite Hdb in Hr.
        eexists (_ :: new), w'. rewrite <- app_assoc. split; [reflexivity|].
        split; [cbn [map labels_from]; now rewrite Hl|]. exact Hr.
    + cbn [ret].
      match goal with
      | |- context [translate_commands _ _ _ _ ?acc ?w2] =>
          destruct (IH (i + 1)%Z acc w2) as (new & w' & Hrun & Hl & Hr)
      end.
      rewrite Hrun. rewrite Hdb in Hr.
      eexists (_ :: new), w'. rewrite <- app_assoc. split; [reflexivity|].
      split; [cbn [map labels_from]; now rewrite Hl|]. exact Hr.
Qed.

(** X15.  The answer of the create route lists the commands in the order
    they were given, numbered from 1, translated or not; the rows stored
    for the session are those of the entries that are pending, with the
    number of their entry, so a command whose translation failed leaves a
    gap in the numbers of the stored steps. *)
Theorem create_numbers_commands (name : string) (description : JsValue)
    (commands : list string) (targetUrl sessionId : string)
    (w w1 : World) (r : Response) :
  foreign_keys_hold (db w) ->
  create name description commands targetUrl w = (Ok r, w1) ->
  code r = 200%Z ->
  prop (body r) "sessionId" = JStr sessionId ->
  let entries := array_items (prop (body r) "steps") in
  map entry_label entries = labels_from 0 commands /\
  map row_label (steps_of sessionId (db w1))
  = map entry_label
      (filter (fun e => is_str (prop e "status") "pending") entries).
Proof.
  intros Hfk. unfold create, try_catch, bind at 1, uuid.
  destruct (uuidv4 (ext w)) as [sid e].
  unfold bind at 1, db_run, insert_session. cbn [db].
  destruct (existsb _ (test_sessions (db w))) eqn:Hfresh.
  - intros [= <- <-]. discriminate.
  - unfold bind. cbn [ext trace].
    match goal with
    | |- context [translate_commands _ _ _ _ _ ?w0] =>
        destruct (translate_commands_entries sid targetUrl commands 0 [] w0)
          as (new & w' & Hrun & Hl & Hr)
    end.
    rewrite Hrun. cbn [app ret]. intros [= <- <-] _.
    cbn [body prop lookup array_items String.eqb Ascii.eqb Bool.eqb andb].
    intros [= <-]. split; [exact Hl|]. rewrite Hr. cbn [db].
    change (steps_of sid {| test_sessions := _; test_steps := test_steps (db w) |})
      with (steps_of sid (db w)).
    now rewrite (steps_of_fresh _ _ Hfk Hfresh).
Qed.

End EntryFacts.

Lemma create_numbers_commands_witness :
  let run :=
    create "t" JUndefined ["hello"; "Click 'Go'"] "https://example.com"
      (Demo.start Demo.example_page Demo.empty_store) in
  map row_label (steps_of "id-0" (db (snd run)))
  = map entry_label
      (filter (fun e => is_str (prop e "status") "pending")
         (array_items
            (prop (body (value_or (error_response 0 "") (fst run))) "steps"))).
Proof.
  intros run.
  assert (Hrun : run = (Ok (value_or (error_response 0 "") (fst run)), snd run))
    by (vm_compute; reflexivity).
  refine (proj2 (@create_numbers_commands (Demo.world Demo.example_page)
                   "t" JUndefined ["hello"; "Click 'Go'"] "https://example.com"
                   "id-0" _ _ _ _ Hrun _ _)).
  - intros r [].
  - vm_compute. reflexivity.
  - vm_compute. reflexivity.
Defined.

(** ** Actions of a single call, and the verification of an element *)
Section SingleCallFacts.
Context `{External}.
Import NlpService.

Lemma action_phase_single (step : TestSteps.row) (sessionId : string)
    (action : JsValue) (r : Result Call) (w : World) :
  TestSteps.translated_action step = Some action ->
  single_call action = Some r ->
  action_phase step sessionId w =
  match r with
  | Ok c =>
      (match fst (perform c (ext w)) with
       | Resolved _ => Ok (None, JNull)
       | Rejected message => Throw message
       end,
       {| ext := snd (perform c (ext w));
          trace := trace w ++ [c];
          db := set_step_status (TestSteps.id step) (JStr "running") (db w) |})
  | Throw message =>
      (Throw message,
       {| ext := ext w;
          trace := trace w;
          db := set_step_status (TestSteps.id step) (JStr "running") (db w) |})
  end.
Proof.
  intros Hstep. unfold single_call.
  destruct action as [| | | | | |props| |]; try discriminate.
  unfold action_phase, bind, lift, updateStepStatus, db_update.
  rewrite Hstep. cbn [JSON_parse Js.read]. unfold dispatch.
  assert (Hcall : forall c w0,
             (let (r0, w1) := call c w0 in
              match r0 with
              | Ok _ => ret tt w1
              | Throw e => (Throw e, w1)
              end) =
             (match fst (perform c (ext w0)) with
              | Resolved _ => Ok tt
              | Rejected message => Throw message
              end,
              {| ext := snd (perform c (ext w0)); trace := trace w0 ++ [c];
                 db := db w0 |})).
  { intros c w0. rewrite call_settles.
    now destruct (fst (perform c (ext w0))). }
  destruct (is_str (prop (JObj props) "type") NAVIGATE) eqn:Hn.
  { cbn [prop]. intros [= <-]. unfold executeNavigate, bind, str, lift.
    cbn [prop].
    destruct (to_string _); cbn [and_then]; [|reflexivity].
    rewrite Hcall. cbn [ext trace db].
    now destruct (fst (perform _ (ext w))). }
  destruct (prop (JObj props) "type") as [| | | |t| | | |] eqn:Ht; try discriminate.
  cbn [is_str] in *.
  destruct (t =? WAIT) eqn:Hw.
  { apply String.eqb_eq in Hw. subst t.
    cbn [String.eqb Ascii.eqb Bool.eqb CLICK TYPE WAIT andb].
    cbn [prop]. unfold executeWait, bind, str, lift. cbn [prop].
    destruct (_ || _); intros [= <-];
      (destruct (to_string _); cbn [and_then]; [|reflexivity]);
      rewrite Hcall; cbn [ext trace db];
      now destruct (fst (perform _ (ext w))). }
  destruct (t =? SCROLL) eqn:Hs.
  { apply String.eqb_eq in Hs. subst t. cbn.
    unfold executeScroll, bind, str, lift. cbn [prop]. intros [= <-].
    destruct (to_string _); cbn [and_then]; [|reflexivity].
    destruct (is_str _ "top"); [|destruct (is_str _ "bottom")];
      rewrite Hcall; cbn [ext trace db];
      now destruct (fst (perform _ (ext w))). }
  destruct (t =? HOVER) eqn:Hh.
  { apply String.eqb_eq in Hh. subst t. cbn.
    unfold executeHover, bind, str, lift. cbn [prop]. intros [= <-].
    destruct (to_string _); cbn [and_then]; [|reflexivity].
    rewrite Hcall. cbn [ext trace db].
    now destruct (fst (perform _ (ext w))). }
  destruct (t =? SELECT) eqn:Hl; [|discriminate].
  apply String.eqb_eq in Hl. subst t. cbn.
  unfold executeSelect, bind, str, lift. cbn [prop]. intros [= <-].
  destruct (to_string (lookup "value" props)); cbn [and_then]; [|reflexivity].
  destruct (to_string (lookup "target" props)); cbn [and_then]; [|reflexivity].
  rewrite Hcall. cbn [ext trace db].
  now destruct (fst (perform _ (ext w))).
Qed.

(** X16.  A step whose stored action is a navigate, wait, scroll, hover or
    select first converts to text the fields it writes to the log or
    parses.  When these conversions succeed, it makes exactly one browser
    call for its action, followed by the capture; it passes exactly when
    that call resolves, and when the call is rejected the step is failed and
    its error is the message of the rejection.  When a conversion throws (a
    field that is an object with an own property toString), no browser call
    is made for the action: the step is failed with the error of the
    conversion and the only call is the capture of the failure. *)
Theorem single_call_step (step : TestSteps.row) (sessionId : string)
    (action : JsValue) (w : World) :
  TestSteps.translated_action step = Some action ->
  (forall c,
     single_call action = Some (Ok c) ->
     exists result w' shot,
       executeStep step sessionId w = (Ok result, w') /\
       trace w' = (trace w ++ [c; Screenshot shot])%list /\
       match fst (perform c (ext w)) with
       | Resolved _ =>
           prop result "status" = JStr "passed" /\ prop result "error" = JNull
       | Rejected message =>
           prop result "status" = JStr "failed" /\
           prop result "error" = JStr message
       end) /\
  (forall message,
     single_call action = Some (Throw message) ->
     exists result w' shot,
       executeStep step sessionId w = (Ok result, w') /\
       trace w' = (trace w ++ [Screenshot shot])%list /\
       prop result "status" = JStr "failed" /\
       prop result "error" = JStr primitive_error).
Proof.
  intros Hstep.
  destruct (executeStep_outcome step sessionId w)
    as (result & shot & w' & Hrun & _ & Hcase).
  split.
  - intros c Hc.
    rewrite (action_phase_single step sessionId action _ w Hstep Hc) in Hcase.
    exists result, w'.
    destruct (fst (perform c (ext w))) as [v|m].
    + destruct Hcase as (Hs & He & _ & Ht & _). cbn [truthy trace] in Ht.
      eexists. split; [exact Hrun|]. split; [|auto].
      rewrite Ht, <- app_assoc. reflexivity.
    + destruct Hcase as (Hs & He & _ & Ht & _). cbn [trace] in Ht.
      eexists. split; [exact Hrun|]. split; [|auto].
      rewrite Ht, <- app_assoc. reflexivity.
  - intros message Hc.
    rewrite (action_phase_single step sessionId action _ w Hstep Hc) in Hcase.
    destruct Hcase as (Hs & He & _ & Ht & _). cbn [trace] in Ht.
    assert (Hm : message = primitive_error).
    { revert Hc. unfold single_call.
      repeat match goal with
             | |- context [if ?b then _ else _] => destruct b
             end; try discriminate; intros [= Hc]; revert Hc;
        repeat match goal with
               | |- context [to_string ?v] =>
                   let E := fresh "E" in
                   destruct (to_string v) eqn:E; cbn [and_then]
               end; try discriminate; intros [= <-];
        eauto using to_string_error. }
    exists result, w'. eexists. split; [exact Hrun|]. split; [exact Ht|].
    rewrite <- Hm. auto.
Qed.

(** X17.  The verification of an element (a target other than the title).
    The target is converted to text first, for the log; when the conversion
    throws, no browser call is made.  Otherwise: when the element is not
    visible the verification fails without reading its text; when it is
    visible and no value is expected, it passes without reading the text;
    when a value is expected, the text is read and the verification passes
    exactly when the text contains the value written as text; a value that
    cannot be converted to text makes it fail with the error of the
    conversion, and an element without text content ([null]) with the error
    of reading a property of [null]. *)
Theorem verify_element (action : JsValue) (w : World) :
  is_str (prop action "target") "title" = false ->
  let target := prop action "target" in
  let value := prop action "value" in
  (forall message,
     to_string target = Throw message ->
     executeVerify action w = (Throw primitive_error, w)) /\
  (forall shown visible e,
     to_string target = Ok shown ->
     perform (IsVisible target) (ext w) = (Resolved visible, e) ->
     let seen :=
       {| ext := e; trace := trace w ++ [IsVisible target]; db := db w |} in
     (truthy visible = false ->
      executeVerify action w = (Throw ("Element not visible: " ++ shown), seen)) /\
     (truthy visible = true -> truthy value = false ->
      executeVerify action w
      = (Ok (JStr ("Element verification passed: " ++ shown ++ " is visible")),
         seen)) /\
     (truthy visible = true -> truthy value = true ->
      forall text e',
        perform (TextContent target) e = (Resolved text, e') ->
        let read :=
          {| ext := e';
             trace := trace w ++ [IsVisible target; TextContent target];
             db := db w |} in
        (forall t wanted,
           text = JStr t -> to_string value = Ok wanted ->
           executeVerify action w
           = (if Str.includes t wanted
              then Ok (JStr ("Text verification passed: found " ++ quoted wanted))
              else Throw ("Text verification failed: " ++ quoted t
                          ++ " does not contain " ++ quoted wanted),
              read)) /\
        (forall t message,
           text = JStr t -> to_string value = Throw message ->
           executeVerify action w = (Throw primitive_error, read)) /\
        (text = JNull ->
         executeVerify action w
         = (Throw "Cannot read properties of null (reading 'includes')", read)))).
Proof.
  intros Htitle target value.
  unfold executeVerify, bind, str, lift. rewrite Htitle. fold target value.
  split.
  - intros message Hm. rewrite Hm. now rewrite (to_string_error _ _ Hm).
  - intros shown visible e Hshown Hvis. rewrite Hshown, call_settles, Hvis.
    cbn [fst snd]. split; [|split].
    + intros Hv. now rewrite Hv.
    + intros Hv Hval. now rewrite Hv, Hval.
    + intros Hv Hval text e' Htext. rewrite Hv, Hval. cbn [negb].
      rewrite call_settles. cbn [ext trace db]. rewrite Htext. cbn [fst snd].
      rewrite <- app_assoc. cbn [app]. split; [|split].
      * intros t wanted -> Hw. unfold includes_of. rewrite Hw. cbn [and_then to_string].
        destruct (Str.includes t wanted); reflexivity.
      * intros t message -> Hm. unfold includes_of. rewrite Hm. cbn [and_then].
        now rewrite (to_string_error _ _ Hm).
      * intros ->. reflexivity.
Qed.

End SingleCallFacts.

Lemma single_call_step_witness :
  exists result w' shot,
    executeStep
      (Demo.step "st-1" "s1" 1
         (Demo.action "navigate" "http://bad.invalid" "http://bad.invalid"))
      "s1" (Demo.start Demo.example_page (Demo.abort_store "pending"))
    = (Ok result, w') /\
    trace w' = [Goto (JStr "http://bad.invalid") (JNum 30000); Screenshot shot] /\
    prop result "status" = JStr "failed" /\
    prop result "error" = JStr "net::ERR_NAME_NOT_RESOLVED at http://bad.invalid".
Proof.
  exact (proj1 (@single_call_step (Demo.world Demo.example_page)
                  (Demo.step "st-1" "s1" 1
                     (Demo.action "navigate" "http://bad.invalid"
                        "http://bad.invalid"))
                  "s1"
                  (Demo.action "navigate" "http://bad.invalid" "http://bad.invalid")
                  (Demo.start Demo.example_page (Demo.abort_store "pending"))
                  eq_refl)
           (Goto (JStr "http://bad.invalid") (JNum 30000)) eq_refl).
Defined.

Lemma verify_element_witness :
  executeVerify (Demo.action "verify" ".a" "")
    (Demo.start Demo.example_page Demo.empty_store)
  = (Throw "Element not visible: .a",
     @Build_World (Demo.world Demo.example_page) 1%Z [IsVisible (JStr ".a")]
       Demo.empty_store).
Proof.
  exact (proj1 (proj2 (@verify_element (Demo.world Demo.example_page)
                         (Demo.action "verify" ".a" "")
                         (Demo.start Demo.example_page Demo.empty_store)
                         eq_refl)
                  ".a" (JBool false) 1%Z eq_refl eq_refl)
           eq_refl).
Defined.

(** ** Numbers read back from their decimal writing *)















Section WaitFacts.
Context `{External}.


End WaitFacts.

